(** * prep-trade: the client resilience layer

    A shallow embedding of the cache ([AdvancedCache], usePerformance.ts),
    the retry executor and rate limiter ([useNetworkRecovery],
    [useRateLimit], useNetworkRecovery.ts) and the streaming connection
    hook ([useHyperliquidWebSocket]), with the properties the
    specification states about them.

    Conventions.  JavaScript numbers that the code uses as integers
    (timestamps, delays, sizes) are [Z]; counters that start at 0 and are
    only incremented are [nat].  [Date.now()] is an effect: every call
    consumes one reading of a clock that is threaded through the
    operations.  A JavaScript [Map] keeps insertion order, which the
    eviction pass observes through [Array.from]; it is an association
    list in insertion order.  Delays and multipliers are taken to be
    integers, so [Math.pow] is [Z.pow].  Where the code divides two
    numbers and the quotient need not be an integer ([hitRate]), the
    result is the double the machine computes: a rational, rounded as
    IEEE 754 prescribes.  Calls that only inform the user ([toast],
    [console]) are left out. *)

From Stdlib Require Import ZArith QArith Qround Qpower Lia Lqa List.
From Stdlib Require Import Permutation Sorted.
From Stdlib Require PrimFloat FloatOps Uint63.
From stdpp Require Import gmap strings list pretty.

Close Scope Q_scope.
Local Open Scope Z_scope.

(** ** The clock *)

Module Clock.

(** The readings [Date.now()] will return, in the order of the calls. *)
Definition Clock := nat -> Z.

Definition M (A : Type) : Type := Clock -> A * Clock.

Definition ret {A} (a : A) : M A := fun clk => (a, clk).

Definition bind {A B} (m : M A) (k : A -> M B) : M B :=
  fun clk => let '(a, clk') := m clk in k a clk'.

(** [Date.now()]: the next reading; the rest of the clock remains. *)
Definition Date_now : M Z := fun clk => (clk O, fun n => clk (S n)).

(** The clock whose first readings are [ts] and that then stays at [d]. *)
Definition readings (ts : list Z) (d : Z) : Clock := fun n => nth n ts d.

Definition frozen (t : Z) : Clock := fun _ => t.

(** Time does not run backwards. *)
Definition nondecreasing (clk : Clock) : Prop :=
  forall i j : nat, (i <= j)%nat -> clk i <= clk j.

End Clock.

Import Clock.

Notation "'let*' x ':=' m 'in' k" := (bind m (fun x => k))
  (at level 10, x name, m at level 100, k at level 200, only parsing).

(** ** Double precision numbers

    The finite doubles are the rationals [m * 2^e] with [|m| < 2^53].
    An arithmetic operation returns the double nearest to the exact
    result and, of two that are equally near, the one whose [m] is
    even.  The exponent range is left out: no result here is large
    enough to become [Infinity] or small enough to be subnormal, and
    no operation below divides by zero. *)

Module Double.
Local Open Scope Q_scope.

Definition pow2 (e : Z) : Q := 2 ^ e.

(** The [k] with [2^k <= x < 2^(k + 1)], for [x > 0]: the difference
    of the bit lengths of numerator and denominator, or one less. *)
Definition ilog2 (x : Q) : Z :=
  let k := (Z.log2 (Qnum x) - Z.log2 (Zpos (Qden x)))%Z in
  if Qle_bool (pow2 k) x then k else (k - 1)%Z.

(** The integer nearest to [y]; the even one of two equally near. *)
Definition nearest_even (y : Q) : Z :=
  let q := Qfloor y in
  match Qcompare (y - inject_Z q) (1 # 2) with
  | Lt => q
  | Gt => (q + 1)%Z
  | Eq => if Z.even q then q else (q + 1)%Z
  end.

(** Rounding [x > 0] to 53 significant bits: [x] is scaled into
    [[2^52, 2^53)], rounded to an integer and scaled back. *)
Definition round53 (x : Q) : Q :=
  let e := (ilog2 x - 52)%Z in
  inject_Z (nearest_even (x / pow2 e)) * pow2 e.

(** The double nearest to [x]. *)
Definition fl (x : Q) : Q :=
  match Qcompare x 0 with
  | Eq => 0
  | Gt => round53 x
  | Lt => - round53 (- x)
  end.

(** A counter as a number, and [+], [/], [*] and [>] on numbers. *)
Definition of_nat (n : nat) : Q := fl (inject_Z (Z.of_nat n)).
Definition add (a b : Q) : Q := fl (a + b).
Definition div (a b : Q) : Q := fl (a / b).
Definition mul (a b : Q) : Q := fl (a * b).
Definition gt (a b : Q) : bool := negb (Qle_bool a b).

(** The same computation on the machine's binary64 numbers, for
    comparison: [(hits / (hits + misses)) * 100] and its value as a
    rational. *)
Definition binary64_of_nat (n : nat) : PrimFloat.float :=
  PrimFloat.of_uint63 (Uint63.of_Z (Z.of_nat n)).

Definition binary64_percentage (hits misses : nat) : PrimFloat.float :=
  PrimFloat.mul
    (PrimFloat.div (binary64_of_nat hits)
                   (PrimFloat.add (binary64_of_nat hits)
                                  (binary64_of_nat misses)))
    (binary64_of_nat 100).

Definition value (f : PrimFloat.float) : option Q :=
  match FloatOps.Prim2SF f with
  | SpecFloat.S754_zero _ => Some 0
  | SpecFloat.S754_finite s m e =>
      Some ((if s then - inject_Z (Zpos m) else inject_Z (Zpos m)) * pow2 e)
  | _ => None
  end.

(** Every pair of counters with [1 <= hits + misses <= n]. *)
Definition counter_pairs (n : nat) : list (nat * nat) :=
  List.filter (fun p => (0 <? fst p + snd p)%nat && (fst p + snd p <=? n)%nat)
    (list_prod (seq 0 (S n)) (seq 0 (S n))).

End Double.

(** ** JavaScript [Map<string, V>] in insertion order *)

Module JsMap.
Section JsMap.
Context {V : Type}.

Definition t := list (string * V).

Definition size (m : t) : Z := Z.of_nat (length m).

Fixpoint get (key : string) (m : t) : option V :=
  match m with
  | [] => None
  | (k, v) :: m' => if String.eqb k key then Some v else get key m'
  end.

Definition has (key : string) (m : t) : bool :=
  match get key m with Some _ => true | None => false end.

(** [Map.prototype.set]: an existing key keeps its position, a new key
    goes last. *)
Fixpoint set (key : string) (v : V) (m : t) : t :=
  match m with
  | [] => [(key, v)]
  | (k, w) :: m' =>
      if String.eqb k key then (k, v) :: m' else (k, w) :: set key v m'
  end.

Definition delete (key : string) (m : t) : t :=
  List.filter (fun kv => negb (String.eqb (fst kv) key)) m.

Definition keys (m : t) : list string := map fst m.

Definition wf (m : t) : Prop := List.NoDup (keys m).

(** The entries that remain when the keys [ks] are deleted. *)
Definition outside (ks : list string) (kv : string * V) : bool :=
  negb (existsb (String.eqb (fst kv)) ks).

End JsMap.
Arguments t : clear implicits.
End JsMap.

(** ** AdvancedCache (usePerformance.ts) *)

Module Cache.

Record CacheEntry (T : Type) := {
  data : T;
  timestamp : Z;
  ttl : Z;
  accessCount : nat;
  lastAccessed : Z;
  tags : list string
}.
Arguments data {T}.
Arguments timestamp {T}.
Arguments ttl {T}.
Arguments accessCount {T}.
Arguments lastAccessed {T}.
Arguments tags {T}.

Record CacheConfig := {
  maxSize : Z;
  defaultTTL : Z;
  cleanupInterval : Z;
  enableLRU : bool
}.

Definition DEFAULT_CACHE_CONFIG : CacheConfig :=
  {| maxSize := 1000;
     defaultTTL := 5 * 60 * 1000;
     cleanupInterval := 60 * 1000;
     enableLRU := true |}.

Record AdvancedCache (T : Type) := {
  cache : JsMap.t (CacheEntry T);
  config : CacheConfig;
  hitCount : nat;
  missCount : nat
}.
Arguments cache {T}.
Arguments config {T}.
Arguments hitCount {T}.
Arguments missCount {T}.

Section Ops.
Context {T : Type}.

Definition with_cache (this : AdvancedCache T) (m : JsMap.t (CacheEntry T))
  : AdvancedCache T :=
  {| cache := m; config := config this;
     hitCount := hitCount this; missCount := missCount this |}.

(** [new AdvancedCache(config)]; the interval timer the constructor
    starts only ever calls [cleanup]. *)
Definition new (cfg : CacheConfig) : AdvancedCache T :=
  {| cache := []; config := cfg; hitCount := 0; missCount := 0 |}.

(** [now - entry.timestamp > entry.ttl] *)
Definition expired (now : Z) (e : CacheEntry T) : bool :=
  now - timestamp e >? ttl e.

(** [entries.sort((a, b) => a[1].lastAccessed - b[1].lastAccessed)]:
    [Array.prototype.sort] is stable, so the result is the one stable
    arrangement by [lastAccessed]; insertion sort computes it. *)
Fixpoint sort_insert (x : string * CacheEntry T)
    (l : list (string * CacheEntry T)) : list (string * CacheEntry T) :=
  match l with
  | [] => [x]
  | y :: l' =>
      if lastAccessed (snd x) <=? lastAccessed (snd y)
      then x :: y :: l'
      else y :: sort_insert x l'
  end.

Definition sort_by_lastAccessed (l : list (string * CacheEntry T))
  : list (string * CacheEntry T) :=
  fold_right sort_insert [] l.

Definition delete_all (ks : list string) (m : JsMap.t (CacheEntry T))
  : JsMap.t (CacheEntry T) :=
  fold_left (fun acc k => JsMap.delete k acc) ks m.

Definition cleanup (this : AdvancedCache T) : M (AdvancedCache T) :=
  let* now := Date_now in
  let entriesToDelete :=
    map fst (List.filter (fun kv => expired now (snd kv)) (cache this)) in
  let live := delete_all entriesToDelete (cache this) in
  if enableLRU (config this) && (JsMap.size live >? maxSize (config this))
  then
    let entries := sort_by_lastAccessed live in
    let toRemove :=
      firstn (Z.to_nat (JsMap.size live - maxSize (config this))) entries in
    ret (with_cache this (delete_all (map fst toRemove) live))
  else ret (with_cache this live).

(** [ttl || this.config.defaultTTL]: an omitted or zero [ttl] takes
    the default. *)
Definition ttl_or_default (ttl : option Z) (cfg : CacheConfig) : Z :=
  match ttl with
  | Some t => if t =? 0 then defaultTTL cfg else t
  | None => defaultTTL cfg
  end.

Definition set (this : AdvancedCache T) (key : string) (d : T)
    (ttl : option Z) (tags : list string) : M (AdvancedCache T) :=
  let* created := Date_now in
  let* accessed := Date_now in
  let entry :=
    {| data := d; timestamp := created;
       ttl := ttl_or_default ttl (config this);
       accessCount := 0; lastAccessed := accessed; tags := tags |} in
  let this' := with_cache this (JsMap.set key entry (cache this)) in
  if JsMap.size (cache this') >? maxSize (config this')
  then cleanup this'
  else ret this'.

(** [get] returns [null] for a miss; [None] here. *)
Definition get (this : AdvancedCache T) (key : string)
  : M (option T * AdvancedCache T) :=
  match JsMap.get key (cache this) with
  | None =>
      ret (None,
           {| cache := cache this; config := config this;
              hitCount := hitCount this; missCount := S (missCount this) |})
  | Some entry =>
      let* now := Date_now in
      if expired now entry
      then
        ret (None,
             {| cache := JsMap.delete key (cache this);
                config := config this;
                hitCount := hitCount this;
                missCount := S (missCount this) |})
      else
        let entry' :=
          {| data := data entry; timestamp := timestamp entry;
             ttl := ttl entry; accessCount := S (accessCount entry);
             lastAccessed := now; tags := tags entry |} in
        ret (Some (data entry),
             {| cache := JsMap.set key entry' (cache this);
                config := config this;
                hitCount := S (hitCount this);
                missCount := missCount this |})
  end.

Definition invalidate (this : AdvancedCache T) (key : string)
  : bool * AdvancedCache T :=
  (JsMap.has key (cache this),
   with_cache this (JsMap.delete key (cache this))).

Definition clear (this : AdvancedCache T) : AdvancedCache T :=
  {| cache := []; config := config this; hitCount := 0; missCount := 0 |}.

End Ops.

(** [getStats()]: [hitRate] is the double
    [(this.hitCount / total) * 100], a rational here. *)
Record Stats := {
  stats_size : Z;
  hitRate : Q;
  stats_hitCount : nat;
  stats_missCount : nat;
  stats_maxSize : Z
}.

Definition count_Q (n : nat) : Q := inject_Z (Z.of_nat n).

Definition getStats {T} (this : AdvancedCache T) : Stats :=
  let total :=
    Double.add (Double.of_nat (hitCount this))
               (Double.of_nat (missCount this)) in
  {| stats_size := JsMap.size (cache this);
     hitRate :=
       if Double.gt total (inject_Z 0)
       then Double.mul (Double.div (Double.of_nat (hitCount this)) total)
                       (inject_Z 100)
       else inject_Z 0;
     stats_hitCount := hitCount this;
     stats_missCount := missCount this;
     stats_maxSize := maxSize (config this) |}.

(** A run of [set] calls, keeping the cache as it is after each call. *)
Record SetCall (T : Type) := {
  set_key : string;
  set_data : T;
  set_ttl : option Z;
  set_tags : list string
}.
Arguments set_key {T}.
Arguments set_data {T}.
Arguments set_ttl {T}.
Arguments set_tags {T}.

Fixpoint run_sets {T} (calls : list (SetCall T)) (this : AdvancedCache T)
  : M (list (AdvancedCache T)) :=
  match calls with
  | [] => ret []
  | c :: calls' =>
      let* this' := set this (set_key c) (set_data c) (set_ttl c) (set_tags c) in
      let* rest := run_sets calls' this' in
      ret (this' :: rest)
  end.

(** [set(a); set(b); get(a); set(c)] on a new cache. *)
Definition lru_scenario {T} (cfg : CacheConfig) (va vb vc : T)
  : M (AdvancedCache T) :=
  let* c1 := set (new cfg) "a" va None [] in
  let* c2 := set c1 "b" vb None [] in
  let* hit := get c2 "a" in
  set (snd hit) "c" vc None [].

(** Two inputs for the size bound: a cache for one entry with and
    without LRU eviction, and two insertions under different keys. *)
Definition one_entry_config (lru : bool) : CacheConfig :=
  {| maxSize := 1; defaultTTL := 5 * 60 * 1000;
     cleanupInterval := 60 * 1000; enableLRU := lru |}.

Definition two_sets : list (SetCall nat) :=
  [ {| set_key := "a"; set_data := 1%nat; set_ttl := None; set_tags := [] |};
    {| set_key := "b"; set_data := 2%nat; set_ttl := None; set_tags := [] |} ].

(** [set("k", 7, 100)] at time 0 on a new cache with the default
    configuration. *)
Definition ttl_example : AdvancedCache nat :=
  fst (set (new DEFAULT_CACHE_CONFIG) "k" 7%nat (Some 100) [] (frozen 0)).

(** A cache for two entries. *)
Definition two_entry_config (ttl : Z) : CacheConfig :=
  {| maxSize := 2; defaultTTL := ttl;
     cleanupInterval := 60 * 1000; enableLRU := true |}.

(** What the store holds: the keys with their values, in map order. *)
Definition contents {T} (this : AdvancedCache T) : list (string * T) :=
  map (fun kv => (fst kv, data (snd kv))) (cache this).

(** [entry.tags.includes(tag)] *)
Definition has_tag {T} (tag : string) (e : CacheEntry T) : bool :=
  existsb (String.eqb tag) (tags e).

(** [invalidateByTag(tag)]: the loop visits the entries of the map in
    order, deletes the tagged ones by key and counts them. *)
Definition invalidateByTag {T} (this : AdvancedCache T) (tag : string)
  : nat * AdvancedCache T :=
  let visit (acc : JsMap.t (CacheEntry T) * nat) (kv : string * CacheEntry T) :=
    if has_tag tag (snd kv)
    then (JsMap.delete (fst kv) (fst acc), S (snd acc))
    else acc in
  let '(m, count) := fold_left visit (cache this) (cache this, 0%nat) in
  (count, with_cache this m).

(** A run of [get] calls: the results in order and the cache at the end. *)
Fixpoint run_gets {T} (keys : list string) (this : AdvancedCache T)
  : M (list (option T) * AdvancedCache T) :=
  match keys with
  | [] => ret ([], this)
  | k :: keys' =>
      let* r := get this k in
      let* rest := run_gets keys' (snd r) in
      ret (fst r :: fst rest, snd rest)
  end.

(** [x] was last accessed no later than [y]: the order of the sort in
    [cleanup]. *)
Definition older_or_same {T} (x y : string * CacheEntry T) : Prop :=
  lastAccessed (snd x) <= lastAccessed (snd y).

(** Entries tagged for the examples below. *)
Definition tagged_entry (v : nat) (ts : list string) : CacheEntry nat :=
  {| data := v; timestamp := 0; ttl := 1000; accessCount := 0;
     lastAccessed := 0; tags := ts |}.

Definition tagged_cache : AdvancedCache nat :=
  {| cache := [("a", tagged_entry 1 ["x"]); ("b", tagged_entry 2 ["x"; "y"]);
               ("c", tagged_entry 3 ["y"])];
     config := DEFAULT_CACHE_CONFIG; hitCount := 0; missCount := 0 |}.

(** Entries of different ages for the examples of the sweep: at time
    500 [a] and [d] are expired, and of the others [c] was accessed
    first, then [b], then [e]. *)
Definition aged_entry (v : nat) (created life accessed : Z) : CacheEntry nat :=
  {| data := v; timestamp := created; ttl := life; accessCount := 0;
     lastAccessed := accessed; tags := [] |}.

Definition aged_cache (capacity : Z) : AdvancedCache nat :=
  {| cache := [("a", aged_entry 1 0 100 30); ("b", aged_entry 2 0 1000 20);
               ("c", aged_entry 3 0 1000 10); ("d", aged_entry 4 400 50 400);
               ("e", aged_entry 5 0 1000 40)];
     config := {| maxSize := capacity; defaultTTL := 5 * 60 * 1000;
                  cleanupInterval := 60 * 1000; enableLRU := true |};
     hitCount := 0; missCount := 0 |}.

(** A cache that has counted [hits] hits and [misses] misses. *)
Definition counted (hits misses : nat) : AdvancedCache nat :=
  {| cache := []; config := DEFAULT_CACHE_CONFIG;
     hitCount := hits; missCount := misses |}.

End Cache.

(** ** useNetworkRecovery: retry with exponential backoff *)

Module Retry.

(** What an execution of [retryWithBackoff] does that the outside can
    see: it calls the operation and it waits on a timer. *)
Inductive Event :=
| Invoked
| Slept (ms : Z).

#[global] Instance Event_eq_dec : EqDecision Event.
Proof. solve_decision. Defined.

Section Executor.
Context {Err T W : Type}.

Record RetryConfig := {
  maxRetries : Z;
  initialDelay : Z;
  maxDelay : Z;
  backoffMultiplier : Z;
  retryCondition : option (Err -> bool)
}.

(** The default [retryCondition] matches the error text against a
    list of patterns; the classification is taken as given here. *)
Definition DEFAULT_RETRY_CONFIG (classify : Err -> bool) : RetryConfig :=
  {| maxRetries := 3;
     initialDelay := 1000;
     maxDelay := 30000;
     backoffMultiplier := 2;
     retryCondition := Some classify |}.

(** An asynchronous operation: it acts on the outside world [W] and
    its promise is rejected ([inl]) or fulfilled ([inr]). *)
Definition Operation := W -> (Err + T) * W.

Record Hook := {
  retryAttemptsRef : gmap string nat;
  world : W;
  trace : list Event
}.

(** [Math.min(initialDelay * Math.pow(backoffMultiplier, attempts),
    maxDelay)] *)
Definition backoffDelay (config : RetryConfig) (attempts : nat) : Z :=
  Z.min (initialDelay config * backoffMultiplier config ^ Z.of_nat attempts)
        (maxDelay config).

(** [config.retryCondition?.(error)] *)
Definition retryable (config : RetryConfig) (error : Err) : bool :=
  match retryCondition config with
  | Some f => f error
  | None => false
  end.

(** [retryWithBackoff(operation, operationId)].  The function calls
    itself after the delay; [fuel] bounds the number of calls and
    [None] means the bound was reached. *)
Fixpoint retryWithBackoff (fuel : nat) (config : RetryConfig)
    (isOnline : bool) (operation : Operation) (operationId : string)
    (h : Hook) : option ((Err + T) * Hook) :=
  match fuel with
  | O => None
  | S fuel' =>
      let attempts := default 0%nat (retryAttemptsRef h !! operationId) in
      let '(outcome, w') := operation (world h) in
      let tr := trace h ++ [Invoked] in
      match outcome with
      | inr result =>
          Some (inr result,
                {| retryAttemptsRef := delete operationId (retryAttemptsRef h);
                   world := w'; trace := tr |})
      | inl error =>
          if (Z.of_nat attempts <? maxRetries config)
             && retryable config error && isOnline
          then
            let delay := backoffDelay config attempts in
            retryWithBackoff fuel' config isOnline operation operationId
              {| retryAttemptsRef :=
                   <[operationId := S attempts]> (retryAttemptsRef h);
                 world := w';
                 trace := tr ++ [Slept delay] |}
          else
            Some (inl error,
                  {| retryAttemptsRef := delete operationId (retryAttemptsRef h);
                     world := w'; trace := tr |})
      end
  end.

Definition count_invoked (tr : list Event) : nat :=
  length (List.filter (fun e => bool_decide (e = Invoked)) tr).

Definition slept (tr : list Event) : list Z :=
  omap (fun e => match e with Slept d => Some d | Invoked => None end) tr.

(** How often the operation was called, and the delays waited. *)
Definition invocations (h : Hook) : nat := count_invoked (trace h).
Definition delays (h : Hook) : list Z := slept (trace h).

(** A failed call that is retried: the call, then the wait. *)
Definition retry_round (config : RetryConfig) (attempts : nat)
  : list Event :=
  [Invoked; Slept (backoffDelay config attempts)].

(** [k] retried calls from attempt counter [start] on, then one last
    call. *)
Definition exhausted_trace (config : RetryConfig) (start k : nat)
  : list Event :=
  flat_map (retry_round config) (seq start k) ++ [Invoked].

(** The world after [n] calls of the operation. *)
Fixpoint world_after (operation : Operation) (n : nat) (w : W) : W :=
  match n with
  | O => w
  | S n' => world_after operation n' (snd (operation w))
  end.

(** Every call of the operation is rejected with an error that
    [classify] accepts. *)
Definition always_fails (classify : Err -> bool) (operation : Operation)
  : Prop :=
  forall w, exists e, fst (operation w) = inl e /\ classify e = true.

End Executor.
Arguments RetryConfig : clear implicits.
Arguments Hook : clear implicits.
Arguments Operation : clear implicits.

(** A hook that has tracked nothing yet, in world [w]. *)
Definition fresh {W} (w : W) : Hook W :=
  {| retryAttemptsRef := ∅; world := w; trace := [] |}.

(** An operation that counts its calls and is rejected every time. *)
Definition failing_op : Operation string unit nat :=
  fun calls => (inl "network timeout", S calls).

Definition retry_everything : string -> bool := fun _ => true.

(** An operation that is rejected on its first two calls and then
    fulfilled with the number of calls made before. *)
Definition flaky_op : Operation string nat nat :=
  fun calls =>
    (if (calls <? 2)%nat then inl "network timeout" else inr calls, S calls).


End Retry.

(** ** useRateLimit *)

Module RateLimit.

Record Limiter := {
  maxRequests : Z;
  windowMs : Z;
  requestsRef : list Z
}.

(** [useRateLimit(maxRequests = 100, windowMs = 60000)] *)
Definition useRateLimit (maxRequests windowMs : option Z) : Limiter :=
  {| maxRequests := default 100 maxRequests;
     windowMs := default 60000 windowMs;
     requestsRef := [] |}.

Definition in_window (windowStart : Z) (time : Z) : bool := time >? windowStart.

Definition isRateLimited (l : Limiter) : M (bool * Limiter) :=
  let* now := Date_now in
  let windowStart := now - windowMs l in
  let kept := List.filter (in_window windowStart) (requestsRef l) in
  ret (Z.of_nat (length kept) >=? maxRequests l,
       {| maxRequests := maxRequests l; windowMs := windowMs l;
          requestsRef := kept |}).

Definition trackRequest (l : Limiter) : M Limiter :=
  let* now := Date_now in
  ret {| maxRequests := maxRequests l; windowMs := windowMs l;
         requestsRef := requestsRef l ++ [now] |}.

Definition getRemainingRequests (l : Limiter) : M Z :=
  let* now := Date_now in
  let windowStart := now - windowMs l in
  let validRequests := List.filter (in_window windowStart) (requestsRef l) in
  ret (Z.max 0 (maxRequests l - Z.of_nat (length validRequests))).

(** [Math.min(...xs)] for a non-empty argument list [x :: xs]. *)
Definition Math_min (x : Z) (xs : list Z) : Z := fold_left Z.min xs x.

(** [Math.min(...xs)] is the least argument. *)
Definition least (x : Z) (xs : list Z) : Prop :=
  In x xs /\ forall y, In y xs -> x <= y.

(** [getResetTime] does not read the clock. *)
Definition getResetTime (l : Limiter) : Z :=
  match requestsRef l with
  | [] => 0
  | t :: ts =>
      let oldestRequest := Math_min t ts in
      oldestRequest + windowMs l
  end.

(** [trackRequest()] called [n] times in a row. *)
Fixpoint trackRequests (n : nat) (l : Limiter) : M Limiter :=
  match n with
  | O => ret l
  | S n' => let* l' := trackRequest l in trackRequests n' l'
  end.

End RateLimit.

(** ** useHyperliquidWebSocket *)

Module WS.

Inductive SubscriptionType :=
| allMids | orderbook | trades | userEvents | userFills | userFundings.

Record Subscription := {
  type : SubscriptionType;
  coin : option string;
  user : option string
}.

(** [WSSubscription] is [{ method: 'subscribe', subscription }]; its
    [method] field is a constant. *)
Record WSSubscription := { subscription : Subscription }.

(** What [sendMessage] is given to serialise. *)
Inductive Frame :=
| SubscribeFrame (s : WSSubscription)
| UnsubscribeFrame (s : Subscription)
| PingFrame.

#[global] Instance SubscriptionType_eq_dec : EqDecision SubscriptionType.
Proof. solve_decision. Defined.
#[global] Instance Subscription_eq_dec : EqDecision Subscription.
Proof. solve_decision. Defined.
#[global] Instance WSSubscription_eq_dec : EqDecision WSSubscription.
Proof. solve_decision. Defined.
#[global] Instance Frame_eq_dec : EqDecision Frame.
Proof. solve_decision. Defined.

Inductive ReadyState := CONNECTING | OPEN | CLOSING | CLOSED.

(** The socket primitive: its state and the frames handed to [send]. *)
Record Socket := {
  readyState : ReadyState;
  outbox : list Frame
}.

Record WSMessage := {
  channel : option string;
  payload : option string;
  received : Z
}.

(** The texts the hook stores in [state.error] and passes to [onError]. *)
Inductive ErrorText :=
| ParseFailed                        (* 'Failed to parse message' *)
| Reconnecting (attempt : nat) (limit : Z)
    (* `Connection lost. Reconnecting... (${attempt}/${limit})` *)
| ReconnectExhausted                 (* 'Failed to reconnect after maximum attempts' *)
| ConnectionError                    (* 'WebSocket connection error' *)
| CreateFailed.                      (* 'Failed to create connection' *)

Record WebSocketState := {
  isConnected : bool;
  isConnecting : bool;
  lastMessage : option WSMessage;
  error : option ErrorText;
  reconnectCount : nat;
  latency : Z
}.

Record WebSocketConfig := {
  url : string;
  reconnectAttempts : Z;
  reconnectInterval : Z;
  heartbeatInterval : Z;
  subscriptions : list WSSubscription
}.

Definition DEFAULT_CONFIG : WebSocketConfig :=
  {| url := "wss://api.hyperliquid.xyz/ws";
     reconnectAttempts := 5;
     reconnectInterval := 3000;
     heartbeatInterval := 30000;
     subscriptions := [] |}.

(** The callbacks the hook hands to [setTimeout] and [setInterval]. *)
Inductive Callback :=
| cb_subscribe (s : WSSubscription)
| cb_sendPing
| cb_connect.

#[global] Instance Callback_eq_dec : EqDecision Callback.
Proof. solve_decision. Defined.

Record Timer := {
  timer_id : nat;
  repeating : bool;
  delay : Z;
  callback : Callback
}.

(** The hook instance: React state, the refs, the timers it has
    registered and the calls it made to [onError] and [onMessage]. *)
Record Hook := {
  state : WebSocketState;
  wsRef : option Socket;
  reconnectTimeoutRef : option nat;
  heartbeatTimeoutRef : option nat;
  pingTimeRef : Z;
  timers : list Timer;
  nextTimer : nat;
  onErrorCalls : list ErrorText;
  onMessageCalls : list WSMessage
}.

Definition initial : Hook :=
  {| state := {| isConnected := false; isConnecting := false;
                 lastMessage := None; error := None;
                 reconnectCount := 0; latency := 0 |};
     wsRef := None;
     reconnectTimeoutRef := None;
     heartbeatTimeoutRef := None;
     pingTimeRef := 0;
     timers := [];
     nextTimer := 1;
     onErrorCalls := [];
     onMessageCalls := [] |}.

(** *** Field updates: [{ ...prev, field: value }] and [ref.current = value] *)

Definition with_isConnected (b : bool) (s : WebSocketState) : WebSocketState :=
  {| isConnected := b; isConnecting := isConnecting s;
     lastMessage := lastMessage s; error := error s;
     reconnectCount := reconnectCount s; latency := latency s |}.

Definition with_isConnecting (b : bool) (s : WebSocketState) : WebSocketState :=
  {| isConnected := isConnected s; isConnecting := b;
     lastMessage := lastMessage s; error := error s;
     reconnectCount := reconnectCount s; latency := latency s |}.

Definition with_lastMessage (m : option WSMessage) (s : WebSocketState)
  : WebSocketState :=
  {| isConnected := isConnected s; isConnecting := isConnecting s;
     lastMessage := m; error := error s;
     reconnectCount := reconnectCount s; latency := latency s |}.

Definition with_error (e : option ErrorText) (s : WebSocketState)
  : WebSocketState :=
  {| isConnected := isConnected s; isConnecting := isConnecting s;
     lastMessage := lastMessage s; error := e;
     reconnectCount := reconnectCount s; latency := latency s |}.

Definition with_reconnectCount (n : nat) (s : WebSocketState) : WebSocketState :=
  {| isConnected := isConnected s; isConnecting := isConnecting s;
     lastMessage := lastMessage s; error := error s;
     reconnectCount := n; latency := latency s |}.

Definition with_latency (l : Z) (s : WebSocketState) : WebSocketState :=
  {| isConnected := isConnected s; isConnecting := isConnecting s;
     lastMessage := lastMessage s; error := error s;
     reconnectCount := reconnectCount s; latency := l |}.

(** [setState(prev => f(prev))] *)
Definition setState (f : WebSocketState -> WebSocketState) (h : Hook) : Hook :=
  {| state := f (state h); wsRef := wsRef h;
     reconnectTimeoutRef := reconnectTimeoutRef h;
     heartbeatTimeoutRef := heartbeatTimeoutRef h;
     pingTimeRef := pingTimeRef h; timers := timers h;
     nextTimer := nextTimer h; onErrorCalls := onErrorCalls h;
     onMessageCalls := onMessageCalls h |}.

Definition set_wsRef (s : option Socket) (h : Hook) : Hook :=
  {| state := state h; wsRef := s;
     reconnectTimeoutRef := reconnectTimeoutRef h;
     heartbeatTimeoutRef := heartbeatTimeoutRef h;
     pingTimeRef := pingTimeRef h; timers := timers h;
     nextTimer := nextTimer h; onErrorCalls := onErrorCalls h;
     onMessageCalls := onMessageCalls h |}.

Definition set_reconnectTimeoutRef (r : option nat) (h : Hook) : Hook :=
  {| state := state h; wsRef := wsRef h;
     reconnectTimeoutRef := r;
     heartbeatTimeoutRef := heartbeatTimeoutRef h;
     pingTimeRef := pingTimeRef h; timers := timers h;
     nextTimer := nextTimer h; onErrorCalls := onErrorCalls h;
     onMessageCalls := onMessageCalls h |}.

Definition set_heartbeatTimeoutRef (r : option nat) (h : Hook) : Hook :=
  {| state := state h; wsRef := wsRef h;
     reconnectTimeoutRef := reconnectTimeoutRef h;
     heartbeatTimeoutRef := r;
     pingTimeRef := pingTimeRef h; timers := timers h;
     nextTimer := nextTimer h; onErrorCalls := onErrorCalls h;
     onMessageCalls := onMessageCalls h |}.

Definition set_pingTimeRef (t : Z) (h : Hook) : Hook :=
  {| state := state h; wsRef := wsRef h;
     reconnectTimeoutRef := reconnectTimeoutRef h;
     heartbeatTimeoutRef := heartbeatTimeoutRef h;
     pingTimeRef := t; timers := timers h;
     nextTimer := nextTimer h; onErrorCalls := onErrorCalls h;
     onMessageCalls := onMessageCalls h |}.

Definition set_timers (ts : list Timer) (h : Hook) : Hook :=
  {| state := state h; wsRef := wsRef h;
     reconnectTimeoutRef := reconnectTimeoutRef h;
     heartbeatTimeoutRef := heartbeatTimeoutRef h;
     pingTimeRef := pingTimeRef h; timers := ts;
     nextTimer := nextTimer h; onErrorCalls := onErrorCalls h;
     onMessageCalls := onMessageCalls h |}.

(** [onError?.(text)] and [onMessage?.(message)]: the call is recorded. *)
Definition onError (e : ErrorText) (h : Hook) : Hook :=
  {| state := state h; wsRef := wsRef h;
     reconnectTimeoutRef := reconnectTimeoutRef h;
     heartbeatTimeoutRef := heartbeatTimeoutRef h;
     pingTimeRef := pingTimeRef h; timers := timers h;
     nextTimer := nextTimer h; onErrorCalls := onErrorCalls h ++ [e];
     onMessageCalls := onMessageCalls h |}.

Definition onMessage (m : WSMessage) (h : Hook) : Hook :=
  {| state := state h; wsRef := wsRef h;
     reconnectTimeoutRef := reconnectTimeoutRef h;
     heartbeatTimeoutRef := heartbeatTimeoutRef h;
     pingTimeRef := pingTimeRef h; timers := timers h;
     nextTimer := nextTimer h; onErrorCalls := onErrorCalls h;
     onMessageCalls := onMessageCalls h ++ [m] |}.

(** [setTimeout] / [setInterval]: register the callback, return its id. *)
Definition set_timer (rep : bool) (cb : Callback) (ms : Z) (h : Hook)
  : nat * Hook :=
  (nextTimer h,
   {| state := state h; wsRef := wsRef h;
      reconnectTimeoutRef := reconnectTimeoutRef h;
      heartbeatTimeoutRef := heartbeatTimeoutRef h;
      pingTimeRef := pingTimeRef h;
      timers := timers h ++
                [{| timer_id := nextTimer h; repeating := rep;
                    delay := ms; callback := cb |}];
      nextTimer := S (nextTimer h);
      onErrorCalls := onErrorCalls h;
      onMessageCalls := onMessageCalls h |}).

Definition setTimeout := set_timer false.
Definition setInterval := set_timer true.

(** [clearTimeout] / [clearInterval] *)
Definition clear_timer (id : nat) (h : Hook) : Hook :=
  set_timers
    (List.filter (fun t => negb (Nat.eqb (timer_id t) id)) (timers h)) h.

(** *** The handlers *)

(** [wsRef.current?.readyState === WebSocket.OPEN] *)
Definition is_open (h : Hook) : bool :=
  match wsRef h with
  | Some {| readyState := OPEN |} => true
  | _ => false
  end.

(** [sendMessage]: [send] is only called on an open socket, where it
    does not throw. *)
Definition sendMessage (message : Frame) (h : Hook) : bool * Hook :=
  match wsRef h with
  | Some {| readyState := OPEN; outbox := sent |} =>
      (true,
       set_wsRef (Some {| readyState := OPEN; outbox := sent ++ [message] |}) h)
  | _ => (false, h)
  end.

Definition subscribe (s : WSSubscription) (h : Hook) : bool * Hook :=
  sendMessage (SubscribeFrame s) h.

Definition unsubscribe (s : Subscription) (h : Hook) : bool * Hook :=
  sendMessage (UnsubscribeFrame s) h.

Definition sendPing (h : Hook) : M Hook :=
  if is_open h then
    let* now := Date_now in
    ret (snd (sendMessage PingFrame (set_pingTimeRef now h)))
  else ret h.

(** What [JSON.parse(event.data)] gives: the three fields the handler
    reads.  [None] for the event is a text that does not parse, or
    parses to a value whose properties cannot be read. *)
Record Parsed := {
  p_method : option string;
  p_channel : option string;
  p_data : option string
}.

Definition handleMessage (event : option Parsed) (h : Hook) : M Hook :=
  match event with
  | Some d =>
      if bool_decide (p_method d = Some "pong") then
        let* now := Date_now in
        let latency := now - pingTimeRef h in
        ret (setState (with_latency latency) h)
      else
        let* now := Date_now in
        let message :=
          {| channel := p_channel d; payload := p_data d; received := now |} in
        let h1 :=
          setState (fun prev => with_error None
                                  (with_lastMessage (Some message) prev)) h in
        ret (onMessage message h1)
  | None => ret (setState (with_error (Some ParseFailed)) h)
  end.

(** [wsConfig.subscriptions.forEach(s => setTimeout(() => subscribe(s), 100))] *)
Definition schedule_subscriptions (subs : list WSSubscription) (h : Hook)
  : Hook :=
  fold_left (fun acc s => snd (setTimeout (cb_subscribe s) 100 acc)) subs h.

Definition handleOpen (config : WebSocketConfig) (h : Hook) : Hook :=
  let h1 :=
    setState (fun prev =>
                with_reconnectCount 0
                  (with_error None
                     (with_isConnecting false (with_isConnected true prev)))) h in
  let h2 := schedule_subscriptions (subscriptions config) h1 in
  let h3 :=
    match heartbeatTimeoutRef h2 with
    | Some id => clear_timer id h2
    | None => h2
    end in
  let '(id, h4) := setInterval cb_sendPing (heartbeatInterval config) h3 in
  set_heartbeatTimeoutRef (Some id) h4.

(** [wsConfig.reconnectInterval * Math.pow(2, state.reconnectCount)] *)
Definition reconnectDelay (config : WebSocketConfig) (count : nat) : Z :=
  reconnectInterval config * 2 ^ Z.of_nat count.

(** [handleClose(event)].  [seen] is [state.reconnectCount] as the
    handler's closure holds it; the updates [setState(prev => ...)] act
    on the hook's current state. *)
Definition handleClose (config : WebSocketConfig) (seen : nat) (code : Z)
    (h : Hook) : Hook :=
  let h1 :=
    setState (fun prev => with_isConnecting false (with_isConnected false prev))
             h in
  let h2 :=
    match heartbeatTimeoutRef h1 with
    | Some id => set_heartbeatTimeoutRef None (clear_timer id h1)
    | None => h1
    end in
  if negb (code =? 1000) && (Z.of_nat seen <? reconnectAttempts config) then
    let delay := reconnectDelay config seen in
    let h3 :=
      setState (fun prev =>
                  with_error
                    (Some (Reconnecting (S (reconnectCount prev))
                                        (reconnectAttempts config)))
                    (with_reconnectCount (S (reconnectCount prev)) prev)) h2 in
    let '(id, h4) := setTimeout cb_connect delay h3 in
    set_reconnectTimeoutRef (Some id) h4
  else if Z.of_nat seen >=? reconnectAttempts config then
    onError ReconnectExhausted
      (setState (with_error (Some ReconnectExhausted)) h2)
  else h2.

Definition handleError (h : Hook) : Hook :=
  onError ConnectionError
    (setState (fun prev => with_isConnecting false
                             (with_error (Some ConnectionError) prev)) h).

(** [connect()]: nothing if the socket is open; otherwise a new socket,
    which starts in [CONNECTING] with nothing sent.  The constructor is
    taken to succeed. *)
Definition connect (h : Hook) : Hook :=
  if is_open h then h
  else
    let h1 :=
      setState (fun prev => with_error None (with_isConnecting true prev)) h in
    set_wsRef (Some {| readyState := CONNECTING; outbox := [] |}) h1.

Definition disconnect (h : Hook) : Hook :=
  let h1 :=
    match reconnectTimeoutRef h with
    | Some id => set_reconnectTimeoutRef None (clear_timer id h)
    | None => h
    end in
  let h2 :=
    match heartbeatTimeoutRef h1 with
    | Some id => set_heartbeatTimeoutRef None (clear_timer id h1)
    | None => h1
    end in
  let h3 := set_wsRef None h2 in
  setState (fun prev =>
              with_error None
                (with_reconnectCount 0
                   (with_isConnecting false (with_isConnected false prev)))) h3.

(** *** The socket and the timers, as the hook's environment drives them *)

(** The handshake completes: the socket becomes [OPEN] and calls
    [onopen]. *)
Definition socket_opened (config : WebSocketConfig) (h : Hook) : Hook :=
  match wsRef h with
  | Some sock =>
      handleOpen config
        (set_wsRef (Some {| readyState := OPEN; outbox := outbox sock |}) h)
  | None => h
  end.

(** The socket closes with [code] and calls [onclose]; [seen] is the
    reconnect count the handler's closure holds.  After [disconnect]
    the ref is already [null] and only the handler runs. *)
Definition socket_closed (config : WebSocketConfig) (seen : nat) (code : Z)
    (h : Hook) : Hook :=
  match wsRef h with
  | Some sock =>
      handleClose config seen code
        (set_wsRef (Some {| readyState := CLOSED; outbox := outbox sock |}) h)
  | None => handleClose config seen code h
  end.

(** A timer fires: its callback runs. *)
Definition fire (cb : Callback) (h : Hook) : M Hook :=
  match cb with
  | cb_subscribe s => ret (snd (subscribe s h))
  | cb_sendPing => sendPing h
  | cb_connect => ret (connect h)
  end.

Fixpoint fire_all (cbs : list Callback) (h : Hook) : M Hook :=
  match cbs with
  | [] => ret h
  | cb :: cbs' => let* h' := fire cb h in fire_all cbs' h'
  end.

(** All pending [setTimeout] callbacks run, in the order in which they
    were registered; the interval timers stay. *)
Definition run_timeouts (h : Hook) : M Hook :=
  let due := List.filter (fun t => negb (repeating t)) (timers h) in
  fire_all (map callback due)
           (set_timers (List.filter repeating (timers h)) h).

(** The heartbeat interval elapses [n] times and nothing else happens:
    no frame arrives and the socket reports no close. *)
Fixpoint heartbeats (n : nat) (h : Hook) : M Hook :=
  match n with
  | O => ret h
  | S n' => let* h' := sendPing h in heartbeats n' h'
  end.

(** The subscribe frames in a socket's outbox that carry [s]. *)
Definition subscribe_frames_for (s : WSSubscription) (h : Hook) : nat :=
  match wsRef h with
  | Some sock =>
      length (List.filter (fun f => bool_decide (f = SubscribeFrame s))
                          (outbox sock))
  | None => 0
  end.

Definition sent_frames (h : Hook) : list Frame :=
  match wsRef h with
  | Some sock => outbox sock
  | None => []
  end.

(** The hook is waiting to reconnect: a [connect] callback is pending. *)
Definition reconnect_pending (h : Hook) : bool :=
  existsb (fun t => bool_decide (callback t = cb_connect)) (timers h).

(** The timers [schedule_subscriptions] registers from id [n] on. *)
Fixpoint subscription_timers (n : nat) (subs : list WSSubscription)
  : list Timer :=
  match subs with
  | [] => []
  | s :: subs' =>
      {| timer_id := n; repeating := false; delay := 100;
         callback := cb_subscribe s |} :: subscription_timers (S n) subs'
  end.

(** No [setTimeout] callback is pending and the heartbeat ref, if set,
    holds an id that was handed out. *)
Definition settled (h : Hook) : Prop :=
  List.filter (fun t => negb (repeating t)) (timers h) = [] /\
  forall id, heartbeatTimeoutRef h = Some id -> (id < nextTimer h)%nat.

(** [{ method: 'subscribe', subscription: { type: 'trades', coin: 'BTC' } }] *)
Definition trades_BTC : WSSubscription :=
  {| subscription := {| type := trades; coin := Some "BTC"; user := None |} |}.

Definition all_mids : WSSubscription :=
  {| subscription := {| type := allMids; coin := None; user := None |} |}.

(** [subscribe] twice before the hook connects, then the connection is
    made and the timers of [handleOpen] run. *)
Definition subscribe_twice_then_connect (config : WebSocketConfig)
    (s : WSSubscription) : M Hook :=
  let h1 := snd (subscribe s initial) in
  let h2 := snd (subscribe s h1) in
  run_timeouts (socket_opened config (connect h2)).

(** The hook right after its first successful connect. *)
Definition connected (config : WebSocketConfig) : Hook :=
  socket_opened config (connect initial).

(** A clock read once per heartbeat interval of the default
    configuration. *)
Definition every_30s : Clock := fun n => 30000 * Z.of_nat n.

(** The reconnect parameters read as a retry policy with cap [cap]. *)
Definition as_retry_config (config : WebSocketConfig) (cap : Z)
  : Retry.RetryConfig unit :=
  {| Retry.maxRetries := reconnectAttempts config;
     Retry.initialDelay := reconnectInterval config;
     Retry.maxDelay := cap;
     Retry.backoffMultiplier := 2;
     Retry.retryCondition := None |}.

(** [reconnect()]: [disconnect()], then [connect] after one second. *)
Definition reconnect (h : Hook) : Hook :=
  snd (setTimeout cb_connect 1000 (disconnect h)).

(** The heartbeat ref names the only interval timer, if there is one. *)
Definition one_heartbeat (h : Hook) : Prop :=
  match heartbeatTimeoutRef h with
  | Some id => forall t, In t (timers h) -> repeating t = true -> timer_id t = id
  | None => forall t, In t (timers h) -> repeating t = false
  end.

(** Every pending [connect] callback is the one the reconnect ref names. *)
Definition reconnect_tracked (h : Hook) : Prop :=
  forall t, In t (timers h) -> callback t = cb_connect ->
            reconnectTimeoutRef h = Some (timer_id t).

(** The default configuration with two subscriptions to send on open. *)
Definition two_subscriptions : WebSocketConfig :=
  {| url := "wss://api.hyperliquid.xyz/ws";
     reconnectAttempts := 5;
     reconnectInterval := 3000;
     heartbeatInterval := 30000;
     subscriptions := [all_mids; trades_BTC] |}.

(** *** Everything that can happen to the hook

    The socket calls one of the four handlers, a timer fires, or the
    caller uses one of the functions the hook returns.  For a close,
    [seen] is the reconnect count the handler's closure holds. *)
Inductive Event :=
| SocketOpened
| SocketClosed (seen : nat) (code : Z)
| SocketError
| FrameArrived (event : option Parsed)
| TimerFired (cb : Callback)
| CallConnect
| CallDisconnect
| CallReconnect
| CallSubscribe (s : WSSubscription)
| CallUnsubscribe (s : Subscription)
| CallSendMessage (message : Frame).

Definition step (config : WebSocketConfig) (ev : Event) (h : Hook) : M Hook :=
  match ev with
  | SocketOpened => ret (socket_opened config h)
  | SocketClosed seen code => ret (socket_closed config seen code h)
  | SocketError => ret (handleError h)
  | FrameArrived event => handleMessage event h
  | TimerFired cb => fire cb h
  | CallConnect => ret (connect h)
  | CallDisconnect => ret (disconnect h)
  | CallReconnect => ret (reconnect h)
  | CallSubscribe s => ret (snd (subscribe s h))
  | CallUnsubscribe s => ret (snd (unsubscribe s h))
  | CallSendMessage message => ret (snd (sendMessage message h))
  end.

(** The socket reported a close, or the caller asked to disconnect. *)
Definition close_or_disconnect (ev : Event) : Prop :=
  match ev with
  | SocketClosed _ _ | CallDisconnect | CallReconnect => True
  | _ => False
  end.

(** *** Renders and closures

    [handleClose] reads [state.reconnectCount] of the render that made
    it: [useCallback] makes a new handler when that count has changed,
    and makes [connect] anew with it, the handler being one of its
    dependencies.  A socket keeps the [onclose] handler that [connect]
    gave it, and the [connect] that this handler schedules is the one
    of the handler's own render, which gives the next socket the same
    handler.  The effect that connects on mount has no dependencies: it
    runs once, with the [connect] of the first render.

    [installed] is the count held by the [onclose] handler of the
    current socket. *)
Record Mounted := {
  hook : Hook;
  installed : nat
}.

(** [useEffect(() => { connect(); return disconnect; }, [])] *)
Definition mount : Mounted :=
  {| hook := connect initial;
     installed := reconnectCount (state initial) |}.

(** The socket closes and calls the handler it was given. *)
Definition closes (config : WebSocketConfig) (code : Z) (m : Mounted)
  : Mounted :=
  {| hook := socket_closed config (installed m) code (hook m);
     installed := installed m |}.

(** The pending timeouts fire.  A [connect] that [handleClose] has
    scheduled is the one of the handler's render, so the next socket
    gets the same handler.  (A [connect] scheduled by [reconnect()]
    would be the one of the caller's render; the runs below have no
    such call.) *)
Definition timeouts_fire (m : Mounted) : M Mounted :=
  let* h := run_timeouts (hook m) in
  ret {| hook := h; installed := installed m |}.

(** The caller calls the [connect] returned by the latest render. *)
Definition caller_connects (m : Mounted) : Mounted :=
  {| hook := connect (hook m);
     installed := if is_open (hook m) then installed m
                  else reconnectCount (state (hook m)) |}.

(** The hook is connecting for the first time or again: the socket has
    not opened, nothing is pending, and the handler of the socket is
    the one of the first render. *)
Definition connecting_again (m : Mounted) : Prop :=
  installed m = 0%nat
  /\ wsRef (hook m) = Some {| readyState := CONNECTING; outbox := [] |}
  /\ timers (hook m) = []
  /\ heartbeatTimeoutRef (hook m) = None.

(** The delay of the reconnection that is scheduled, if one is. *)
Definition pending_reconnect_delay (h : Hook) : option Z :=
  match List.filter (fun t => bool_decide (callback t = cb_connect))
                    (timers h) with
  | t :: _ => Some (delay t)
  | [] => None
  end.

(** [n] reconnection attempts that fail: each time the socket closes
    with [code] before it has opened, and the timer that the handler
    set fires.  The delays of these timers are collected. *)
Fixpoint failed_reconnects (config : WebSocketConfig) (code : Z) (n : nat)
    (m : Mounted) : M (list (option Z) * Mounted) :=
  match n with
  | O => ret ([], m)
  | S n' =>
      let closed := closes config code m in
      let* again := timeouts_fire closed in
      let* rest := failed_reconnects config code n' again in
      ret (pending_reconnect_delay (hook closed) :: fst rest, snd rest)
  end.

(** The delays that the formula of the retry executor gives for the
    attempts [0 .. n-1], with the cap [cap]. *)
Definition claimed_delays (config : WebSocketConfig) (cap : Z) (n : nat)
  : list (option Z) :=
  map (fun k => Some (Retry.backoffDelay (as_retry_config config cap) k))
      (seq 0 n).

End WS.

(** ** handleApiError (useNetworkRecovery.ts) *)

Module ApiError.

(** The two properties of the error that the handler reads:
    [error.response.status] when there is a response, and
    [error.message]. *)
Record Error := {
  response : option Z;
  message : option string
}.

(** [haystack.includes(needle)] *)
Fixpoint includes (needle haystack : string) : bool :=
  String.prefix needle haystack ||
  match haystack with
  | EmptyString => false
  | String _ rest => includes needle rest
  end.

Record Handled := {
  userMessage : string;
  shouldRetry : bool
}.

(** [handleApiError(error, operation)]: the result; the log line and the
    toast are left out. *)
Definition handleApiError (error : Error) : Handled :=
  match response error with
  | Some status =>
      if status =? 400 then
        {| userMessage := "Invalid request. Please check your input.";
           shouldRetry := false |}
      else if status =? 401 then
        {| userMessage := "Authentication required. Please log in again.";
           shouldRetry := false |}
      else if status =? 403 then
        {| userMessage :=
             "Access denied. You may not have permission for this action.";
           shouldRetry := false |}
      else if status =? 404 then
        {| userMessage := "The requested resource was not found.";
           shouldRetry := false |}
      else if status =? 429 then
        {| userMessage := "Too many requests. Please wait before trying again.";
           shouldRetry := true |}
      else if (status =? 500) || (status =? 502) || (status =? 503)
              || (status =? 504) then
        {| userMessage := "Server error. Please try again in a moment.";
           shouldRetry := true |}
      else
        {| userMessage := "Server responded with error " +:+ pretty status;
           shouldRetry := status >=? 500 |}
  | None =>
      match message error with
      | Some msg =>
          if String.eqb msg "" then
            {| userMessage := "An unexpected error occurred";
               shouldRetry := false |}
          else if includes "network" msg || includes "fetch" msg then
            {| userMessage := "Network error. Please check your connection.";
               shouldRetry := true |}
          else if includes "timeout" msg then
            {| userMessage := "Request timed out. Please try again.";
               shouldRetry := true |}
          else {| userMessage := msg; shouldRetry := false |}
      | None =>
          {| userMessage := "An unexpected error occurred";
             shouldRetry := false |}
      end
  end.

End ApiError.

(** ** useVirtualScroll (usePerformance.ts) *)

Module VirtualScroll.

Record VirtualScrollOptions := {
  itemHeight : Z;
  containerHeight : Z;
  overscan : option Z;
  enableDynamicHeight : option bool
}.

(** The defaults of the destructuring: [overscan = 5],
    [enableDynamicHeight = false]. *)
Definition overscan_of (o : VirtualScrollOptions) : Z := default 5 (overscan o).
Definition dynamic (o : VirtualScrollOptions) : bool :=
  default false (enableDynamicHeight o).

(** [Math.floor(a / b)] and [Math.ceil(a / b)] on integers, for a
    divisor [b] other than 0.  For [b = 0] the quotient of the source is
    [NaN] or an infinity, which [Z] does not have, and these functions
    do not say what the source does then: the only divisor is
    [itemHeight], and what is stated below about [startIndex],
    [visibleCount], [endIndex] or [offsetY] either assumes that it is
    not 0 or holds of the source in that case as well. *)
Definition floor_div (a b : Z) : Z := a / b.
Definition ceil_div (a b : Z) : Z := - ((- a) / b).

(** [Array.prototype.slice(start, end)] with its relative indices. *)
Definition slice {A} (l : list A) (start stop : Z) : list A :=
  let len := Z.of_nat (length l) in
  let k := if start <? 0 then Z.max (len + start) 0 else Z.min start len in
  let final := if stop <? 0 then Z.max (len + stop) 0 else Z.min stop len in
  firstn (Z.to_nat (final - k)) (skipn (Z.to_nat k) l).

Section Window.
Context {T : Type}.
Variable items : list T.
Variable options : VirtualScrollOptions.
Variable scrollTop : Z.

Definition itemCount : Z := Z.of_nat (length items).

Definition visibleCount : Z :=
  ceil_div (containerHeight options) (itemHeight options).

Definition startIndex : Z :=
  Z.max 0 (floor_div scrollTop (itemHeight options) - overscan_of options).

Definition endIndex : Z :=
  Z.min (itemCount - 1) (startIndex + visibleCount + 2 * overscan_of options).

(** [items.slice(startIndex, endIndex + 1).map((item, index) =>
    ({ item, index: startIndex + index }))] *)
Definition visibleItems : list (T * Z) :=
  imap (fun index item => (item, startIndex + Z.of_nat index))
       (slice items startIndex (endIndex + 1)).

Definition totalHeight : Z := itemCount * itemHeight options.
Definition offsetY : Z := startIndex * itemHeight options.

(** The per-item heights recorded by [setItemHeight]. *)
Variable itemHeights : gmap Z Z.

Definition setItemHeight (index height : Z) : gmap Z Z :=
  if dynamic options then <[index := height]> itemHeights else itemHeights.

(** [itemHeights.get(index) || itemHeight] *)
Definition getDynamicHeight (index : Z) : Z :=
  match itemHeights !! index with
  | Some h => if h =? 0 then itemHeight options else h
  | None => itemHeight options
  end.

(** The loop [for (i = 0; i < index; i++) offset += getDynamicHeight(i)]. *)
Definition sum_heights (index : Z) : Z :=
  fold_left (fun offset i => offset + getDynamicHeight (Z.of_nat i))
            (seq 0 (Z.to_nat index)) 0.

Definition getDynamicOffset (index : Z) : Z :=
  if negb (dynamic options) then index * itemHeight options
  else sum_heights index.

(** The [totalHeight] and [offsetY] the hook returns. *)
Definition returned_totalHeight : Z :=
  if dynamic options
  then fold_left Z.add
         (map (fun i => getDynamicHeight (Z.of_nat i))
              (seq 0 (Z.to_nat itemCount))) 0
  else totalHeight.

Definition returned_offsetY : Z :=
  if dynamic options then getDynamicOffset startIndex else offsetY.

End Window.

(** A list of ten rows in a 100 pixel viewport of 20 pixel rows. *)
Definition ten_rows : list nat := seq 0 10.
Definition small_viewport : VirtualScrollOptions :=
  {| itemHeight := 20; containerHeight := 100; overscan := Some 1;
     enableDynamicHeight := None |}.

(** The same viewport with dynamic heights enabled. *)
Definition dynamic_viewport : VirtualScrollOptions :=
  {| itemHeight := 20; containerHeight := 100; overscan := Some 1;
     enableDynamicHeight := Some true |}.

End VirtualScroll.

(** ** useHyperliquidRealTime (the second streaming hook) *)

Module RealTime.

(** The subscribe messages this hook sends. *)
Inductive Frame :=
| SubscribeAllMids
| SubscribeL2Book (coin : string)
| SubscribeTrades (coin : string).

Record Socket := {
  readyState : WS.ReadyState;
  outbox : list Frame
}.

(** A pending [setTimeout]: its id and its delay in milliseconds.
    Every timer of this hook has the same callback. *)
Record Timer := {
  timer_id : nat;
  delay : Z
}.

(** The hook instance.  [connect] makes a new socket every time, so the
    sockets made so far are kept in a list and named by their position;
    [wsRef] names the latest. *)
Record Hook := {
  isConnected : bool;
  error : option string;
  sockets : list Socket;
  wsRef : option nat;
  reconnectTimeoutRef : option nat;
  timers : list Timer;
  nextTimer : nat
}.

Definition initial : Hook :=
  {| isConnected := false; error := None; sockets := []; wsRef := None;
     reconnectTimeoutRef := None; timers := []; nextTimer := 1 |}.

(** [connect()]: a new socket, which starts in [CONNECTING]; the
    constructor is taken to succeed. *)
Definition connect (h : Hook) : Hook :=
  {| isConnected := isConnected h; error := error h;
     sockets := sockets h ++ [{| readyState := WS.CONNECTING; outbox := [] |}];
     wsRef := Some (length (sockets h));
     reconnectTimeoutRef := reconnectTimeoutRef h;
     timers := timers h; nextTimer := nextTimer h |}.

(** What [onopen] sends: for every requested subscription, the
    [allMids] message if it is that, and for every coin the [l2Book]
    and the [trades] message if it is one of those. *)
Definition frames_on_open (coins subscriptions : list string) : list Frame :=
  flat_map
    (fun sub =>
       (if String.eqb sub "allMids" then [SubscribeAllMids] else [])
       ++ flat_map
            (fun coin =>
               (if String.eqb sub "l2Book" then [SubscribeL2Book coin] else [])
               ++ (if String.eqb sub "trades" then [SubscribeTrades coin]
                   else []))
            coins)
    subscriptions.

Definition send_all (id : nat) (frames : list Frame) (l : list Socket)
  : list Socket :=
  match l !! id with
  | Some sock =>
      <[id := {| readyState := readyState sock;
                 outbox := outbox sock ++ frames |}]> l
  | None => l
  end.

(** [ws.onopen] of socket [id] *)
Definition onopen (coins subscriptions : list string) (id : nat) (h : Hook)
  : Hook :=
  {| isConnected := true; error := None;
     sockets := send_all id (frames_on_open coins subscriptions) (sockets h);
     wsRef := wsRef h; reconnectTimeoutRef := reconnectTimeoutRef h;
     timers := timers h; nextTimer := nextTimer h |}.

(** [ws.onclose]: [setTimeout(..., 5000)], always. *)
Definition onclose (h : Hook) : Hook :=
  {| isConnected := false; error := error h; sockets := sockets h;
     wsRef := wsRef h; reconnectTimeoutRef := Some (nextTimer h);
     timers := timers h ++ [{| timer_id := nextTimer h; delay := 5000 |}];
     nextTimer := S (nextTimer h) |}.

(** [ws.onerror] *)
Definition onerror (h : Hook) : Hook :=
  {| isConnected := isConnected h;
     error := Some "WebSocket connection error";
     sockets := sockets h; wsRef := wsRef h;
     reconnectTimeoutRef := reconnectTimeoutRef h;
     timers := timers h; nextTimer := nextTimer h |}.

(** [wsRef.current?.readyState === WebSocket.CLOSED] *)
Definition current_is_closed (h : Hook) : bool :=
  match wsRef h with
  | Some id =>
      match sockets h !! id with
      | Some {| readyState := WS.CLOSED |} => true
      | _ => false
      end
  | None => false
  end.

(** The callback of the reconnect timer. *)
Definition reconnect_callback (h : Hook) : Hook :=
  if current_is_closed h then connect h else h.

Definition set_readyState (id : nat) (r : WS.ReadyState) (l : list Socket)
  : list Socket :=
  match l !! id with
  | Some sock => <[id := {| readyState := r; outbox := outbox sock |}]> l
  | None => l
  end.

(** [ws.close()]: an open or connecting socket starts closing. *)
Definition close (id : nat) (l : list Socket) : list Socket :=
  match l !! id with
  | Some {| readyState := WS.OPEN |}
  | Some {| readyState := WS.CONNECTING |} => set_readyState id WS.CLOSING l
  | _ => l
  end.

(** [disconnect()]: the timer in the ref is cleared, the current socket
    is asked to close and the ref is emptied. *)
Definition disconnect (h : Hook) : Hook :=
  let pending :=
    match reconnectTimeoutRef h with
    | Some id =>
        List.filter (fun t => negb (Nat.eqb (timer_id t) id)) (timers h)
    | None => timers h
    end in
  {| isConnected := false; error := error h;
     sockets :=
       match wsRef h with
       | Some id => close id (sockets h)
       | None => sockets h
       end;
     wsRef := None;
     reconnectTimeoutRef := reconnectTimeoutRef h;
     timers := pending; nextTimer := nextTimer h |}.

(** *** What the environment does *)

Definition with_sockets (l : list Socket) (h : Hook) : Hook :=
  {| isConnected := isConnected h; error := error h; sockets := l;
     wsRef := wsRef h; reconnectTimeoutRef := reconnectTimeoutRef h;
     timers := timers h; nextTimer := nextTimer h |}.

(** Socket [id] completes its handshake. *)
Definition socket_opened (coins subscriptions : list string) (id : nat)
    (h : Hook) : Hook :=
  onopen coins subscriptions id
    (with_sockets (set_readyState id WS.OPEN (sockets h)) h).

(** Socket [id] is closed, by the peer or after [close()]. *)
Definition socket_closed (id : nat) (h : Hook) : Hook :=
  onclose (with_sockets (set_readyState id WS.CLOSED (sockets h)) h).

(** The pending timers fire in the order of their registration. *)
Definition run_timers (h : Hook) : Hook :=
  fold_left (fun acc _ => reconnect_callback acc) (timers h)
    {| isConnected := isConnected h; error := error h; sockets := sockets h;
       wsRef := wsRef h; reconnectTimeoutRef := reconnectTimeoutRef h;
       timers := []; nextTimer := nextTimer h |}.


(** The socket the hook is using closes. *)
Definition close_current (h : Hook) : Hook :=
  match wsRef h with
  | Some id => socket_closed id h
  | None => h
  end.

(** [n] times: the current socket closes and the pending timers fire. *)
Fixpoint reconnections (n : nat) (h : Hook) : Hook :=
  match n with
  | O => h
  | S n' => reconnections n' (run_timers (close_current h))
  end.

End RealTime.

(** ** OrderExecutionService: the checks before an order is placed *)

Module Orders.

Inductive OrderType := market | limit | stop | stopLimit.
Inductive TimeInForce := gtc | fok | ioc.
Inductive Side := long | short.

(** Sizes and prices are rational numbers. *)
Record OrderRequest := {
  asset : string;
  isBuy : bool;
  size : Q;
  price : option Q;
  orderType : OrderType;
  timeInForce : option TimeInForce;
  reduceOnly : option bool;
  postOnly : option bool;
  stopPrice : option Q
}.

Record OrderExecutionResult := {
  success : bool;
  orderId : option string;
  transactionHash : option string;
  result_error : option string
}.

Record Validation := {
  valid : bool;
  error : option string
}.

Definition Qlt_bool (x y : Q) : bool := negb (Qle_bool y x).

(** [!p || p <= 0] for an optional number [p] *)
Definition missing_or_not_positive (p : option Q) : bool :=
  match p with
  | None => true
  | Some x => Qeq_bool x (inject_Z 0) || Qle_bool x (inject_Z 0)
  end.

Definition failed (message : string) : OrderExecutionResult :=
  {| success := false; orderId := None; transactionHash := None;
     result_error := Some message |}.

Section Service.

(** [!asset || asset.trim() === ''], with [trim] as the language has it. *)
Variable blank : string -> bool.

Definition validateOrder (order : OrderRequest) : Validation :=
  if blank (asset order) then
    {| valid := false; error := Some "Asset is required" |}
  else if Qle_bool (size order) (inject_Z 0) then
    {| valid := false; error := Some "Order size must be positive" |}
  else if match orderType order with limit => true | _ => false end
          && missing_or_not_positive (price order) then
    {| valid := false; error := Some "Limit orders require a valid price" |}
  else if match orderType order with
          | stop | stopLimit => true
          | _ => false
          end && missing_or_not_positive (stopPrice order) then
    {| valid := false; error := Some "Stop orders require a valid stop price" |}
  else {| valid := true; error := None |}.

(** The world the service acts on, and everything [executeOrder] does
    once the order has passed validation: market data, the margin check,
    signing and submission.  Their failures are caught inside
    [executeOrder] and come back as a result. *)
Context {W : Type}.
Variable place : OrderRequest -> W -> OrderExecutionResult * W.

Definition executeOrder (order : OrderRequest) (w : W)
  : OrderExecutionResult * W :=
  let validation := validateOrder order in
  if negb (valid validation)
  then (failed (default "" (error validation)), w)
  else place order w.

Fixpoint execute_in_sequence (orders : list OrderRequest) (w : W)
  : list OrderExecutionResult * W :=
  match orders with
  | [] => ([], w)
  | order :: rest =>
      let '(result, w1) := executeOrder order w in
      let '(results, w2) := execute_in_sequence rest w1 in
      (result :: results, w2)
  end.

(** [executeBatchOrders]: all orders are validated first; the first
    invalid one makes every order of the batch fail. *)
Definition executeBatchOrders (orders : list OrderRequest) (w : W)
  : list OrderExecutionResult * W :=
  match List.find (fun o => negb (valid (validateOrder o))) orders with
  | Some bad =>
      let message :=
        "Invalid order for " +:+ asset bad +:+ ": "
        +:+ default "undefined" (error (validateOrder bad)) in
      (map (fun _ => failed message) orders, w)
  | None => execute_in_sequence orders w
  end.

End Service.

(** No asset is blank but the empty one: a stand-in for examples. *)
Definition only_empty_is_blank (s : string) : bool := String.eqb s "".

Definition market_buy (a : string) (sz : Q) : OrderRequest :=
  {| asset := a; isBuy := true; size := sz; price := None;
     orderType := market; timeInForce := None; reduceOnly := None;
     postOnly := None; stopPrice := None |}.

(** A backend that accepts every order and counts them. *)
Definition accept_all (o : OrderRequest) (placed : nat)
  : OrderExecutionResult * nat :=
  ({| success := true; orderId := Some (asset o); transactionHash := None;
      result_error := None |}, S placed).

End Orders.

(** * Properties *)

(** ** The insertion-ordered map *)

Module JsMapFacts.
Section JsMapFacts.
Context {V : Type}.
Implicit Types (m : JsMap.t V) (k key : string) (v : V).

Lemma get_None_keys key m :
  JsMap.get key m = None <-> ~ In key (JsMap.keys m).
Proof.
  induction m as [|[k w] m IH]; simpl.
  - tauto.
  - destruct (String.eqb_spec k key) as [->|Hne].
    + split; [discriminate | intros H; exfalso; apply H; now left].
    + rewrite IH. split; [intros H [E|I]; auto | intros H I; apply H; now right].
Qed.

Lemma keys_set key v m :
  JsMap.keys (JsMap.set key v m) =
  if JsMap.has key m then JsMap.keys m else JsMap.keys m ++ [key].
Proof.
  unfold JsMap.has.
  induction m as [|[k w] m IH]; simpl; [reflexivity|].
  destruct (String.eqb_spec k key) as [->|Hne]; simpl; [reflexivity|].
  rewrite IH. now destruct (JsMap.get key m).
Qed.

Lemma length_set key v m :
  length (JsMap.set key v m) =
  if JsMap.has key m then length m else S (length m).
Proof.
  unfold JsMap.has.
  induction m as [|[k w] m IH]; simpl; [reflexivity|].
  destruct (String.eqb_spec k key) as [->|Hne]; simpl; [reflexivity|].
  rewrite IH. now destruct (JsMap.get key m).
Qed.

Lemma wf_set key v m : JsMap.wf m -> JsMap.wf (JsMap.set key v m).
Proof.
  unfold JsMap.wf. intros Hnd. rewrite keys_set. unfold JsMap.has.
  destruct (JsMap.get key m) eqn:E; [exact Hnd|].
  apply get_None_keys in E.
  apply List.NoDup_app; [exact Hnd | repeat constructor; simpl; tauto |].
  intros a Ha [<-|[]]. contradiction.
Qed.

Lemma get_set_eq key v m : JsMap.get key (JsMap.set key v m) = Some v.
Proof.
  induction m as [|[k w] m IH]; simpl.
  - now rewrite String.eqb_refl.
  - destruct (String.eqb_spec k key) as [->|Hne]; simpl.
    + now rewrite String.eqb_refl.
    + destruct (String.eqb_spec k key); [contradiction | exact IH].
Qed.

Lemma wf_filter (P : string * V -> bool) m :
  JsMap.wf m -> JsMap.wf (List.filter P m).
Proof.
  unfold JsMap.wf, JsMap.keys.
  induction m as [|kv m IH]; simpl; intros Hnd; [constructor|].
  inversion Hnd as [|? ? Hni Hnd']; subst.
  destruct (P kv); simpl; [|now apply IH].
  constructor; [|now apply IH].
  intros Hin. apply Hni.
  apply in_map_iff in Hin as [x [Hx Hin]].
  apply in_map_iff. exists x. split; [exact Hx|].
  apply filter_In in Hin. tauto.
Qed.

Lemma wf_delete key m : JsMap.wf m -> JsMap.wf (JsMap.delete key m).
Proof. apply wf_filter. Qed.

Lemma get_delete_eq key m : JsMap.get key (JsMap.delete key m) = None.
Proof.
  unfold JsMap.delete.
  induction m as [|[k w] m IH]; simpl; [reflexivity|].
  destruct (String.eqb_spec k key) as [->|Hne]; simpl; [exact IH|].
  destruct (String.eqb_spec k key); [contradiction | exact IH].
Qed.

Lemma filter_filter (P Q : string * V -> bool) m :
  List.filter Q (List.filter P m) = List.filter (fun x => P x && Q x) m.
Proof.
  induction m as [|x m IH]; simpl; [reflexivity|].
  destruct (P x); simpl; [destruct (Q x)|]; now rewrite IH.
Qed.

Lemma filter_length_perm (P : string * V -> bool) (l l' : list (string * V)) :
  Permutation l l' -> length (List.filter P l) = length (List.filter P l').
Proof.
  induction 1 as [|x l l' _ IH|x y l|l l' l'' _ IH1 _ IH2]; simpl.
  - reflexivity.
  - destruct (P x); simpl; now rewrite IH.
  - destruct (P x), (P y); reflexivity.
  - now rewrite IH1.
Qed.

Lemma outside_own_keys (a : list (string * V)) :
  List.filter (JsMap.outside (map fst a)) a = [].
Proof.
  assert (H : forall ks, (forall x, In x a -> In (fst x) ks) ->
                         List.filter (JsMap.outside ks) a = []).
  { induction a as [|x a IH]; simpl; intros ks Hks; [reflexivity|].
    unfold JsMap.outside at 1.
    assert (E : existsb (String.eqb (fst x)) ks = true).
    { apply existsb_exists. exists (fst x). split.
      - apply Hks. now left.
      - apply String.eqb_refl. }
    rewrite E. simpl. apply IH. intros y Hy. apply Hks. now right. }
  apply H. intros x Hx. now apply in_map.
Qed.

Lemma outside_other_keys ks (b : list (string * V)) :
  (forall x, In x b -> ~ In (fst x) ks) ->
  List.filter (JsMap.outside ks) b = b.
Proof.
  induction b as [|x b IH]; simpl; intros Hb; [reflexivity|].
  unfold JsMap.outside at 1.
  destruct (existsb (String.eqb (fst x)) ks) eqn:E; simpl.
  - apply existsb_exists in E as [k [Hk Ek]].
    apply String.eqb_eq in Ek. subst k.
    exfalso. apply (Hb x); [now left | exact Hk].
  - f_equal. apply IH. intros y Hy. apply Hb. now right.
Qed.

Lemma NoDup_app_disjoint {A} (l1 l2 : list A) (x : A) :
  List.NoDup (l1 ++ l2) -> In x l1 -> In x l2 -> False.
Proof.
  induction l1 as [|y l1 IH]; simpl; intros Hnd H1 H2; [contradiction|].
  inversion Hnd as [|? ? Hni Hnd']; subst.
  destruct H1 as [->|H1]; [|now apply IH].
  apply Hni, in_or_app. now right.
Qed.

(** Deleting the keys of a part [a] of a map without repeated keys
    leaves as many entries as the rest [b] has. *)
Lemma outside_split_length m (a b : list (string * V)) :
  JsMap.wf m -> Permutation m (a ++ b) ->
  length (List.filter (JsMap.outside (map fst a)) m) = length b.
Proof.
  intros Hwf Hperm.
  rewrite (filter_length_perm _ _ _ Hperm), List.filter_app, outside_own_keys.
  simpl. f_equal. apply outside_other_keys.
  unfold JsMap.wf, JsMap.keys in Hwf.
  assert (Hnd : List.NoDup (map fst (a ++ b))).
  { apply (Permutation_NoDup (l := map fst m)); [|exact Hwf].
    now apply Permutation_map. }
  rewrite map_app in Hnd.
  intros x Hx Hin.
  apply (NoDup_app_disjoint _ _ (fst x) Hnd); [exact Hin | now apply in_map].
Qed.

End JsMapFacts.
End JsMapFacts.

(** ** AdvancedCache *)

(** ** Rounding to a double: bounds and error *)

Module DoubleFacts.
Import Double.
Local Open Scope Q_scope.

Lemma pow2_pos (e : Z) : 0 < pow2 e.
Proof. apply Qpower_0_lt. reflexivity. Qed.

Lemma pow2_add (a b : Z) : pow2 (a + b) == pow2 a * pow2 b.
Proof. apply Qpower_plus. discriminate. Qed.

Lemma pow2_le (a b : Z) : (a <= b)%Z -> pow2 a <= pow2 b.
Proof. intros H. apply Qpower_le_compat_l; [exact H | discriminate]. Qed.

Lemma pow2_lt_inv (a b : Z) : pow2 a < pow2 b -> (a < b)%Z.
Proof. intros H. apply (Qpower_lt_compat_l_inv 2); [exact H | reflexivity]. Qed.

Lemma pow2_Z (k : Z) : (0 <= k)%Z -> pow2 k == inject_Z (2 ^ k).
Proof. intros H. unfold pow2. now rewrite Zpower_Qpower. Qed.

Lemma pow2_cancel (x : Q) (e : Z) : x / pow2 e * pow2 e == x.
Proof.
  unfold Qdiv. rewrite <- Qmult_assoc, (Qmult_comm (/ _)), Qmult_inv_r.
  - apply Qmult_1_r.
  - intros E. pose proof (pow2_pos e) as H. rewrite E in H. discriminate.
Qed.

(** [2^(ilog2 x) <= x < 2^(ilog2 x + 1)] *)
Lemma ilog2_spec (x : Q) :
  0 < x -> pow2 (ilog2 x) <= x /\ x < pow2 (ilog2 x + 1).
Proof.
  intros Hx. destruct x as [n d]. unfold ilog2. cbn [Qnum Qden].
  assert (Hn : (0 < n)%Z) by (unfold Qlt in Hx; simpl in Hx; lia).
  set (ln := Z.log2 n). set (ld := Z.log2 (Zpos d)).
  destruct (Z.log2_spec n Hn) as [Hn1 Hn2]. fold ln in Hn1, Hn2.
  destruct (Z.log2_spec (Zpos d) eq_refl) as [Hd1 Hd2]. fold ld in Hd1, Hd2.
  assert (Hln : (0 <= ln)%Z) by apply Z.log2_nonneg.
  assert (Hld : (0 <= ld)%Z) by apply Z.log2_nonneg.
  (* n # d between 2^(ln - ld - 1) and 2^(ln - ld + 1) *)
  assert (Hup : n # d < pow2 (ln - ld + 1)).
  { assert (E : pow2 (ln + 1) == pow2 (ln - ld + 1) * pow2 ld).
    { rewrite <- pow2_add. now replace (ln - ld + 1 + ld)%Z with (ln + 1)%Z by lia. }
    apply (Qmult_lt_r _ _ (pow2 ld)); [apply pow2_pos|].
    rewrite <- E, !pow2_Z by lia.
    unfold Qlt, Qmult. simpl. nia. }
  assert (Hlow : pow2 (ln - ld - 1) < n # d).
  { assert (E : pow2 ln == pow2 (ln - ld - 1) * pow2 (ld + 1)).
    { rewrite <- pow2_add. now replace (ln - ld - 1 + (ld + 1))%Z with ln by lia. }
    apply (Qmult_lt_r _ _ (pow2 (ld + 1))); [apply pow2_pos|].
    rewrite <- E, !pow2_Z by lia.
    unfold Qlt, Qmult. simpl. nia. }
  destruct (Qle_bool (pow2 (ln - ld)) (n # d)) eqn:E.
  - apply Qle_bool_iff in E. split; [exact E | exact Hup].
  - split; [apply Qlt_le_weak; exact Hlow|].
    replace (ln - ld - 1 + 1)%Z with (ln - ld)%Z by lia.
    apply Qnot_le_lt. intros H. apply Qle_bool_iff in H. congruence.
Qed.


(** The integer chosen is within one half of [y]. *)
Lemma nearest_even_near (y : Q) :
  y - (1 # 2) <= inject_Z (nearest_even y)
  /\ inject_Z (nearest_even y) <= y + (1 # 2).
Proof.
  unfold nearest_even.
  pose proof (Qfloor_le y) as Hlo. pose proof (Qlt_floor y) as Hhi.
  rewrite inject_Z_plus in Hhi. change (inject_Z 1) with 1 in Hhi.
  destruct (Qcompare_spec (y - inject_Z (Qfloor y)) (1 # 2)) as [E|E|E].
  - destruct (Z.even (Qfloor y)); rewrite ?inject_Z_plus;
      change (inject_Z 1) with 1; split; lra.
  - split; lra.
  - rewrite inject_Z_plus. change (inject_Z 1) with 1. split; lra.
Qed.

(** It does not pass an integer that lies on the other side of [y]. *)
Lemma nearest_even_le (y : Q) (b : Z) :
  y <= inject_Z b -> (nearest_even y <= b)%Z.
Proof.
  intros Hy. unfold nearest_even.
  pose proof (Qfloor_le y) as Hlo.
  assert (Hq : (Qfloor y <= b)%Z) by (rewrite Zle_Qle; lra).
  assert (Hup : 0 < y - inject_Z (Qfloor y) -> (Qfloor y + 1 <= b)%Z).
  { intros Hfrac.
    assert (Hlt : inject_Z (Qfloor y) < inject_Z b) by lra.
    rewrite <- Zlt_Qlt in Hlt. lia. }
  destruct (Qcompare_spec (y - inject_Z (Qfloor y)) (1 # 2)) as [E|E|E].
  - destruct (Z.even (Qfloor y)); [exact Hq|]. apply Hup. lra.
  - exact Hq.
  - apply Hup. lra.
Qed.

Lemma nearest_even_ge (y : Q) (b : Z) :
  inject_Z b <= y -> (b <= nearest_even y)%Z.
Proof.
  intros Hy. unfold nearest_even.
  assert (Hq : (b <= Qfloor y)%Z).
  { rewrite <- (Qfloor_Z b). now apply Qfloor_resp_le. }
  destruct (Qcompare (y - inject_Z (Qfloor y)) (1 # 2));
    [destruct (Z.even (Qfloor y))| |]; lia.
Qed.

(** The significand: [x / 2^e] lies in [[2^52, 2^53)]. *)
Lemma significand_range (x : Q) :
  0 < x ->
  pow2 52 <= x / pow2 (ilog2 x - 52) /\ x / pow2 (ilog2 x - 52) < pow2 53.
Proof.
  intros Hx. destruct (ilog2_spec x Hx) as [Hlo Hhi].
  set (e := (ilog2 x - 52)%Z).
  assert (E1 : pow2 (ilog2 x) == pow2 52 * pow2 e).
  { rewrite <- pow2_add. unfold e. now replace (52 + (ilog2 x - 52))%Z with (ilog2 x) by lia. }
  assert (E2 : pow2 (ilog2 x + 1) == pow2 53 * pow2 e).
  { rewrite <- pow2_add. unfold e.
    now replace (53 + (ilog2 x - 52))%Z with (ilog2 x + 1)%Z by lia. }
  pose proof (pow2_pos e) as He.
  split.
  - apply Qle_shift_div_l; [exact He|]. now rewrite <- E1.
  - apply Qlt_shift_div_r; [exact He|]. now rewrite <- E2.
Qed.

(** A double [m * 2^k] that is not below [x] is not below the rounding
    of [x]. *)
Lemma round53_le (x : Q) (m k : Z) :
  0 < x -> (0 < m < 2 ^ 53)%Z ->
  x <= inject_Z m * pow2 k ->
  round53 x <= inject_Z m * pow2 k.
Proof.
  intros Hx Hm Hb. unfold round53.
  destruct (significand_range x Hx) as [Hlo Hhi].
  set (e := (ilog2 x - 52)%Z) in *.
  pose proof (pow2_pos e) as He. pose proof (pow2_pos k) as Hk.
  pose proof (pow2_cancel x e) as Hc.
  (* the exponent of [x] is not above [k] *)
  assert (Hek : (e <= k)%Z).
  { assert (H : pow2 (e + 52) < pow2 (k + 53)).
    { rewrite !pow2_add.
      apply Qle_lt_trans with (inject_Z m * pow2 k).
      - apply Qle_trans with x; [|exact Hb].
        rewrite <- Hc, (Qmult_comm (pow2 e)).
        apply Qmult_le_compat_r; [exact Hlo | lra].
      - rewrite (Qmult_comm (pow2 k)).
        apply Qmult_lt_compat_r; [exact Hk|].
        rewrite pow2_Z by lia. rewrite <- Zlt_Qlt. lia. }
    apply pow2_lt_inv in H. lia. }
  (* so the bound is a multiple of [2^e] *)
  assert (Ek : pow2 k == inject_Z (2 ^ (k - e)) * pow2 e).
  { rewrite <- pow2_Z by lia. rewrite <- pow2_add.
    now replace (k - e + e)%Z with k by lia. }
  rewrite Ek, Qmult_assoc, <- inject_Z_mult.
  apply Qmult_le_compat_r; [|lra].
  rewrite <- Zle_Qle. apply nearest_even_le.
  apply Qle_shift_div_r; [exact He|].
  rewrite inject_Z_mult, <- Qmult_assoc, <- Ek. exact Hb.
Qed.

Lemma round53_ge (x : Q) (m k : Z) :
  0 < x -> (0 < m < 2 ^ 53)%Z ->
  inject_Z m * pow2 k <= x ->
  inject_Z m * pow2 k <= round53 x.
Proof.
  intros Hx Hm Hb. unfold round53.
  destruct (significand_range x Hx) as [Hlo Hhi].
  set (e := (ilog2 x - 52)%Z) in *.
  pose proof (pow2_pos e) as He. pose proof (pow2_pos k) as Hk.
  pose proof (pow2_cancel x e) as Hc.
  assert (H52 : (2 ^ 52 <= nearest_even (x / pow2 e))%Z).
  { apply nearest_even_ge. now rewrite <- pow2_Z by lia. }
  destruct (Z.le_gt_cases e k) as [Hek|Hek].
  - assert (Ek : pow2 k == inject_Z (2 ^ (k - e)) * pow2 e).
    { rewrite <- pow2_Z by lia. rewrite <- pow2_add.
      now replace (k - e + e)%Z with k by lia. }
    rewrite Ek, Qmult_assoc, <- inject_Z_mult.
    apply Qmult_le_compat_r; [|lra].
    rewrite <- Zle_Qle. apply nearest_even_ge.
    apply Qle_shift_div_l; [exact He|].
    rewrite inject_Z_mult, <- Qmult_assoc, <- Ek. exact Hb.
  - (* the bound is below [2^(e + 52)] *)
    apply Qle_trans with (pow2 52 * pow2 e).
    + assert (Ee : pow2 e == inject_Z (2 ^ (e - k)) * pow2 k).
      { rewrite <- pow2_Z by lia. rewrite <- pow2_add.
        now replace (e - k + k)%Z with e by lia. }
      rewrite Ee, Qmult_assoc.
      apply Qmult_le_compat_r; [|lra].
      rewrite pow2_Z by lia. rewrite <- inject_Z_mult, <- Zle_Qle.
      assert (2 <= 2 ^ (e - k))%Z.
      { change 2%Z with (2 ^ 1)%Z at 1. apply Z.pow_le_mono_r; lia. }
      nia.
    + apply Qmult_le_compat_r; [|lra].
      rewrite pow2_Z by lia. now rewrite <- Zle_Qle.
Qed.

(** The relative error of a rounding is at most [2^-53]. *)
Lemma round53_error (x : Q) :
  0 < x ->
  x * (1 - (1 # 2 ^ 53)) <= round53 x /\ round53 x <= x * (1 + (1 # 2 ^ 53)).
Proof.
  intros Hx. unfold round53.
  destruct (significand_range x Hx) as [Hlo _].
  set (e := (ilog2 x - 52)%Z) in *.
  pose proof (pow2_pos e) as He.
  pose proof (pow2_cancel x e) as Hc.
  destruct (nearest_even_near (x / pow2 e)) as [Hn1 Hn2].
  set (y := x / pow2 e) in *. set (m := inject_Z (nearest_even y)) in *.
  assert (Hhalf : (1 # 2) <= y * (1 # 2 ^ 53)).
  { rewrite pow2_Z in Hlo by lia.
    apply Qle_trans with (inject_Z (2 ^ 52) * (1 # 2 ^ 53)); [discriminate|].
    apply Qmult_le_compat_r; [exact Hlo | discriminate]. }
  rewrite <- Hc. fold y.
  split.
  - rewrite (Qmult_comm y (pow2 e)), <- Qmult_assoc, (Qmult_comm (pow2 e)).
    apply Qmult_le_compat_r; [lra | lra].
  - rewrite (Qmult_comm y (pow2 e)), <- Qmult_assoc, (Qmult_comm (pow2 e)).
    apply Qmult_le_compat_r; [lra | lra].
Qed.


(** *** Rounding a number that is not negative *)

Lemma fl_pos (x : Q) : 0 < x -> fl x = round53 x.
Proof. intros H. unfold fl. apply Qgt_alt in H. now rewrite H. Qed.

Lemma fl_zero (x : Q) : x == 0 -> fl x = 0.
Proof. intros H. unfold fl. apply Qeq_alt in H. now rewrite H. Qed.

Lemma double_pos (m k : Z) : (0 < m)%Z -> 0 < inject_Z m * pow2 k.
Proof.
  intros Hm. apply Qmult_lt_0_compat; [|apply pow2_pos].
  change 0 with (inject_Z 0). now rewrite <- Zlt_Qlt.
Qed.

Lemma fl_le (x : Q) (m k : Z) :
  0 <= x -> (0 < m < 2 ^ 53)%Z ->
  x <= inject_Z m * pow2 k -> fl x <= inject_Z m * pow2 k.
Proof.
  intros Hx Hm Hb. apply Qle_lteq in Hx as [Hx|Hx].
  - rewrite fl_pos by exact Hx. now apply round53_le.
  - rewrite fl_zero by (symmetry; exact Hx).
    apply Qlt_le_weak, double_pos. lia.
Qed.

Lemma fl_ge (x : Q) (m k : Z) :
  (0 < m < 2 ^ 53)%Z ->
  inject_Z m * pow2 k <= x -> inject_Z m * pow2 k <= fl x.
Proof.
  intros Hm Hb.
  assert (Hx : 0 < x).
  { apply Qlt_le_trans with (inject_Z m * pow2 k); [|exact Hb].
    apply double_pos. lia. }
  rewrite fl_pos by exact Hx. now apply round53_ge.
Qed.

Lemma fl_error (x : Q) :
  0 <= x ->
  x * (1 - (1 # 2 ^ 53)) <= fl x /\ fl x <= x * (1 + (1 # 2 ^ 53)).
Proof.
  intros Hx. apply Qle_lteq in Hx as [Hx|Hx].
  - rewrite fl_pos by exact Hx. now apply round53_error.
  - rewrite fl_zero by (symmetry; exact Hx). rewrite <- Hx. split; lra.
Qed.

(** An integer below [2^53] is a double. *)
Lemma fl_integer (x : Q) (z : Z) :
  (0 <= z < 2 ^ 53)%Z -> x == inject_Z z -> fl x == inject_Z z.
Proof.
  intros Hz Hx.
  assert (E : inject_Z z * pow2 0 == inject_Z z) by apply Qmult_1_r.
  destruct (Z.eq_dec z 0%Z) as [->|Hnz].
  - now rewrite fl_zero.
  - apply Qle_antisym.
    + rewrite <- E. apply fl_le; [|lia|].
      * rewrite Hx. change 0 with (inject_Z 0). rewrite <- Zle_Qle. lia.
      * rewrite E, Hx. apply Qle_refl.
    + rewrite <- E at 1. apply fl_ge; [lia|]. rewrite E, Hx. apply Qle_refl.
Qed.

Lemma of_nat_exact (n : nat) :
  (Z.of_nat n < 2 ^ 53)%Z -> of_nat n == inject_Z (Z.of_nat n).
Proof. intros Hn. apply fl_integer; [lia | reflexivity]. Qed.

End DoubleFacts.

Module CacheFacts.
Import Cache.
Section CacheFacts.
Context {T : Type}.
Implicit Types (this : AdvancedCache T) (m : JsMap.t (CacheEntry T)).

Lemma filter_true m : List.filter (fun _ => true) m = m.
Proof. induction m as [|x m IH]; simpl; [reflexivity | now rewrite IH]. Qed.

Lemma delete_all_filter ks m :
  delete_all ks m = List.filter (JsMap.outside ks) m.
Proof.
  unfold delete_all. revert m.
  induction ks as [|k ks IH]; intros m; simpl.
  - symmetry. apply filter_true.
  - rewrite IH. unfold JsMap.delete. rewrite JsMapFacts.filter_filter.
    apply filter_ext. intros x. unfold JsMap.outside. simpl.
    now rewrite negb_orb.
Qed.

Lemma wf_delete_all ks m : JsMap.wf m -> JsMap.wf (delete_all ks m).
Proof. rewrite delete_all_filter. apply JsMapFacts.wf_filter. Qed.

Lemma get_delete_all key ks m :
  JsMap.get key (delete_all ks m) =
  if existsb (String.eqb key) ks then None else JsMap.get key m.
Proof.
  rewrite delete_all_filter.
  induction m as [|[k e] m IH]; simpl.
  - now destruct (existsb _ ks).
  - unfold JsMap.outside at 1. simpl.
    destruct (String.eqb_spec k key) as [->|Hne].
    + destruct (existsb (String.eqb key) ks) eqn:E; simpl.
      * exact IH.
      * now rewrite String.eqb_refl.
    + destruct (existsb (String.eqb k) ks); simpl; [exact IH|].
      destruct (String.eqb_spec k key); [contradiction | exact IH].
Qed.

Lemma sort_insert_perm x (l : list (string * CacheEntry T)) :
  Permutation (sort_insert x l) (x :: l).
Proof.
  induction l as [|y l IH]; simpl; [reflexivity|].
  destruct (lastAccessed (snd x) <=? lastAccessed (snd y)); [reflexivity|].
  rewrite IH. apply perm_swap.
Qed.

Lemma sort_perm (l : list (string * CacheEntry T)) :
  Permutation (sort_by_lastAccessed l) l.
Proof.
  induction l as [|x l IH]; simpl; [reflexivity|].
  rewrite sort_insert_perm. now constructor.
Qed.

(** The eviction step of [cleanup] brings a map that is too large down
    to exactly [maxSize] entries. *)
Lemma evict_length m (cap : Z) :
  JsMap.wf m -> 0 <= cap -> JsMap.size m > cap ->
  JsMap.size
    (delete_all
       (map fst (firstn (Z.to_nat (JsMap.size m - cap))
                        (sort_by_lastAccessed m))) m) = cap.
Proof.
  unfold JsMap.size. intros Hwf Hcap Hbig.
  set (k := Z.to_nat (Z.of_nat (length m) - cap)).
  set (entries := sort_by_lastAccessed m).
  rewrite delete_all_filter.
  rewrite (JsMapFacts.outside_split_length m (firstn k entries) (skipn k entries)).
  - rewrite length_skipn. unfold entries.
    rewrite (Permutation_length (sort_perm m)). subst k. lia.
  - exact Hwf.
  - rewrite firstn_skipn. symmetry. apply sort_perm.
Qed.

Lemma cleanup_config this clk : config (fst (cleanup this clk)) = config this.
Proof.
  unfold cleanup, bind, Date_now, ret. simpl.
  now destruct (enableLRU (config this) && _).
Qed.

Lemma cleanup_wf this clk :
  JsMap.wf (cache this) -> JsMap.wf (cache (fst (cleanup this clk))).
Proof.
  intros Hwf. unfold cleanup, bind, Date_now, ret. simpl.
  destruct (enableLRU (config this) && _); simpl;
    repeat apply wf_delete_all; exact Hwf.
Qed.

Lemma cleanup_bound this clk :
  JsMap.wf (cache this) ->
  enableLRU (config this) = true -> 0 <= maxSize (config this) ->
  JsMap.size (cache (fst (cleanup this clk))) <= maxSize (config this).
Proof.
  intros Hwf Hlru Hcap. unfold cleanup, bind, Date_now, ret. simpl.
  rewrite Hlru. simpl.
  match goal with |- context [delete_all ?ks (cache this)] =>
    set (live := delete_all ks (cache this)) end.
  destruct (Z.gtb_spec (JsMap.size live) (maxSize (config this))) as [Hgt|Hle];
    simpl; [|lia].
  rewrite evict_length; [lia | | exact Hcap | lia].
  apply wf_delete_all, Hwf.
Qed.

Lemma set_config this key d ttl tags clk :
  config (fst (set this key d ttl tags clk)) = config this.
Proof.
  unfold set, bind, Date_now, ret. simpl.
  destruct (_ >? _); simpl; [|reflexivity].
  match goal with |- context [cleanup ?c ?k] =>
    exact (cleanup_config c k) end.
Qed.

Lemma set_wf this key d ttl tags clk :
  JsMap.wf (cache this) ->
  JsMap.wf (cache (fst (set this key d ttl tags clk))).
Proof.
  intros Hwf. unfold set, bind, Date_now, ret. simpl.
  destruct (_ >? _); simpl.
  - apply cleanup_wf. simpl. now apply JsMapFacts.wf_set.
  - now apply JsMapFacts.wf_set.
Qed.

Lemma set_bound this key d ttl tags clk :
  JsMap.wf (cache this) ->
  enableLRU (config this) = true -> 0 <= maxSize (config this) ->
  JsMap.size (cache (fst (set this key d ttl tags clk)))
    <= maxSize (config this).
Proof.
  intros Hwf Hlru Hcap. unfold set, bind, Date_now, ret. simpl.
  match goal with |- context [JsMap.set key ?e (cache this)] =>
    set (m := JsMap.set key e (cache this)) end.
  destruct (Z.gtb_spec (JsMap.size m) (maxSize (config this))) as [Hgt|Hle];
    simpl; [|exact Hle].
  match goal with |- context [cleanup ?c ?k] =>
    apply (cleanup_bound c k) end; simpl; auto.
  now apply JsMapFacts.wf_set.
Qed.

End CacheFacts.
End CacheFacts.

Module CacheClaims.
Import Cache.

Lemma run_sets_cons {T} (c : SetCall T) calls (this : AdvancedCache T) clk :
  fst (run_sets (c :: calls) this clk) =
  fst (set this (set_key c) (set_data c) (set_ttl c) (set_tags c) clk)
  :: fst (run_sets calls
            (fst (set this (set_key c) (set_data c) (set_ttl c) (set_tags c) clk))
            (snd (set this (set_key c) (set_data c) (set_ttl c) (set_tags c) clk))).
Proof.
  simpl. unfold bind at 1.
  destruct (set this _ _ _ _ clk) as [this' clk']. simpl.
  unfold bind at 1. destruct (run_sets calls this' clk'). reflexivity.
Qed.

(** C1, as stated, fails: with [enableLRU] off the eviction pass that
    [set] triggers only removes expired entries, and two insertions
    leave two entries in a cache whose [maxSize] is 1. *)
Lemma set_size_bound_fails_without_lru :
  ~ Forall (fun c : AdvancedCache nat =>
              JsMap.size (cache c) <= maxSize (config c))
      (fst (run_sets two_sets (new (one_entry_config false)) (frozen 0))).
Proof.
  intros H. inversion H as [|? ? _ H2]; subst.
  inversion H2 as [|? ? H3 _]; subst.
  vm_compute in H3. apply H3. reflexivity.
Qed.

(** C1, amended: on a cache with LRU eviction enabled and a capacity
    [maxSize >= 0], every [set] of any sequence of [set] calls leaves
    at most [maxSize] entries in the store, whatever the store held
    before (a [Map] has no repeated keys) and whatever the clock reads. *)
Theorem set_keeps_size_within_maxSize {T} (calls : list (SetCall T))
    (this : AdvancedCache T) (clk : Clock) :
  JsMap.wf (cache this) ->
  enableLRU (config this) = true ->
  0 <= maxSize (config this) ->
  length (fst (run_sets calls this clk)) = length calls /\
  Forall (fun c => JsMap.size (cache c) <= maxSize (config this))
         (fst (run_sets calls this clk)).
Proof.
  revert this clk.
  induction calls as [|c calls IH]; intros this clk Hwf Hlru Hcap.
  - split; [reflexivity | constructor].
  - rewrite run_sets_cons.
    set (this' := fst (set this (set_key c) (set_data c) (set_ttl c)
                            (set_tags c) clk)).
    set (clk' := snd (set this (set_key c) (set_data c) (set_ttl c)
                           (set_tags c) clk)).
    assert (Hcfg : config this' = config this) by apply CacheFacts.set_config.
    destruct (IH this' clk') as [Hlen Hall].
    + now apply CacheFacts.set_wf.
    + now rewrite Hcfg.
    + now rewrite Hcfg.
    + split; [simpl; now rewrite Hlen|].
      constructor.
      * now apply CacheFacts.set_bound.
      * now rewrite Hcfg in Hall.
Qed.

Lemma set_keeps_size_within_maxSize_witness :
  length (fst (run_sets two_sets (new (one_entry_config true)) (frozen 0)))
    = length two_sets /\
  Forall (fun c => JsMap.size (cache c)
                   <= maxSize (config (new (T := nat) (one_entry_config true))))
         (fst (run_sets two_sets (new (one_entry_config true)) (frozen 0))).
Proof.
  apply (set_keeps_size_within_maxSize two_sets
           (new (one_entry_config true)) (frozen 0)).
  - constructor.
  - reflexivity.
  - simpl. lia.
Defined.


Lemma get_after_set {T} (this : AdvancedCache T) key d ttl tags clk :
  let this' := fst (set this key d ttl tags clk) in
  JsMap.get key (cache this') = None \/
  exists e, JsMap.get key (cache this') = Some e /\
            timestamp e = clk 0%nat /\
            Cache.ttl e = ttl_or_default ttl (config this).
Proof.
  unfold set, bind, Date_now, ret. simpl.
  match goal with |- context [JsMap.set key ?e (cache this)] =>
    set (entry := e) end.
  assert (Hget : JsMap.get key (JsMap.set key entry (cache this)) = Some entry)
    by apply JsMapFacts.get_set_eq.
  destruct (_ >? _); simpl.
  - unfold cleanup, bind, Date_now, ret. simpl.
    destruct (enableLRU (config this) && _); simpl;
      repeat rewrite CacheFacts.get_delete_all;
      repeat match goal with |- context [if ?b then _ else _] =>
               destruct b end;
      auto; right; exists entry; auto.
  - right. exists entry. auto.
Qed.

Lemma get_expired_eq {T} (this : AdvancedCache T) key clk entry :
  JsMap.get key (cache this) = Some entry ->
  expired (clk 0%nat) entry = true ->
  fst (get this key clk) =
  (None, {| cache := JsMap.delete key (cache this); config := config this;
            hitCount := hitCount this; missCount := S (missCount this) |}).
Proof.
  intros Hget Hexp. unfold get. rewrite Hget.
  unfold bind, Date_now, ret. simpl. now rewrite Hexp.
Qed.

(** C4, as stated, fails for a TTL of 0: [set] stores
    [ttl || defaultTTL], so an entry stored with TTL 0 lives for
    [defaultTTL].  101 ms after [set("k", 7, 0)], which is more than
    0 ms after the entry was created, [get("k")] returns 7 and the
    entry stays in the store. *)
Lemma get_after_zero_ttl_is_a_hit :
  let stored :=
    fst (set (new DEFAULT_CACHE_CONFIG) "k" 7%nat (Some 0) [] (frozen 0)) in
  frozen 101 0%nat - frozen 0 0%nat > 0
  /\ fst (fst (get stored "k" (frozen 101))) = Some 7%nat
  /\ JsMap.has "k" (cache (snd (fst (get stored "k" (frozen 101))))) = true.
Proof. cbv zeta. split; [reflexivity | split; reflexivity]. Qed.

(** C4, amended: a [get] more than the stored [ttl] after the entry was
    created is a miss that removes the entry; a [get] on an absent key
    is a miss; [get] never returns the value of an expired entry.
    [get] is a total function, so none of these raises.  For an entry
    just stored by [set] with TTL [t] the stored [ttl] is [t] unless [t]
    is 0 or omitted, which stand for [defaultTTL]: read more than that
    after the [set], the key is a miss and is gone from the store
    afterwards; in particular more than [t] after it when [t] is not
    0. *)
Theorem get_never_returns_expired {T} (this : AdvancedCache T)
    (key : string) (clk : Clock) :
  let now := clk 0%nat in
  let result := fst (fst (get this key clk)) in
  let after := snd (fst (get this key clk)) in
  (forall entry,
      JsMap.get key (cache this) = Some entry ->
      now - timestamp entry > ttl entry ->
      result = None /\ JsMap.get key (cache after) = None /\
      missCount after = S (missCount this) /\ hitCount after = hitCount this)
  /\ (JsMap.get key (cache this) = None ->
      result = None /\ cache after = cache this /\
      missCount after = S (missCount this) /\ hitCount after = hitCount this)
  /\ (forall v, result = Some v ->
      exists entry, JsMap.get key (cache this) = Some entry /\
                    v = data entry /\ now - timestamp entry <= ttl entry)
  /\ (forall d t tags (clk0 : Clock),
      now - clk0 0%nat > ttl_or_default t (config this) ->
      let read := fst (get (fst (set this key d t tags clk0)) key clk) in
      fst read = None /\ JsMap.get key (cache (snd read)) = None)
  /\ (forall d (t : Z) tags (clk0 : Clock),
      t <> 0 -> now - clk0 0%nat > t ->
      let read := fst (get (fst (set this key d (Some t) tags clk0)) key clk) in
      fst read = None /\ JsMap.get key (cache (snd read)) = None).
Proof.
  assert (Hmiss : forall d t tags (clk0 : Clock),
             clk 0%nat - clk0 0%nat > ttl_or_default t (config this) ->
             let read :=
               fst (get (fst (set this key d t tags clk0)) key clk) in
             fst read = None /\ JsMap.get key (cache (snd read)) = None).
  { intros d t tags clk0 Hlate. cbv zeta.
    destruct (get_after_set this key d t tags clk0) as [E|[e [E [Hts Httl]]]].
    - unfold get. rewrite E. simpl. split; [reflexivity | exact E].
    - rewrite (get_expired_eq _ key clk e E).
      + simpl. split; [reflexivity | apply JsMapFacts.get_delete_eq].
      + unfold expired. rewrite Hts, Httl.
        destruct (Z.gtb_spec (clk 0%nat - clk0 0%nat)
                    (ttl_or_default t (config this))); [reflexivity | lia]. }
  cbv zeta. split; [|split; [|split; [|split]]].
  - intros entry Hget Hlate.
    rewrite (get_expired_eq this key clk entry Hget)
      by (unfold expired; destruct (Z.gtb_spec (clk 0%nat - timestamp entry)
                                      (ttl entry)); [reflexivity | lia]).
    simpl. repeat split. apply JsMapFacts.get_delete_eq.
  - intros Hget. unfold get. rewrite Hget. simpl. repeat split.
  - intros v. unfold get.
    destruct (JsMap.get key (cache this)) as [entry|]; [|discriminate].
    unfold bind, Date_now, ret, expired. simpl.
    destruct (Z.gtb_spec (clk 0%nat - timestamp entry) (ttl entry));
      simpl; [discriminate|].
    intros [= <-]. exists entry. repeat split; lia.
  - exact Hmiss.
  - intros d t tags clk0 Hnz Ht. apply Hmiss. simpl.
    destruct (Z.eqb_spec t 0); [contradiction | exact Ht].
Qed.

Lemma get_never_returns_expired_witness :
  (fst (fst (get ttl_example "k" (frozen 101))) = None
   /\ JsMap.get "k" (cache (snd (fst (get ttl_example "k" (frozen 101))))) = None)
  /\ fst (fst (get (new (T := nat) DEFAULT_CACHE_CONFIG) "k" (frozen 101))) = None
  /\ (exists entry, JsMap.get "k" (cache ttl_example) = Some entry /\
                    7%nat = data entry /\ 100 - timestamp entry <= ttl entry)
  /\ fst (fst (get (fst (set (new DEFAULT_CACHE_CONFIG) "k" 7%nat None []
                            (frozen 0))) "k" (frozen 300001))) = None
  /\ (fst (fst (get (fst (set (new DEFAULT_CACHE_CONFIG) "k" 7%nat (Some 100) []
                             (frozen 0))) "k" (frozen 101))) = None
      /\ JsMap.get "k"
           (cache (snd (fst (get (fst (set (new DEFAULT_CACHE_CONFIG) "k" 7%nat
                                           (Some 100) [] (frozen 0)))
                                 "k" (frozen 101))))) = None).
Proof.
  split; [|split; [|split; [|split]]].
  - destruct (get_never_returns_expired ttl_example "k" (frozen 101))
      as [H _].
    destruct (H {| data := 7%nat; timestamp := 0; ttl := 100; accessCount := 0;
                   lastAccessed := 0; tags := [] |})
      as [H1 [H2 _]]; [reflexivity | unfold frozen; simpl; lia | split; assumption].
  - destruct (get_never_returns_expired (new (T := nat) DEFAULT_CACHE_CONFIG)
                "k" (frozen 101)) as [_ [H _]].
    apply H. reflexivity.
  - destruct (get_never_returns_expired ttl_example "k" (frozen 100))
      as [_ [_ [H _]]].
    apply H. reflexivity.
  - destruct (get_never_returns_expired (new (T := nat) DEFAULT_CACHE_CONFIG)
                "k" (frozen 300001)) as [_ [_ [_ [H _]]]].
    apply (H 7%nat None [] (frozen 0)). unfold frozen. simpl. lia.
  - destruct (get_never_returns_expired (new (T := nat) DEFAULT_CACHE_CONFIG)
                "k" (frozen 101)) as [_ [_ [_ [_ H]]]].
    apply (H 7%nat 100 [] (frozen 0)); [discriminate | unfold frozen; simpl; lia].
Defined.


(** Settle the next comparison of two clock readings in the goal. *)
(** Settle the next comparison of clock readings in the goal. *)
Ltac decide_order clk :=
  match goal with
  | |- context [clk ?i - clk ?j >? ?b] =>
      destruct (Z.gtb_spec (clk i - clk j) b); [try lia | try lia]
  | |- context [clk ?i <=? clk ?j] =>
      destruct (Z.leb_spec (clk i) (clk j)); [try lia | try lia]
  end; simpl.

(** C5, amended: with [maxSize = 2], LRU eviction on and no expiry, on a
    clock that does not run backwards and reads a strictly later value
    at [get(a)] than at [set(b)], the calls [set(a); set(b); get(a);
    set(c)] evict exactly [b] and leave [a] and [c]; the hit on [a] set
    its [lastAccessed] to the time of the [get].  The calls read the
    clock eight times: [set(a)] takes readings 0 and 1 ([timestamp],
    [lastAccessed]), [set(b)] 2 and 3, [get(a)] 4, [set(c)] 5 and 6, and
    the eviction pass that [set(c)] triggers takes reading 7. *)
Theorem lru_evicts_least_recently_accessed {T} (va vb vc : T) (ttl : Z)
    (clk : Clock) :
  nondecreasing clk ->
  clk 3%nat < clk 4%nat ->
  clk 7%nat - clk 0%nat <= ttl ->
  cache (fst (lru_scenario (two_entry_config ttl) va vb vc clk)) =
    [ ("a", {| data := va; timestamp := clk 0%nat; Cache.ttl := ttl;
               accessCount := 1; lastAccessed := clk 4%nat; tags := [] |});
      ("c", {| data := vc; timestamp := clk 5%nat; Cache.ttl := ttl;
               accessCount := 0; lastAccessed := clk 6%nat; tags := [] |}) ]
  /\ contents (fst (lru_scenario (two_entry_config ttl) va vb vc clk)) =
     [("a", va); ("c", vc)].
Proof.
  intros Hmono Hlt Hlive.
  match goal with |- ?A = ?B /\ _ =>
    assert (E : A = B); [|split; [exact E | unfold contents; now rewrite E]]
  end.
  assert (H04 := Hmono 0%nat 4%nat ltac:(lia)).
  assert (H47 := Hmono 4%nat 7%nat ltac:(lia)).
  assert (H02 := Hmono 0%nat 2%nat ltac:(lia)).
  assert (H05 := Hmono 0%nat 5%nat ltac:(lia)).
  assert (H46 := Hmono 4%nat 6%nat ltac:(lia)).
  assert (H36 := Hmono 3%nat 6%nat ltac:(lia)).
  unfold lru_scenario, set, get, bind, Date_now, ret, JsMap.size. simpl.
  unfold expired; simpl.
  decide_order clk.
  unfold cleanup, bind, Date_now, ret, expired, JsMap.size. simpl.
  repeat decide_order clk. reflexivity.
Qed.

Lemma lru_evicts_least_recently_accessed_witness :
  cache (fst (lru_scenario (two_entry_config 300000) 1%nat 2%nat 3%nat
                (fun n => Z.of_nat n))) =
    [ ("a", {| data := 1%nat; timestamp := 0; Cache.ttl := 300000;
               accessCount := 1; lastAccessed := 4; tags := [] |});
      ("c", {| data := 3%nat; timestamp := 5; Cache.ttl := 300000;
               accessCount := 0; lastAccessed := 6; tags := [] |}) ]
  /\ contents (fst (lru_scenario (two_entry_config 300000) 1%nat 2%nat 3%nat
                      (fun n => Z.of_nat n))) =
     [("a", 1%nat); ("c", 3%nat)].
Proof.
  apply (lru_evicts_least_recently_accessed 1%nat 2%nat 3%nat 300000
           (fun n => Z.of_nat n)).
  - intros i j Hij. lia.
  - simpl. lia.
  - simpl. lia.
Defined.

(** C5, as stated, fails when the four calls run within one clock
    reading: all three entries then have the same [lastAccessed], the
    stable sort keeps insertion order, and the eviction removes [a]. *)
Lemma lru_scenario_same_instant_evicts_a :
  contents (fst (lru_scenario (two_entry_config 300000) 1%nat 2%nat 3%nat
                   (frozen 1000))) = [("b", 2%nat); ("c", 3%nat)]
  /\ contents (fst (lru_scenario (two_entry_config 300000) 1%nat 2%nat 3%nat
                      (frozen 1000))) <> [("a", 1%nat); ("c", 3%nat)].
Proof. split; [reflexivity | discriminate]. Qed.

(** C10, as stated, fails: [hitRate] is the double
    [(hitCount / total) * 100], and the rounding of the quotient shows
    in it.  After 1 hit in 3 lookups it is 33.33333333333333
    (2345624805922133 / 2^46): not [100 * 1 / 3], not the double
    nearest to that, and not what [100 * hitCount / total] gives in
    double arithmetic (both 33.333333333333336). *)
Lemma getStats_hitRate_is_rounded :
  (hitRate (getStats (counted 1 2)) == 2345624805922133 # 70368744177664)%Q
  /\ ~ (hitRate (getStats (counted 1 2)) == 100 * 1 / 3)%Q
  /\ ~ (hitRate (getStats (counted 1 2)) == Double.fl (100 * 1 / 3))%Q
  /\ ~ (hitRate (getStats (counted 1 2))
        == Double.div (Double.mul (inject_Z 100) (Double.of_nat 1))
                      (Double.of_nat 3))%Q.
Proof.
  repeat split; try (intros H; vm_compute in H; discriminate H).
Qed.

(** The rounding used here is the machine's: for all counters with
    [1 <= hitCount + missCount <= 40] the [hitRate] of [getStats] is
    the value that binary64 arithmetic computes. *)
Lemma getStats_hitRate_agrees_with_binary64 :
  Forall (fun p =>
            exists q, Double.value (Double.binary64_percentage (fst p) (snd p))
                      = Some q
                      /\ (hitRate (getStats (counted (fst p) (snd p))) == q)%Q)
         (Double.counter_pairs 40).
Proof.
  assert (Hb : forallb
                 (fun p =>
                    match Double.value
                            (Double.binary64_percentage (fst p) (snd p)) with
                    | Some q =>
                        Qeq_bool (hitRate (getStats (counted (fst p) (snd p)))) q
                    | None => false
                    end) (Double.counter_pairs 40) = true)
    by (vm_compute; reflexivity).
  apply List.Forall_forall. intros p Hp.
  apply (proj1 (forallb_forall _ _) Hb) in Hp.
  destruct (Double.value _) as [q|]; [|discriminate].
  exists q. split; [reflexivity | now apply Qeq_bool_iff].
Qed.

(** C10, amended: [hitRate] is [0] while nothing has been counted (no
    division takes place).  Otherwise, with counters below [2^53], it
    lies between 0 and 100 and is [100 * hitCount / total] up to the
    rounding of the division and of the multiplication, a relative
    error of at most [2^-51]; it is exactly 0 without a hit and exactly
    100 without a miss. *)
Theorem getStats_hitRate {T} (this : AdvancedCache T) :
  let total := (hitCount this + missCount this)%nat in
  let exact := (100 * count_Q (hitCount this) / count_Q total)%Q in
  (total = 0%nat -> hitRate (getStats this) = 0%Q)
  /\ ((0 < total)%nat -> Z.of_nat total < 2 ^ 53 ->
      (0 <= hitRate (getStats this))%Q
      /\ (hitRate (getStats this) <= 100)%Q
      /\ (exact * (1 - (1 # 2 ^ 51)) <= hitRate (getStats this))%Q
      /\ (hitRate (getStats this) <= exact * (1 + (1 # 2 ^ 51)))%Q
      /\ (hitCount this = 0%nat -> hitRate (getStats this) == 0)%Q
      /\ (missCount this = 0%nat -> hitRate (getStats this) == 100)%Q).
Proof.
  cbv zeta. unfold getStats, count_Q. cbn [hitRate].
  set (h := hitCount this). set (m := missCount this).
  split.
  - intros Hzero.
    assert (h = 0%nat) as -> by lia. assert (m = 0%nat) as -> by lia.
    reflexivity.
  - intros Hpos Hsmall.
    pose proof (DoubleFacts.of_nat_exact h ltac:(lia)) as Hh.
    pose proof (DoubleFacts.of_nat_exact m ltac:(lia)) as Hm.
    set (H := inject_Z (Z.of_nat h)) in *.
    set (N := inject_Z (Z.of_nat (h + m))).
    assert (HN : (0 < N)%Q).
    { unfold N. change 0%Q with (inject_Z 0). rewrite <- Zlt_Qlt. lia. }
    assert (HH : (0 <= H)%Q).
    { unfold H. change 0%Q with (inject_Z 0). rewrite <- Zle_Qle. lia. }
    assert (HHN : (H <= N)%Q) by (unfold H, N; rewrite <- Zle_Qle; lia).
    assert (Ht : (Double.add (Double.of_nat h) (Double.of_nat m) == N)%Q).
    { apply DoubleFacts.fl_integer; [lia|].
      rewrite Hh, Hm. unfold N. now rewrite Nat2Z.inj_add, inject_Z_plus. }
    set (t := Double.add (Double.of_nat h) (Double.of_nat m)) in *.
    assert (Hgt : Double.gt t (inject_Z 0) = true).
    { unfold Double.gt. destruct (Qle_bool t (inject_Z 0)) eqn:E; [|reflexivity].
      apply Qle_bool_iff in E. rewrite Ht in E.
      change (inject_Z 0) with 0%Q in E. lra. }
    rewrite Hgt. unfold Double.mul, Double.div.
    set (x := (Double.of_nat h / t)%Q).
    assert (Hx : (x == H / N)%Q) by (unfold x; now rewrite Hh, Ht).
    assert (Hx0 : (0 <= x)%Q).
    { rewrite Hx. apply Qle_shift_div_l; [exact HN | lra]. }
    assert (Hx1 : (x <= 1)%Q).
    { rewrite Hx. apply Qle_shift_div_r; [exact HN | lra]. }
    destruct (DoubleFacts.fl_error x Hx0) as [Hr1 Hr2].
    change (1 # 2 ^ 53)%Q with (1 # 9007199254740992)%Q in Hr1, Hr2.
    change (1 # 2 ^ 51)%Q with (1 # 2251799813685248)%Q.
    assert (One : (inject_Z 1 * Double.pow2 0 == 1)%Q) by reflexivity.
    assert (Hundred : (inject_Z 100 * Double.pow2 0 == 100)%Q) by reflexivity.
    assert (Hr : (Double.fl x <= inject_Z 1 * Double.pow2 0)%Q).
    { apply DoubleFacts.fl_le; [exact Hx0 | lia |]. now rewrite One. }
    rewrite One in Hr.
    set (r := Double.fl x) in *.
    assert (Hr0 : (0 <= r)%Q) by lra.
    change (inject_Z 100) with 100%Q.
    assert (Hy0 : (0 <= r * 100)%Q) by lra.
    destruct (DoubleFacts.fl_error (r * 100) Hy0) as [Hs1 Hs2].
    change (1 # 2 ^ 53)%Q with (1 # 9007199254740992)%Q in Hs1, Hs2.
    assert (Hs : (Double.fl (r * 100) <= inject_Z 100 * Double.pow2 0)%Q).
    { apply DoubleFacts.fl_le; [exact Hy0 | lia |]. rewrite Hundred. lra. }
    rewrite Hundred in Hs.
    set (s := Double.fl (r * 100)) in *.
    assert (Hexact : (100 * H / N == 100 * x)%Q).
    { rewrite Hx. unfold Qdiv. ring. }
    repeat split.
    + lra.
    + exact Hs.
    + rewrite Hexact. lra.
    + rewrite Hexact. lra.
    + intros Hnone.
      assert (E : (x == 0)%Q).
      { rewrite Hx. unfold H. rewrite Hnone. reflexivity. }
      lra.
    + intros Hall.
      assert (E : (x == inject_Z 1)%Q).
      { rewrite Hx. unfold H, N. replace (h + m)%nat with h by lia.
        apply Qmult_inv_r. intros E0. fold H in E0.
        assert (N == H)%Q by (unfold N, H; now replace (h + m)%nat with h by lia).
        lra. }
      assert (Er : (r == 1)%Q).
      { unfold r. apply (DoubleFacts.fl_integer x 1); [lia | exact E]. }
      unfold s. apply (DoubleFacts.fl_integer (r * 100) 100); [lia|].
      rewrite Er. reflexivity.
Qed.

Lemma getStats_hitRate_witness :
  ((0 <= hitRate (getStats (counted 1 2)))%Q
   /\ (hitRate (getStats (counted 1 2)) <= 100)%Q
   /\ (100 * count_Q 1 / count_Q 3 * (1 - (1 # 2 ^ 51))
       <= hitRate (getStats (counted 1 2)))%Q
   /\ (hitRate (getStats (counted 1 2))
       <= 100 * count_Q 1 / count_Q 3 * (1 + (1 # 2 ^ 51)))%Q)
  /\ hitRate (getStats (counted 0 0)) = 0%Q
  /\ (hitRate (getStats (counted 4 0)) == 100)%Q.
Proof.
  split; [|split].
  - destruct (getStats_hitRate (counted 1 2)) as [_ H].
    destruct H as (H1 & H2 & H3 & H4 & _); [simpl; lia | simpl; lia |].
    repeat split; assumption.
  - destruct (getStats_hitRate (counted 0 0)) as [H _].
    apply H. reflexivity.
  - destruct (getStats_hitRate (counted 4 0)) as [_ H].
    destruct H as (_ & _ & _ & _ & _ & H); [simpl; lia | simpl; lia |].
    apply H. reflexivity.
Defined.

End CacheClaims.

(** ** The retry executor *)

Module RetryFacts.
Import Retry.
Section RetryFacts.
Context {Err T W : Type}.
Implicit Types (config : RetryConfig Err) (h : Hook W)
  (operation : Operation Err T W).

Lemma count_invoked_app (tr1 tr2 : list Event) :
  count_invoked (tr1 ++ tr2) = (count_invoked tr1 + count_invoked tr2)%nat.
Proof. unfold count_invoked. now rewrite List.filter_app, length_app. Qed.

Lemma slept_app (tr1 tr2 : list Event) : slept (tr1 ++ tr2) = slept tr1 ++ slept tr2.
Proof. unfold slept. apply omap_app. Qed.

Lemma count_invoked_exhausted config start k :
  count_invoked (exhausted_trace config start k) = S k.
Proof.
  unfold exhausted_trace. rewrite count_invoked_app.
  replace (count_invoked [Invoked]) with 1%nat by reflexivity.
  enough (count_invoked (flat_map (retry_round config) (seq start k)) = k) by lia.
  revert start. induction k as [|k IH]; intros start; [reflexivity|].
  cbn [seq flat_map]. rewrite count_invoked_app, IH. reflexivity.
Qed.


(** An operation that keeps failing with a retryable error, tried
    while online with [k] retries left, is called [k + 1] times; the
    error of the last call is returned and the attempt counter of the
    operation is dropped. *)
Lemma retry_until_exhausted config classify operation operationId :
  retryCondition config = Some classify ->
  always_fails classify operation ->
  forall (k : nat) h fuel,
    Z.of_nat (default 0%nat (retryAttemptsRef h !! operationId)) + Z.of_nat k
      = maxRetries config ->
    (k < fuel)%nat ->
    exists e h',
      retryWithBackoff fuel config true operation operationId h
        = Some (inl e, h') /\
      trace h' = trace h ++
        exhausted_trace config
          (default 0%nat (retryAttemptsRef h !! operationId)) k /\
      retryAttemptsRef h' = delete operationId (retryAttemptsRef h) /\
      world h' = world_after operation (S k) (world h) /\
      fst (operation (world_after operation k (world h))) = inl e.
Proof.
  intros Hcond Hfails k.
  induction k as [|k IH]; intros h fuel Hleft Hfuel.
  - destruct fuel as [|fuel]; [lia|]. simpl.
    destruct (Hfails (world h)) as [e [He Hc]].
    destruct (operation (world h)) as [outcome w'] eqn:Eop.
    simpl in He. subst outcome.
    destruct (Z.ltb_spec
                (Z.of_nat (default 0%nat (retryAttemptsRef h !! operationId)))
                (maxRetries config)) as [Hlt|_]; [lia|].
    simpl. eexists _, _. split; [reflexivity|]. simpl.
    repeat split.
  - destruct fuel as [|fuel]; [lia|]. simpl.
    destruct (Hfails (world h)) as [e [He Hc]].
    destruct (operation (world h)) as [outcome w'] eqn:Eop.
    simpl in He. subst outcome.
    destruct (Z.ltb_spec
                (Z.of_nat (default 0%nat (retryAttemptsRef h !! operationId)))
                (maxRetries config)) as [_|Hge]; [|lia].
    unfold retryable. rewrite Hcond, Hc. simpl.
    set (attempts := default 0%nat (retryAttemptsRef h !! operationId)) in *.
    match goal with |- context [retryWithBackoff fuel _ _ _ _ ?x] =>
      set (h1 := x) end.
    assert (Hat : default 0%nat (retryAttemptsRef h1 !! operationId)
                  = S attempts).
    { unfold h1. simpl. now rewrite lookup_insert_eq. }
    destruct (IH h1 fuel) as [e' [h' [Hrun [Htr [Hmap [Hw He']]]]]].
    + rewrite Hat. lia.
    + lia.
    + exists e', h'. split; [exact Hrun|].
      rewrite Htr, Hmap, Hw, Hat. unfold h1. simpl.
      repeat split.
      * unfold exhausted_trace, retry_round. simpl.
        rewrite <- !app_assoc. reflexivity.
      * apply delete_insert_eq.
      * exact He'.
Qed.

End RetryFacts.
End RetryFacts.

Module RetryClaims.
Import Retry.

(** C2, as stated, fails: with [maxRetries = 3] an operation that
    always fails with a retryable error is called four times, the first
    call and three retries, before its error is surfaced. *)
Lemma retry_exhaustion_calls_four_times :
  option_map (fun r => (fst r, invocations (snd r)))
    (retryWithBackoff 10 (DEFAULT_RETRY_CONFIG retry_everything) true
       failing_op "fetch-markets" (fresh 0%nat))
  = Some (inl "network timeout", 4%nat)
  /\ (4 <> 3)%nat.
Proof. split; [vm_compute; reflexivity | discriminate]. Qed.

(** C2, amended: with [maxRetries = 3], online, an operation that always
    fails with a retryable error is called exactly four times (the
    first call and three retries); the executor then returns the error
    of the last call and no attempt counter is left for the operation
    id. *)
Theorem retry_exhaustion {Err T W} (config : RetryConfig Err)
    (classify : Err -> bool) (operation : Operation Err T W)
    (operationId : string) (h : Hook W) (fuel : nat) :
  maxRetries config = 3 ->
  retryCondition config = Some classify ->
  always_fails classify operation ->
  retryAttemptsRef h !! operationId = None ->
  (4 <= fuel)%nat ->
  exists e h',
    retryWithBackoff fuel config true operation operationId h
      = Some (inl e, h') /\
    invocations h' = (invocations h + 4)%nat /\
    fst (operation (world_after operation 3 (world h))) = inl e /\
    retryAttemptsRef h' !! operationId = None.
Proof.
  intros Hmax Hcond Hfails Hfresh Hfuel.
  destruct (RetryFacts.retry_until_exhausted config classify operation
              operationId Hcond Hfails 3 h fuel)
    as [e [h' [Hrun [Htr [Hmap [_ He]]]]]].
  - rewrite Hfresh, Hmax. reflexivity.
  - lia.
  - exists e, h'. split; [exact Hrun|]. split; [|split].
    + unfold invocations. rewrite Htr, RetryFacts.count_invoked_app.
      now rewrite RetryFacts.count_invoked_exhausted.
    + exact He.
    + rewrite Hmap. apply lookup_delete_eq.
Qed.

Lemma failing_op_always_fails : always_fails retry_everything failing_op.
Proof. intros w. exists "network timeout". split; reflexivity. Qed.

Lemma retry_exhaustion_witness :
  exists e h',
    retryWithBackoff 4 (DEFAULT_RETRY_CONFIG retry_everything) true
      failing_op "fetch-markets" (fresh 0%nat) = Some (inl e, h') /\
    invocations h' = (invocations (fresh 0%nat) + 4)%nat /\
    fst (failing_op (world_after failing_op 3 (world (fresh 0%nat)))) = inl e /\
    retryAttemptsRef h' !! "fetch-markets" = None.
Proof.
  apply (retry_exhaustion (DEFAULT_RETRY_CONFIG retry_everything)
           retry_everything failing_op "fetch-markets" (fresh 0%nat) 4).
  - reflexivity.
  - reflexivity.
  - exact failing_op_always_fails.
  - reflexivity.
  - lia.
Defined.



End RetryClaims.

(** ** The rate limiter *)

Module RateLimitClaims.
Import RateLimit.

Lemma Math_min_least (x : Z) (xs : list Z) : least (Math_min x xs) (x :: xs).
Proof.
  unfold Math_min, least. revert x.
  induction xs as [|y xs IH]; intros x; simpl.
  - split; [now left | intros y [<-|[]]; lia].
  - destruct (IH (Z.min x y)) as [Hin Hle]. split.
    + destruct Hin as [E|Hin]; [|now right; right].
      rewrite <- E. destruct (Z.min_spec x y) as [[_ ->]|[_ ->]]; auto.
    + intros z Hz.
      assert (Hmin : fold_left Z.min xs (Z.min x y) <= Z.min x y)
        by (apply Hle; now left).
      destruct Hz as [<-|[<-|Hz]]; [lia | lia |].
      apply Hle. now right.
Qed.

(** C9, as stated, fails in its second half: with no request recorded
    [getResetTime] returns 0, not the current time. *)
Lemma getResetTime_empty_is_not_now :
  getResetTime (useRateLimit None None) = 0
  /\ getResetTime (useRateLimit None None)
     <> fst (Date_now (frozen 1700000000000)).
Proof. split; [reflexivity | discriminate]. Qed.

(** C9, amended: when requests are recorded [getResetTime] is the
    oldest recorded timestamp plus [windowMs]; when none is recorded it
    is 0. *)
Theorem getResetTime_oldest_plus_window (l : Limiter) :
  (requestsRef l = [] -> getResetTime l = 0)
  /\ (requestsRef l <> [] ->
      exists oldest, least oldest (requestsRef l) /\
                     getResetTime l = oldest + windowMs l).
Proof.
  unfold getResetTime. split.
  - intros ->. reflexivity.
  - intros Hne. destruct (requestsRef l) as [|t ts]; [contradiction|].
    exists (Math_min t ts). split; [apply Math_min_least | reflexivity].
Qed.

Lemma getResetTime_oldest_plus_window_witness :
  getResetTime (useRateLimit None None) = 0
  /\ exists oldest,
       least oldest [5000; 3000; 9000] /\
       getResetTime {| maxRequests := 5; windowMs := 60000;
                       requestsRef := [5000; 3000; 9000] |}
         = oldest + 60000.
Proof.
  split.
  - apply (getResetTime_oldest_plus_window (useRateLimit None None)).
    reflexivity.
  - apply (getResetTime_oldest_plus_window
             {| maxRequests := 5; windowMs := 60000;
                requestsRef := [5000; 3000; 9000] |}).
    discriminate.
Defined.

End RateLimitClaims.

(** ** The streaming connection hook *)

Module WSFacts.
Import WS.

Lemma schedule_subscriptions_spec subs h :
  timers (schedule_subscriptions subs h)
    = timers h ++ subscription_timers (nextTimer h) subs
  /\ nextTimer (schedule_subscriptions subs h)
     = (nextTimer h + length subs)%nat
  /\ wsRef (schedule_subscriptions subs h) = wsRef h
  /\ heartbeatTimeoutRef (schedule_subscriptions subs h)
     = heartbeatTimeoutRef h
  /\ state (schedule_subscriptions subs h) = state h.
Proof.
  unfold schedule_subscriptions. revert h.
  induction subs as [|s subs IH]; intros h; simpl.
  - rewrite app_nil_r, Nat.add_0_r. repeat split.
  - destruct (IH (snd (set_timer false (cb_subscribe s) 100 h)))
      as (Ht & Hn & Hw & Hb & Hs).
    simpl in *. rewrite Ht, Hn, Hw, Hb, Hs, <- app_assoc.
    repeat split. lia.
Qed.

Lemma subscription_timers_callbacks n subs :
  map callback (subscription_timers n subs) = map cb_subscribe subs.
Proof.
  revert n. induction subs as [|s subs IH]; intros n; simpl;
    [reflexivity | now rewrite IH].
Qed.

Lemma subscription_timers_pending n subs keep :
  (forall t, In t (subscription_timers n subs) -> keep t = true) ->
  List.filter keep (subscription_timers n subs) = subscription_timers n subs.
Proof.
  intros H. induction (subscription_timers n subs) as [|t l IH]; simpl;
    [reflexivity|].
  rewrite (H t) by now left. f_equal. apply IH.
  intros t' Ht'. apply H. now right.
Qed.

Lemma subscription_timers_ids n subs t :
  In t (subscription_timers n subs) ->
  (n <= timer_id t)%nat /\ repeating t = false.
Proof.
  revert n. induction subs as [|s subs IH]; intros n; simpl; [tauto|].
  intros [<-|Hin]; [simpl; split; [lia | reflexivity]|].
  destruct (IH (S n) Hin). split; [lia | assumption].
Qed.

Lemma filter_comm {A} (P Q : A -> bool) (l : list A) :
  List.filter P (List.filter Q l) = List.filter Q (List.filter P l).
Proof.
  induction l as [|x l IH]; simpl; [reflexivity|].
  destruct (P x) eqn:EP, (Q x) eqn:EQ; simpl; rewrite ?EP, ?EQ, IH; reflexivity.
Qed.

(** After [handleOpen] on a settled hook the pending [setTimeout]
    callbacks are the subscriptions of the configuration, in order. *)
Lemma handleOpen_pending config h :
  settled h ->
  List.filter (fun t => negb (repeating t)) (timers (handleOpen config h))
    = subscription_timers (nextTimer h) (subscriptions config)
  /\ wsRef (handleOpen config h) = wsRef h.
Proof.
  intros [Hquiet Hid]. unfold handleOpen.
  set (h1 := setState _ h).
  destruct (schedule_subscriptions_spec (subscriptions config) h1)
    as (Ht & Hn & Hw & Hb & Hs).
  set (h2 := schedule_subscriptions (subscriptions config) h1) in *.
  change (timers h1) with (timers h) in Ht.
  change (nextTimer h1) with (nextTimer h) in Ht, Hn.
  change (wsRef h1) with (wsRef h) in Hw.
  change (heartbeatTimeoutRef h1) with (heartbeatTimeoutRef h) in Hb.
  rewrite Hb.
  assert (Hnew : forall keep,
             (forall t, In t (subscription_timers (nextTimer h)
                                (subscriptions config)) -> keep t = true) ->
             List.filter (fun t => negb (repeating t))
               (List.filter keep (timers h2))
             = subscription_timers (nextTimer h) (subscriptions config)).
  { intros keep Hkeep. rewrite filter_comm, Ht, List.filter_app, Hquiet.
    simpl. rewrite subscription_timers_pending.
    - now apply subscription_timers_pending.
    - intros t Hin. apply subscription_timers_ids in Hin as [_ ->].
      reflexivity. }
  destruct (heartbeatTimeoutRef h) as [id|] eqn:Ehb; simpl.
  - rewrite List.filter_app. simpl. rewrite app_nil_r. split; [|exact Hw].
    apply Hnew. intros t Hin.
    apply subscription_timers_ids in Hin as [Hge _].
    specialize (Hid id eq_refl).
    apply negb_true_iff, Nat.eqb_neq. lia.
  - rewrite List.filter_app. simpl. rewrite app_nil_r. split; [|exact Hw].
    rewrite <- (Hnew (fun _ => true)) by reflexivity.
    f_equal. symmetry. clear. induction (timers h2) as [|t l IH]; simpl;
      [reflexivity | now rewrite IH].
Qed.

(** On an open socket the subscribe callbacks send their frames. *)
Lemma fire_all_subscribe subs h sent clk :
  wsRef h = Some {| readyState := OPEN; outbox := sent |} ->
  wsRef (fst (fire_all (map cb_subscribe subs) h clk))
    = Some {| readyState := OPEN;
              outbox := sent ++ map SubscribeFrame subs |}.
Proof.
  revert h sent. induction subs as [|s subs IH]; intros h sent Hws; simpl.
  - now rewrite app_nil_r.
  - unfold bind, ret, subscribe, sendMessage. rewrite Hws. simpl.
    rewrite (IH _ (sent ++ [SubscribeFrame s])) by reflexivity.
    now rewrite <- app_assoc.
Qed.

Lemma sendPing_keeps h clk :
  state (fst (sendPing h clk)) = state h
  /\ timers (fst (sendPing h clk)) = timers h
  /\ reconnectTimeoutRef (fst (sendPing h clk)) = reconnectTimeoutRef h
  /\ is_open (fst (sendPing h clk)) = is_open h.
Proof.
  unfold sendPing, is_open.
  destruct (wsRef h) as [[[] sent]|] eqn:E; simpl; repeat split;
    unfold sendMessage; simpl; rewrite ?E; reflexivity.
Qed.

Lemma heartbeats_keep n h clk :
  state (fst (heartbeats n h clk)) = state h
  /\ timers (fst (heartbeats n h clk)) = timers h
  /\ reconnectTimeoutRef (fst (heartbeats n h clk)) = reconnectTimeoutRef h
  /\ is_open (fst (heartbeats n h clk)) = is_open h.
Proof.
  revert h clk. induction n as [|n IH]; intros h clk; simpl;
    [repeat split|].
  unfold bind. destruct (sendPing h clk) as [h' clk'] eqn:E.
  destruct (IH h' clk') as (Hs & Ht & Hr & Ho).
  destruct (sendPing_keeps h clk) as (Hs' & Ht' & Hr' & Ho').
  rewrite E in Hs', Ht', Hr', Ho'. simpl in *.
  rewrite Hs, Ht, Hr, Ho. repeat split; assumption.
Qed.

Lemma sendMessage_keeps message h :
  state (snd (sendMessage message h)) = state h
  /\ timers (snd (sendMessage message h)) = timers h.
Proof.
  unfold sendMessage. destruct (wsRef h) as [[[] sent]|]; split; reflexivity.
Qed.

Lemma handleOpen_wsRef config h : wsRef (handleOpen config h) = wsRef h.
Proof.
  unfold handleOpen.
  destruct (schedule_subscriptions_spec (subscriptions config)
              (setState (fun prev =>
                 with_reconnectCount 0
                   (with_error None
                      (with_isConnecting false (with_isConnected true prev))))
                 h)) as (_ & _ & Hw & _ & _).
  destruct (heartbeatTimeoutRef _); simpl; exact Hw.
Qed.

Lemma handleOpen_state config h :
  reconnectCount (state (handleOpen config h)) = 0%nat
  /\ isConnected (state (handleOpen config h)) = true.
Proof.
  unfold handleOpen.
  destruct (heartbeatTimeoutRef _); simpl;
    rewrite (proj2 (proj2 (proj2 (proj2
               (schedule_subscriptions_spec _ _))))); split; reflexivity.
Qed.

(** [handleOpen] starts the heartbeat: an interval timer that calls
    [sendPing] every [heartbeatInterval], named by the heartbeat ref. *)
Lemma handleOpen_heartbeat config h :
  heartbeatTimeoutRef (handleOpen config h)
    = Some (nextTimer h + length (subscriptions config))%nat
  /\ In {| timer_id := (nextTimer h + length (subscriptions config))%nat;
           repeating := true; delay := heartbeatInterval config;
           callback := cb_sendPing |} (timers (handleOpen config h)).
Proof.
  unfold handleOpen.
  set (h1 := setState _ h).
  destruct (schedule_subscriptions_spec (subscriptions config) h1)
    as (_ & Hn & _ & _ & _).
  set (h2 := schedule_subscriptions (subscriptions config) h1) in *.
  change (nextTimer h1) with (nextTimer h) in Hn.
  destruct (heartbeatTimeoutRef h2); simpl; rewrite Hn;
    (split; [reflexivity | apply in_or_app; right; now left]).
Qed.

Lemma handleClose_wsRef config seen code h :
  wsRef (handleClose config seen code h) = wsRef h.
Proof.
  unfold handleClose.
  destruct (heartbeatTimeoutRef _); simpl;
    destruct (negb (code =? 1000) && _); simpl; try reflexivity;
    destruct (_ >=? _); reflexivity.
Qed.

Lemma handleClose_disconnects config seen code h :
  isConnected (state (handleClose config seen code h)) = false.
Proof.
  unfold handleClose.
  destruct (heartbeatTimeoutRef _); simpl;
    destruct (negb (code =? 1000) && _); simpl; try reflexivity;
    destruct (_ >=? _); reflexivity.
Qed.

Lemma sendMessage_not_open message h :
  is_open h = false -> sendMessage message h = (false, h).
Proof.
  unfold is_open, sendMessage.
  destruct (wsRef h) as [[[] sent]|]; intros; try reflexivity; discriminate.
Qed.

(** On a socket that is not open no callback sends anything. *)
Lemma fire_all_not_open cbs h clk :
  is_open h = false -> sent_frames h = [] ->
  is_open (fst (fire_all cbs h clk)) = false
  /\ sent_frames (fst (fire_all cbs h clk)) = [].
Proof.
  revert h clk. induction cbs as [|cb cbs IH]; intros h clk Hopen Hsent;
    [split; assumption|].
  simpl. unfold bind.
  destruct (fire cb h clk) as [h' clk'] eqn:E.
  assert (Hh' : is_open h' = false /\ sent_frames h' = []).
  { destruct cb; simpl in E.
    - unfold ret, subscribe in E.
      rewrite (sendMessage_not_open _ h Hopen) in E. injection E as <- _.
      split; assumption.
    - unfold sendPing in E. rewrite Hopen in E. injection E as <- _.
      split; assumption.
    - unfold ret, connect in E. rewrite Hopen in E. injection E as <- _.
      split; reflexivity. }
  destruct Hh' as [Ho Hs]. now apply IH.
Qed.

Lemma sendPing_open h clk :
  is_open h = true ->
  pingTimeRef (fst (sendPing h clk)) = clk 0%nat
  /\ sent_frames (fst (sendPing h clk)) = sent_frames h ++ [PingFrame]
  /\ is_open (fst (sendPing h clk)) = true.
Proof.
  unfold sendPing, is_open, sent_frames.
  destruct (wsRef h) as [[[] sent]|] eqn:E; try discriminate. intros _.
  unfold bind, Date_now, ret, sendMessage. simpl. rewrite E. simpl.
  repeat split.
Qed.

Lemma heartbeats_sent n h clk :
  is_open h = true ->
  sent_frames (fst (heartbeats n h clk)) = sent_frames h ++ repeat PingFrame n.
Proof.
  revert h clk. induction n as [|n IH]; intros h clk Hopen; simpl;
    [now rewrite app_nil_r|].
  unfold bind. destruct (sendPing h clk) as [h' clk'] eqn:E.
  destruct (sendPing_open h clk Hopen) as (_ & Hsent & Hopen').
  rewrite E in Hsent, Hopen'. simpl in Hsent, Hopen'.
  rewrite IH by exact Hopen'. rewrite Hsent, <- app_assoc. reflexivity.
Qed.

(** Only a close reported by the socket and a call of [disconnect] or
    [reconnect] take the hook out of the connected state. *)
Lemma connected_until_close config ev h clk :
  isConnected (state h) = true ->
  isConnected (state (fst (step config ev h clk))) = false ->
  close_or_disconnect ev.
Proof.
  intros Hc.
  destruct ev; cbn [step close_or_disconnect]; try (intros _; exact I);
    unfold ret; cbn [fst].
  - unfold socket_opened.
    destruct (wsRef h); [|congruence].
    rewrite (proj2 (handleOpen_state config _)). discriminate.
  - unfold handleError. simpl. congruence.
  - unfold handleMessage.
    destruct event as [d|]; [destruct (bool_decide _)|];
      unfold bind, Date_now, ret; simpl; congruence.
  - destruct cb; cbn [fire]; unfold ret; cbn [fst].
    + unfold subscribe. rewrite (proj1 (sendMessage_keeps _ h)). congruence.
    + rewrite (proj1 (sendPing_keeps h clk)). congruence.
    + unfold connect. destruct (is_open h); simpl; congruence.
  - unfold connect. destruct (is_open h); simpl; congruence.
  - unfold subscribe. rewrite (proj1 (sendMessage_keeps _ h)). congruence.
  - unfold unsubscribe. rewrite (proj1 (sendMessage_keeps _ h)). congruence.
  - rewrite (proj1 (sendMessage_keeps _ h)). congruence.
Qed.

(** One failed reconnection of the chain that starts at [mount]. *)
Lemma failed_reconnect_round config code (m : Mounted) clk :
  code <> 1000 -> 0 < reconnectAttempts config ->
  connecting_again m ->
  let closed := closes config code m in
  let again := fst (timeouts_fire closed clk) in
  pending_reconnect_delay (hook closed) = Some (reconnectInterval config)
  /\ connecting_again again
  /\ reconnectCount (state (hook again)) = S (reconnectCount (state (hook m)))
  /\ onErrorCalls (hook again) = onErrorCalls (hook m).
Proof.
  intros Hcode Hlimit (Hseen & Hws & Htimers & Hhb).
  destruct m as [h seen]. simpl in *. subst seen.
  destruct h as [st ws rt hb pt tm nt oe om]. simpl in *. subst ws tm hb.
  cbv zeta.
  unfold closes, socket_closed, handleClose, timeouts_fire, run_timeouts,
    pending_reconnect_delay, connecting_again. simpl.
  destruct (Z.eqb_spec code 1000) as [|_]; [contradiction|].
  change (Z.of_nat 0) with 0.
  destruct (Z.ltb_spec 0 (reconnectAttempts config)) as [_|]; [|lia].
  simpl. unfold bind, ret, reconnectDelay. simpl.
  change (2 ^ 0) with 1. rewrite Z.mul_1_r. repeat split.
Qed.

End WSFacts.

Module WSClaims.
Import WS.

(** C6, as stated, fails: [subscribe] keeps no subscription set.  Two
    calls before the hook connects send nothing and leave nothing
    behind, so the next successful connect sends no subscribe frame for
    that subscription; two calls on an open socket send two frames. *)
Lemma subscribe_twice_is_not_replayed :
  subscribe_frames_for trades_BTC
    (fst (subscribe_twice_then_connect DEFAULT_CONFIG trades_BTC (frozen 0)))
    = 0%nat
  /\ subscribe_frames_for trades_BTC
       (snd (subscribe trades_BTC
               (snd (subscribe trades_BTC (connected DEFAULT_CONFIG)))))
     = 2%nat.
Proof. split; reflexivity. Qed.

(** C6, amended: [subscribe] sends one subscribe frame when the socket
    is open and does nothing otherwise, so two calls on an open socket
    send two frames.  A successful connect of a hook that has no timer
    call pending sets one timer of 100 ms for every entry of
    [config.subscriptions], in order, each calling [subscribe] for its
    entry, and sends nothing at once.  When the socket is still open as
    these timers fire, the frames sent are exactly one subscribe frame
    per entry, in the order of the list, and nothing for subscriptions
    that were only passed to [subscribe]; when the socket has closed
    before the timers fire, nothing is sent. *)
Theorem connect_replays_config_subscriptions (config : WebSocketConfig)
    (s : WSSubscription) (h : Hook) (seen : nat) (code : Z) (clk : Clock) :
  (is_open h = false -> subscribe s h = (false, h))
  /\ (is_open h = true ->
      sent_frames (snd (subscribe s (snd (subscribe s h))))
        = sent_frames h ++ [SubscribeFrame s; SubscribeFrame s])
  /\ (is_open h = false -> settled h ->
      let opened := socket_opened config (connect h) in
      List.filter (fun t => negb (repeating t)) (timers opened)
        = subscription_timers (nextTimer h) (subscriptions config)
      /\ sent_frames opened = []
      /\ sent_frames (fst (run_timeouts opened clk))
         = map SubscribeFrame (subscriptions config))
  /\ (is_open h = false ->
      sent_frames
        (fst (run_timeouts
                (socket_closed config seen code
                   (socket_opened config (connect h))) clk)) = []).
Proof.
  split; [|split; [|split]].
  - unfold is_open, subscribe, sendMessage.
    destruct (wsRef h) as [[[] sent]|]; intros; try reflexivity; discriminate.
  - unfold is_open, subscribe, sendMessage, sent_frames.
    destruct (wsRef h) as [[[] sent]|]; intros; try discriminate.
    simpl. now rewrite <- app_assoc.
  - intros Hclosed Hsettled. cbv zeta.
    unfold connect. rewrite Hclosed. unfold socket_opened. simpl.
    match goal with |- context [handleOpen config ?x] => set (h1 := x) end.
    assert (Hs1 : settled h1) by exact Hsettled.
    destruct (WSFacts.handleOpen_pending config h1 Hs1) as [Hpending Hws].
    split; [exact Hpending|]. split.
    + unfold sent_frames. now rewrite Hws.
    + unfold run_timeouts.
      rewrite Hpending, WSFacts.subscription_timers_callbacks.
      unfold sent_frames.
      rewrite (WSFacts.fire_all_subscribe (subscriptions config) _ [] clk);
        [reflexivity | exact Hws].
  - intros Hclosed.
    unfold connect. rewrite Hclosed. unfold socket_opened. simpl.
    match goal with |- context [handleOpen config ?x] => set (h1 := x) end.
    pose proof (WSFacts.handleOpen_wsRef config h1) as Hws.
    change (wsRef h1) with (Some {| readyState := OPEN; outbox := [] |}) in Hws.
    unfold socket_closed. rewrite Hws.
    match goal with |- context [handleClose config seen code ?x] =>
      set (h2 := x) end.
    pose proof (WSFacts.handleClose_wsRef config seen code h2) as Hws2.
    change (wsRef h2)
      with (Some {| readyState := CLOSED; outbox := [] |}) in Hws2.
    unfold run_timeouts.
    apply WSFacts.fire_all_not_open.
    + unfold is_open. simpl. now rewrite Hws2.
    + unfold sent_frames. simpl. now rewrite Hws2.
Qed.

Lemma initial_settled : settled initial.
Proof. split; [reflexivity | discriminate]. Qed.

(** With the subscriptions [allMids] and [trades]/BTC configured: the
    first connect sends these two frames, in this order, once the
    timers have fired, and none if the socket closed before. *)
Lemma connect_replays_config_subscriptions_witness :
  subscribe trades_BTC initial = (false, initial)
  /\ sent_frames (snd (subscribe trades_BTC
                        (snd (subscribe trades_BTC
                                (connected two_subscriptions)))))
     = sent_frames (connected two_subscriptions)
       ++ [SubscribeFrame trades_BTC; SubscribeFrame trades_BTC]
  /\ sent_frames (fst (run_timeouts
                        (socket_opened two_subscriptions (connect initial))
                        (frozen 0)))
     = [SubscribeFrame all_mids; SubscribeFrame trades_BTC]
  /\ sent_frames
       (fst (run_timeouts
               (socket_closed two_subscriptions 0 1006
                  (socket_opened two_subscriptions (connect initial)))
               (frozen 0))) = [].
Proof.
  split; [|split; [|split]].
  - apply (connect_replays_config_subscriptions two_subscriptions trades_BTC
             initial 0 1006 (frozen 0)). reflexivity.
  - apply (connect_replays_config_subscriptions two_subscriptions trades_BTC
             (connected two_subscriptions) 0 1006 (frozen 0)). reflexivity.
  - destruct (connect_replays_config_subscriptions two_subscriptions
                trades_BTC initial 0 1006 (frozen 0)) as (_ & _ & H & _).
    destruct (H eq_refl initial_settled) as (_ & _ & Hsent). exact Hsent.
  - apply (connect_replays_config_subscriptions two_subscriptions trades_BTC
             initial 0 1006 (frozen 0)). reflexivity.
Defined.

(** C7, as stated, fails: the hook has no pong deadline.  With the
    default 30 s heartbeat, four pings go out at 0, 30, 60 and 90 s
    without a pong and the hook is still connected with no reconnection
    scheduled; no number of silent heartbeats ever changes that. *)
Lemma silent_connection_stays_connected :
  (let h := fst (heartbeats 4 (connected DEFAULT_CONFIG) every_30s) in
   isConnected (state h) = true /\ reconnect_pending h = false /\
   pingTimeRef h = 90000 /\
   sent_frames h = [PingFrame; PingFrame; PingFrame; PingFrame])
  /\ ~ (exists n clk,
          isConnected (state (fst (heartbeats n (connected DEFAULT_CONFIG) clk)))
            = false).
Proof.
  split; [repeat split|].
  intros (n & clk & H).
  destruct (WSFacts.heartbeats_keep n (connected DEFAULT_CONFIG) clk) as [Hs _].
  rewrite Hs in H. discriminate.
Qed.

(** C7, amended: on open the hook starts an interval timer that calls
    [sendPing] every [heartbeatInterval]; on an open socket [sendPing]
    records its send time and sends one ping, and a pong only sets
    [latency] to the time since then.  There is no pong deadline:
    heartbeats without a pong, however many, send their pings and leave
    the connection state, the reconnect counter and the timers as they
    are, so no reconnection is started.  Of all that can happen to the
    hook, only a close reported by the socket and a call of
    [disconnect] or [reconnect] take it out of the connected state,
    and each of these does. *)
Theorem heartbeat_has_no_pong_deadline (config : WebSocketConfig)
    (h : Hook) (n seen : nat) (code : Z) (ev : Event) (clk : Clock) :
  (heartbeatTimeoutRef (handleOpen config h)
     = Some (nextTimer h + length (subscriptions config))%nat
   /\ In {| timer_id := (nextTimer h + length (subscriptions config))%nat;
            repeating := true; delay := heartbeatInterval config;
            callback := cb_sendPing |} (timers (handleOpen config h)))
  /\ (is_open h = true ->
      pingTimeRef (fst (sendPing h clk)) = clk 0%nat
      /\ sent_frames (fst (sendPing h clk)) = sent_frames h ++ [PingFrame]
      /\ sent_frames (fst (heartbeats n h clk))
         = sent_frames h ++ repeat PingFrame n)
  /\ state (fst (heartbeats n h clk)) = state h
  /\ timers (fst (heartbeats n h clk)) = timers h
  /\ reconnect_pending (fst (heartbeats n h clk)) = reconnect_pending h
  /\ state (fst (handleMessage
                   (Some {| p_method := Some "pong"; p_channel := None;
                            p_data := None |}) h clk))
     = {| isConnected := isConnected (state h);
          isConnecting := isConnecting (state h);
          lastMessage := lastMessage (state h);
          error := error (state h);
          reconnectCount := reconnectCount (state h);
          latency := clk 0%nat - pingTimeRef h |}
  /\ timers (fst (handleMessage
                    (Some {| p_method := Some "pong"; p_channel := None;
                             p_data := None |}) h clk)) = timers h
  /\ (isConnected (state h) = true ->
      isConnected (state (fst (step config ev h clk))) = false ->
      close_or_disconnect ev)
  /\ isConnected (state (socket_closed config seen code h)) = false
  /\ isConnected (state (disconnect h)) = false
  /\ isConnected (state (reconnect h)) = false.
Proof.
  destruct (WSFacts.heartbeats_keep n h clk) as (Hs & Ht & _ & _).
  split; [apply WSFacts.handleOpen_heartbeat|].
  split.
  { intros Hopen.
    destruct (WSFacts.sendPing_open h clk Hopen) as (Hp & Hsent & _).
    repeat split; [exact Hp | exact Hsent |].
    now apply WSFacts.heartbeats_sent. }
  split; [exact Hs|]. split; [exact Ht|]. split.
  { unfold reconnect_pending. now rewrite Ht. }
  split; [reflexivity|]. split; [reflexivity|].
  split; [apply WSFacts.connected_until_close|].
  split; [|split; reflexivity].
  unfold socket_closed.
  destruct (wsRef h); apply WSFacts.handleClose_disconnects.
Qed.

(** How [handleClose] computes the delay: from the count [n] that the
    handler holds, as [reconnectInterval * 2^n], for a close with a
    code other than 1000 and [n] below [reconnectAttempts]; the
    counter of the state is incremented.  [handleOpen] sets the counter
    to zero. *)
Lemma handleClose_delay_from_held_count (config : WebSocketConfig)
    (seen : nat) (code : Z) (h : Hook) :
  (code <> 1000 -> Z.of_nat seen < reconnectAttempts config ->
   let h' := handleClose config seen code h in
   reconnectTimeoutRef h' = Some (nextTimer h)
   /\ In {| timer_id := nextTimer h; repeating := false;
            delay := reconnectInterval config * 2 ^ Z.of_nat seen;
            callback := cb_connect |} (timers h')
   /\ reconnectCount (state h') = S (reconnectCount (state h))
   /\ isConnected (state h') = false)
  /\ reconnectCount (state (handleOpen config h)) = 0%nat
  /\ isConnected (state (handleOpen config h)) = true.
Proof.
  split; [|apply WSFacts.handleOpen_state].
  intros Hcode Hseen. cbv zeta. unfold handleClose.
  destruct (Z.eqb_spec code 1000) as [|_]; [contradiction|].
  destruct (Z.ltb_spec (Z.of_nat seen) (reconnectAttempts config)) as [_|];
    [|lia].
  simpl. destruct (heartbeatTimeoutRef h); simpl;
    repeat split; apply in_or_app; right; now left.
Qed.

Lemma failed_reconnects_S (config : WebSocketConfig) (code : Z) (n : nat)
    (m : Mounted) (clk : Clock) :
  fst (failed_reconnects config code (S n) m clk)
  = let closed := closes config code m in
    let again := timeouts_fire closed clk in
    let rest := fst (failed_reconnects config code n (fst again) (snd again)) in
    (pending_reconnect_delay (hook closed) :: fst rest, snd rest).
Proof.
  cbn [failed_reconnects]. unfold bind.
  destruct (timeouts_fire (closes config code m) clk) as [again clk'].
  cbn [fst snd].
  destruct (failed_reconnects config code n again clk') as [[ds m'] clk''].
  reflexivity.
Qed.

Lemma failed_reconnects_from (config : WebSocketConfig) (code : Z) (n : nat)
    (m : Mounted) (clk : Clock) :
  code <> 1000 -> 0 < reconnectAttempts config ->
  connecting_again m ->
  let run := fst (failed_reconnects config code n m clk) in
  fst run = repeat (Some (reconnectInterval config)) n
  /\ connecting_again (snd run)
  /\ reconnectCount (state (hook (snd run)))
     = (reconnectCount (state (hook m)) + n)%nat
  /\ onErrorCalls (hook (snd run)) = onErrorCalls (hook m).
Proof.
  intros Hcode Hlimit. revert m clk.
  induction n as [|n IH]; intros m clk Hm; cbv zeta.
  - simpl. rewrite Nat.add_0_r.
    split; [reflexivity | split; [exact Hm | split; reflexivity]].
  - rewrite failed_reconnects_S. cbv zeta. cbn [fst snd].
    destruct (WSFacts.failed_reconnect_round config code m clk Hcode Hlimit Hm)
      as (Hdelay & Hagain & Hcount & Herr).
    destruct (IH _ (snd (timeouts_fire (closes config code m) clk)) Hagain)
      as (IHd & IHa & IHc & IHe).
    rewrite Hdelay, IHd, IHc, IHe, Hcount, Herr.
    split; [reflexivity | split; [exact IHa | split; [lia | reflexivity]]].
Qed.

(** C8, where the code goes wrong.  The hook connects on mount; then the
    connection fails [n] times in a row, each time with a close code
    other than 1000 before the socket has opened.  The counter of the
    state goes up to [n], but the handler reads the count of the render
    that made it, which is 0 every time: every reconnection is set
    after [reconnectInterval], where the formula that the handler
    applies to the counter gives [reconnectInterval * 2^k] for the
    attempt [k]; and the handler never sees the limit
    [reconnectAttempts] reached, so it reconnects without end and never
    reports that it gave up. *)
Theorem own_reconnects_do_not_back_off (config : WebSocketConfig) (code : Z)
    (n : nat) (clk : Clock) :
  code <> 1000 -> 0 < reconnectAttempts config ->
  let run := fst (failed_reconnects config code n mount clk) in
  fst run = repeat (Some (reconnectInterval config)) n
  /\ reconnectCount (state (hook (snd run))) = n
  /\ onErrorCalls (hook (snd run)) = []
  /\ reconnect_pending (hook (snd run)) = false
  /\ wsRef (hook (snd run))
     = Some {| readyState := CONNECTING; outbox := [] |}
  /\ (forall k cap, (0 < k < n)%nat ->
        0 < reconnectInterval config < cap ->
        nth k (fst run) None <> nth k (claimed_delays config cap n) None).
Proof.
  intros Hcode Hlimit. cbv zeta.
  assert (Hm : connecting_again mount) by (repeat split).
  destruct (failed_reconnects_from config code n mount clk Hcode Hlimit Hm)
    as (Hd & (_ & Hws & Ht & _) & Hc & He).
  split; [exact Hd|]. split; [exact Hc|]. split; [exact He|].
  split; [unfold reconnect_pending; now rewrite Ht|].
  split; [exact Hws|].
  intros k cap Hk Hint. rewrite Hd. unfold claimed_delays.
  rewrite (nth_indep _ None (Some (reconnectInterval config)))
    by (rewrite repeat_length; lia).
  rewrite nth_repeat.
  rewrite (nth_indep _ None ((fun i => Some (Retry.backoffDelay
                                              (as_retry_config config cap) i))
                               0%nat))
    by (rewrite length_map, length_seq; lia).
  rewrite (map_nth (fun i => Some (Retry.backoffDelay
                                      (as_retry_config config cap) i))).
  rewrite seq_nth by lia. simpl.
  unfold Retry.backoffDelay. simpl.
  intros [= E].
  assert (2 <= 2 ^ Z.of_nat k).
  { change 2 with (2 ^ 1) at 1. apply Z.pow_le_mono_r; lia. }
  nia.
Qed.

(** The default configuration and seven failures in a row: the counter
    is at 7, above the limit of 5, and each of the seven reconnections
    was set after 3000 ms. *)
Lemma own_reconnects_do_not_back_off_witness :
  let run := fst (failed_reconnects DEFAULT_CONFIG 1006 7 mount (frozen 0)) in
  fst run = repeat (Some 3000) 7
  /\ claimed_delays DEFAULT_CONFIG 30000 7
     = [Some 3000; Some 6000; Some 12000; Some 24000; Some 30000; Some 30000;
        Some 30000]
  /\ reconnectCount (state (hook (snd run))) = 7%nat
  /\ onErrorCalls (hook (snd run)) = []
  /\ wsRef (hook (snd run)) = Some {| readyState := CONNECTING; outbox := [] |}.
Proof.
  destruct (own_reconnects_do_not_back_off DEFAULT_CONFIG 1006 7 (frozen 0))
    as (Hd & Hc & He & _ & Hws & _); [discriminate | reflexivity |].
  cbv zeta. split; [exact Hd|]. split; [reflexivity|].
  split; [exact Hc|]. split; [exact He | exact Hws].
Defined.

(** The handler holds the counter itself only after the caller has
    called the [connect] that a later render returned.  After four
    failed reconnections and such a call the new handler holds 4, and
    the next close sets the reconnection after 3000 * 2^4 = 48000 ms:
    no cap applies to the delay. *)
Lemma caller_connect_renews_the_handler :
  let m :=
    caller_connects
      (snd (fst (failed_reconnects DEFAULT_CONFIG 1006 4 mount (frozen 0)))) in
  installed m = 4%nat
  /\ pending_reconnect_delay (hook (closes DEFAULT_CONFIG 1006 m)) = Some 48000
  /\ Retry.backoffDelay (as_retry_config DEFAULT_CONFIG 30000) 4 = 30000.
Proof. cbv zeta. split; [reflexivity | split; reflexivity]. Qed.

End WSClaims.

(** * Further properties *)

(** ** AdvancedCache: invalidation, the sweep, eviction order, round trips *)

Module CacheExtras.
Import Cache.
Import Sorted.
Section CacheExtras.
Context {T : Type}.
Implicit Types (this : AdvancedCache T) (m : JsMap.t (CacheEntry T)).

Lemma get_Some_In m k e : JsMap.get k m = Some e -> In (k, e) m.
Proof.
  induction m as [|[k' e'] m IH]; simpl; [discriminate|].
  destruct (String.eqb_spec k' k) as [->|_].
  - intros [= ->]. now left.
  - intros H. right. now apply IH.
Qed.

Lemma In_get_Some m k e : JsMap.wf m -> In (k, e) m -> JsMap.get k m = Some e.
Proof.
  unfold JsMap.wf, JsMap.keys.
  induction m as [|[k' e'] m IH]; simpl; [tauto|].
  intros Hnd [[= -> ->]|Hin].
  - now rewrite String.eqb_refl.
  - inversion Hnd as [|? ? Hni Hnd']; subst.
    destruct (String.eqb_spec k' k) as [->|_]; [|now apply IH].
    exfalso. apply Hni. change k with (fst (k, e)). now apply in_map.
Qed.

Lemma wf_same_key m (x y : string * CacheEntry T) :
  JsMap.wf m -> In x m -> In y m -> fst x = fst y -> x = y.
Proof.
  intros Hwf Hx Hy Hk. destruct x as [k e], y as [k' e']. simpl in Hk. subst k'.
  apply (In_get_Some m k e Hwf) in Hx. apply (In_get_Some m k e' Hwf) in Hy.
  congruence.
Qed.

Lemma get_filter (P : string * CacheEntry T -> bool) m k :
  JsMap.wf m ->
  JsMap.get k (List.filter P m) =
  match JsMap.get k m with
  | Some e => if P (k, e) then Some e else None
  | None => None
  end.
Proof.
  intros Hwf. destruct (JsMap.get k m) as [e|] eqn:E.
  - destruct (P (k, e)) eqn:EP.
    + apply In_get_Some; [now apply JsMapFacts.wf_filter|].
      apply filter_In. split; [now apply get_Some_In | exact EP].
    + destruct (JsMap.get k (List.filter P m)) as [e'|] eqn:E'; [|reflexivity].
      apply get_Some_In, filter_In in E' as [Hin HP].
      apply (In_get_Some m k e' Hwf) in Hin. congruence.
  - destruct (JsMap.get k (List.filter P m)) as [e'|] eqn:E'; [|reflexivity].
    apply get_Some_In, filter_In in E' as [Hin _].
    apply (In_get_Some m k e' Hwf) in Hin. congruence.
Qed.

(** On a map without repeated keys, deleting the keys of the entries
    that satisfy [P] keeps exactly the entries that do not. *)
Lemma delete_selected (P : string * CacheEntry T -> bool) m :
  JsMap.wf m ->
  delete_all (map fst (List.filter P m)) m = List.filter (fun kv => negb (P kv)) m.
Proof.
  intros Hwf. rewrite CacheFacts.delete_all_filter.
  apply filter_ext_in. intros kv Hkv. unfold JsMap.outside.
  destruct (P kv) eqn:EP; simpl.
  - apply negb_false_iff, existsb_exists. exists (fst kv). split.
    + apply in_map. apply filter_In. now split.
    + apply String.eqb_refl.
  - apply negb_true_iff. apply not_true_iff_false. intros Hex.
    apply existsb_exists in Hex as [k [Hk Ek]].
    apply String.eqb_eq in Ek. subst k.
    apply in_map_iff in Hk as [kv' [Hfst Hin]].
    apply filter_In in Hin as [Hin HP].
    assert (kv' = kv) by (apply (wf_same_key m); auto).
    subst kv'. congruence.
Qed.

Lemma filter_split_length (P : string * CacheEntry T -> bool) m :
  (length (List.filter P m) + length (List.filter (fun kv => negb (P kv)) m)
   = length m)%nat.
Proof.
  induction m as [|x m IH]; simpl; [reflexivity|].
  destruct (P x); simpl; lia.
Qed.

Lemma invalidateByTag_fold tag (l : list (string * CacheEntry T)) m (c : nat) :
  fold_left
    (fun (acc : JsMap.t (CacheEntry T) * nat) kv =>
       if has_tag tag (snd kv)
       then (JsMap.delete (fst kv) (fst acc), S (snd acc))
       else acc) l (m, c)
  = (delete_all (map fst (List.filter (fun kv => has_tag tag (snd kv)) l)) m,
     (c + length (List.filter (fun kv => has_tag tag (snd kv)) l))%nat).
Proof.
  revert m c. induction l as [|kv l IH]; intros m c; simpl.
  - now rewrite Nat.add_0_r.
  - destruct (has_tag tag (snd kv)); simpl; rewrite IH; [|reflexivity].
    f_equal. lia.
Qed.

(** X1. [invalidateByTag(tag)] removes exactly the entries whose tags
    contain [tag], keeps the others in their order, and returns the
    number of entries it removed. *)
Theorem invalidateByTag_removes_exactly_tagged this (tag : string) :
  JsMap.wf (cache this) ->
  let count := fst (invalidateByTag this tag) in
  let after := snd (invalidateByTag this tag) in
  cache after = List.filter (fun kv => negb (has_tag tag (snd kv))) (cache this)
  /\ count = length (List.filter (fun kv => has_tag tag (snd kv)) (cache this))
  /\ (length (cache after) + count = length (cache this))%nat
  /\ forall key,
       JsMap.get key (cache after) =
       match JsMap.get key (cache this) with
       | Some e => if has_tag tag e then None else Some e
       | None => None
       end.
Proof.
  intros Hwf. cbv zeta. unfold invalidateByTag.
  rewrite invalidateByTag_fold. simpl.
  rewrite (delete_selected (fun kv => has_tag tag (snd kv))) by exact Hwf.
  split; [reflexivity|]. split; [reflexivity|]. split.
  - pose proof (filter_split_length (fun kv => has_tag tag (snd kv)) (cache this)).
    lia.
  - intros key. rewrite get_filter by exact Hwf.
    destruct (JsMap.get key (cache this)) as [e|]; [|reflexivity].
    simpl. now destruct (has_tag tag e).
Qed.

Lemma get_delete_ne key k m :
  k <> key -> JsMap.get k (JsMap.delete key m) = JsMap.get k m.
Proof.
  intros Hne. unfold JsMap.delete.
  induction m as [|[k' e] m IH]; simpl; [reflexivity|].
  destruct (String.eqb_spec k' key) as [->|Hk]; simpl.
  - destruct (String.eqb_spec key k); [congruence | exact IH].
  - destruct (String.eqb_spec k' k); [reflexivity | exact IH].
Qed.

(** X2. [invalidate(key)] returns whether the key was stored; afterwards
    the key is absent, every other key reads as before, and the store
    has one entry less exactly when the key was stored. *)
Theorem invalidate_removes_one_key this (key : string) :
  JsMap.wf (cache this) ->
  let found := fst (invalidate this key) in
  let after := snd (invalidate this key) in
  (found = true <-> exists e, JsMap.get key (cache this) = Some e)
  /\ JsMap.get key (cache after) = None
  /\ (forall k, k <> key -> JsMap.get k (cache after) = JsMap.get k (cache this))
  /\ (length (cache after) + (if found then 1 else 0) = length (cache this))%nat.
Proof.
  intros Hwf. cbv zeta. unfold invalidate, JsMap.has. simpl.
  split; [|split; [|split]].
  - destruct (JsMap.get key (cache this)) as [e|]; split; eauto;
      [discriminate | intros [e [=]]].
  - apply JsMapFacts.get_delete_eq.
  - intros k Hk. now apply get_delete_ne.
  - revert Hwf. unfold JsMap.wf, JsMap.keys, JsMap.delete.
    induction (cache this) as [|[k e] m IH]; simpl; intros Hnd; [reflexivity|].
    inversion Hnd as [|? ? Hni Hnd']; subst.
    specialize (IH Hnd').
    destruct (String.eqb_spec k key) as [->|Hk]; simpl.
    + assert (Hnone : JsMap.get key m = None)
        by (apply JsMapFacts.get_None_keys; exact Hni).
      rewrite Hnone in IH. lia.
    + destruct (JsMap.get key m); lia.
Qed.


(** The entries [cleanup] keeps after its first pass are not expired. *)
Lemma live_not_expired now m (kv : string * CacheEntry T) :
  In kv (delete_all
           (map fst (List.filter (fun kv => expired now (snd kv)) m)) m) ->
  expired now (snd kv) = false /\ In kv m.
Proof.
  rewrite CacheFacts.delete_all_filter. intros Hin.
  apply filter_In in Hin as [Hin Hout]. split; [|exact Hin].
  destruct (expired now (snd kv)) eqn:E; [|reflexivity].
  unfold JsMap.outside in Hout. apply negb_true_iff in Hout.
  assert (Hex : existsb (String.eqb (fst kv))
                  (map fst (List.filter (fun kv => expired now (snd kv)) m))
                = true).
  { apply existsb_exists. exists (fst kv). split.
    - apply in_map, filter_In. now split.
    - apply String.eqb_refl. }
  congruence.
Qed.

Lemma In_delete_all ks m (kv : string * CacheEntry T) :
  In kv (delete_all ks m) -> In kv m.
Proof.
  rewrite CacheFacts.delete_all_filter. intros H.
  now apply filter_In in H as [H _].
Qed.

(** X3. After [cleanup] no entry of the store is expired at the time of
    the sweep, and the sweep adds nothing.  Without repeated keys and
    when no eviction is due (LRU off, or the entries that are not
    expired fit), the store is exactly the unexpired entries in order. *)
Theorem cleanup_removes_all_expired this (clk : Clock) :
  let now := clk 0%nat in
  let after := fst (cleanup this clk) in
  (forall kv, In kv (cache after) ->
              expired now (snd kv) = false /\ In kv (cache this))
  /\ (JsMap.wf (cache this) ->
      enableLRU (config this) = false \/
      JsMap.size (List.filter (fun kv => negb (expired now (snd kv)))
                              (cache this)) <= maxSize (config this) ->
      cache after
        = List.filter (fun kv => negb (expired now (snd kv))) (cache this)).
Proof.
  cbv zeta. unfold cleanup, bind, Date_now, ret. simpl. split.
  - intros kv.
    destruct (enableLRU (config this) && _); simpl; intros Hin.
    + apply In_delete_all in Hin. now apply live_not_expired.
    + now apply live_not_expired.
  - intros Hwf Hfits.
    rewrite (delete_selected (fun kv => expired (clk 0%nat) (snd kv)))
      by exact Hwf.
    destruct Hfits as [-> | Hfits]; [reflexivity|].
    destruct (Z.gtb_spec
                (JsMap.size (List.filter
                               (fun kv => negb (expired (clk 0%nat) (snd kv)))
                               (cache this)))
                (maxSize (config this))) as [Hgt|_]; [lia|].
    now rewrite andb_false_r.
Qed.

(** *** The order of eviction *)

Lemma sort_insert_sorted x (l : list (string * CacheEntry T)) :
  StronglySorted older_or_same l ->
  StronglySorted older_or_same (sort_insert x l).
Proof.
  induction 1 as [|y l Hs IH Hall]; simpl.
  - constructor; constructor.
  - destruct (Z.leb_spec (lastAccessed (snd x)) (lastAccessed (snd y)))
      as [Hle|Hgt].
    + constructor; [now constructor|].
      constructor; [exact Hle|].
      apply List.Forall_forall. intros z Hz.
      rewrite List.Forall_forall in Hall. specialize (Hall z Hz).
      unfold older_or_same in *. lia.
    + constructor; [exact IH|].
      apply List.Forall_forall. intros z Hz.
      apply (Permutation_in _ (CacheFacts.sort_insert_perm x l)) in Hz.
      destruct Hz as [<-|Hz].
      * unfold older_or_same. lia.
      * rewrite List.Forall_forall in Hall. now apply Hall.
Qed.

Lemma sort_sorted (l : list (string * CacheEntry T)) :
  StronglySorted older_or_same (sort_by_lastAccessed l).
Proof.
  induction l as [|x l IH]; simpl; [constructor | now apply sort_insert_sorted].
Qed.

Lemma sorted_app_order (a b : list (string * CacheEntry T)) x y :
  StronglySorted older_or_same (a ++ b) -> In x a -> In y b ->
  older_or_same x y.
Proof.
  induction a as [|z a IH]; simpl; intros Hs Hx Hy; [contradiction|].
  inversion Hs as [|? ? Hs' Hall]; subst.
  destruct Hx as [->|Hx]; [|now apply IH].
  rewrite List.Forall_forall in Hall. apply Hall, in_or_app. now right.
Qed.

(** X4. The eviction pass removes least recently accessed entries: an
    unexpired entry that [cleanup] removes was last accessed no later
    than any entry it keeps.  With LRU on and [maxSize >= 0] it removes
    no more than needed: the store ends with the unexpired entries if
    they fit and with exactly [maxSize] entries otherwise. *)
Theorem cleanup_evicts_oldest_access this (clk : Clock) :
  JsMap.wf (cache this) ->
  let now := clk 0%nat in
  let after := fst (cleanup this clk) in
  (forall out kept,
      In out (cache this) -> expired now (snd out) = false ->
      ~ In out (cache after) -> In kept (cache after) ->
      lastAccessed (snd out) <= lastAccessed (snd kept))
  /\ (enableLRU (config this) = true -> 0 <= maxSize (config this) ->
      JsMap.size (cache after)
      = Z.min (JsMap.size (List.filter (fun kv => negb (expired now (snd kv)))
                                       (cache this)))
              (maxSize (config this))).
Proof.
  intros Hwf. cbv zeta. unfold cleanup, bind, Date_now, ret. simpl.
  rewrite (delete_selected (fun kv => expired (clk 0%nat) (snd kv)))
    by exact Hwf.
  set (live := List.filter (fun kv => negb (expired (clk 0%nat) (snd kv)))
                           (cache this)).
  assert (Hlive : JsMap.wf live) by now apply JsMapFacts.wf_filter.
  split.
  - intros out kept Hout Hfresh Hgone Hkept.
    assert (Hout_live : In out live).
    { apply filter_In. split; [exact Hout | now rewrite Hfresh]. }
    destruct (enableLRU (config this) && _); simpl in *; [|contradiction].
    set (k := Z.to_nat (JsMap.size live - maxSize (config this))) in *.
    set (entries := sort_by_lastAccessed live) in *.
    rewrite CacheFacts.delete_all_filter in Hgone, Hkept.
    apply filter_In in Hkept as [Hkept_live Hkept_out].
    assert (Hperm : Permutation live (firstn k entries ++ skipn k entries)).
    { rewrite firstn_skipn. symmetry. apply CacheFacts.sort_perm. }
    assert (Hfirst : In out (firstn k entries)).
    { destruct (JsMap.outside (map fst (firstn k entries)) out) eqn:E.
      - exfalso. apply Hgone. apply filter_In. now split.
      - unfold JsMap.outside in E. apply negb_false_iff in E.
        apply existsb_exists in E as [key [Hkey Ekey]].
        apply String.eqb_eq in Ekey. subst key.
        apply in_map_iff in Hkey as [x [Hfst Hx]].
        assert (Hx_live : In x live).
        { apply (Permutation_in _ (Permutation_sym Hperm)), in_or_app.
          now left. }
        assert (x = out) by (apply (wf_same_key live); auto).
        now subst x. }
    assert (Hrest : In kept (skipn k entries)).
    { apply (Permutation_in _ Hperm), in_app_or in Hkept_live
        as [Hin|Hin]; [|exact Hin].
      exfalso. unfold JsMap.outside in Hkept_out.
      apply negb_true_iff in Hkept_out.
      assert (existsb (String.eqb (fst kept)) (map fst (firstn k entries))
              = true); [|congruence].
      apply existsb_exists. exists (fst kept). split;
        [now apply in_map | apply String.eqb_refl]. }
    apply (sorted_app_order (firstn k entries) (skipn k entries));
      [|exact Hfirst | exact Hrest].
    rewrite firstn_skipn. apply sort_sorted.
  - intros Hlru Hcap. rewrite Hlru. simpl.
    destruct (Z.gtb_spec (JsMap.size live) (maxSize (config this)))
      as [Hgt|Hle]; simpl.
    + rewrite CacheFacts.evict_length; [lia | exact Hlive | exact Hcap | lia].
    + lia.
Qed.

(** *** [set] followed by [get] *)

Lemma get_after_set_entry this key (d : T) ttl tags clk :
  let this' := fst (set this key d ttl tags clk) in
  JsMap.get key (cache this') = None \/
  exists e, JsMap.get key (cache this') = Some e /\ data e = d /\
            timestamp e = clk 0%nat /\
            Cache.ttl e = ttl_or_default ttl (config this).
Proof.
  unfold set, bind, Date_now, ret. simpl.
  match goal with |- context [JsMap.set key ?e (cache this)] =>
    set (entry := e) end.
  assert (Hget : JsMap.get key (JsMap.set key entry (cache this)) = Some entry)
    by apply JsMapFacts.get_set_eq.
  destruct (_ >? _); simpl.
  - unfold cleanup, bind, Date_now, ret. simpl.
    destruct (enableLRU (config this) && _); simpl;
      repeat rewrite CacheFacts.get_delete_all;
      repeat match goal with |- context [if ?b then _ else _] =>
               destruct b end;
      auto; right; exists entry; auto.
  - right. exists entry. auto.
Qed.

Lemma size_set_le key (e : CacheEntry T) m :
  JsMap.size (JsMap.set key e m) <= JsMap.size m + 1.
Proof.
  unfold JsMap.size. rewrite JsMapFacts.length_set.
  destruct (JsMap.has key m); lia.
Qed.

(** X5. A [get] after [set(key, d)] never returns an older value of the
    key: it returns [d] or a miss.  When the store had room before the
    [set] and the [get] comes no later than the TTL after the [set],
    it returns [d] and counts a hit. *)
Theorem get_after_set_returns_new_value this (key : string) (d : T)
    (ttl : option Z) (tags : list string) (clk0 clk : Clock) :
  let stored := fst (set this key d ttl tags clk0) in
  let result := fst (fst (get stored key clk)) in
  (result = None \/ result = Some d)
  /\ (JsMap.size (cache this) < maxSize (config this) ->
      clk 0%nat - clk0 0%nat <= ttl_or_default ttl (config this) ->
      result = Some d
      /\ hitCount (snd (fst (get stored key clk))) = S (hitCount this)).
Proof.
  cbv zeta. split.
  - destruct (get_after_set_entry this key d ttl tags clk0)
      as [E|[e [E [Hd _]]]]; unfold get; rewrite E; [now left|].
    unfold bind, Date_now, ret. simpl.
    destruct (expired (clk 0%nat) e); simpl; [now left | right; congruence].
  - intros Hroom Hlive.
    unfold set, bind, Date_now, ret. simpl.
    match goal with |- context [JsMap.set key ?e (cache this)] =>
      set (entry := e) end.
    pose proof (size_set_le key entry (cache this)) as Hsz.
    destruct (Z.gtb_spec (JsMap.size (JsMap.set key entry (cache this)))
                (maxSize (config this))) as [Hgt|_]; [lia|].
    simpl. unfold get. simpl. rewrite JsMapFacts.get_set_eq.
    unfold bind, Date_now, ret, expired. simpl.
    destruct (Z.gtb_spec (clk 0%nat - clk0 0%nat)
                (ttl_or_default ttl (config this))) as [Hgt|_]; [lia|].
    simpl. split; reflexivity.
Qed.

(** *** The counters *)

Lemma get_counts this key clk :
  let r := fst (get this key clk) in
  (hitCount (snd r) + missCount (snd r)
   = S (hitCount this + missCount this))%nat
  /\ hitCount (snd r)
     = (hitCount this + match fst r with Some _ => 1 | None => 0 end)%nat
  /\ (length (cache (snd r)) <= length (cache this))%nat
  /\ config (snd r) = config this.
Proof.
  cbv zeta. unfold get.
  destruct (JsMap.get key (cache this)) as [e|] eqn:E; simpl.
  - unfold bind, Date_now, ret. simpl.
    destruct (expired (clk 0%nat) e); simpl.
    + repeat split; try lia. unfold JsMap.delete. apply filter_length_le.
    + repeat split; try lia. rewrite JsMapFacts.length_set.
      unfold JsMap.has. now rewrite E.
  - repeat split; lia.
Qed.

Lemma run_gets_cons (k : string) keys this clk :
  fst (run_gets (k :: keys) this clk) =
  (fst (fst (get this k clk))
     :: fst (fst (run_gets keys (snd (fst (get this k clk)))
                    (snd (get this k clk)))),
   snd (fst (run_gets keys (snd (fst (get this k clk)))
               (snd (get this k clk))))).
Proof.
  simpl. unfold bind at 1.
  destruct (get this k clk) as [r clk']. simpl.
  unfold bind at 1. destruct (run_gets keys (snd r) clk'). reflexivity.
Qed.

(** X6. Every [get] is counted once, as a hit or as a miss: after any
    run of [get] calls [hitCount + missCount] has grown by the number
    of calls and [hitCount] by the number of values returned; a [get]
    never adds an entry to the store. *)
Theorem gets_are_counted_once (keys : list string) this (clk : Clock) :
  let results := fst (fst (run_gets keys this clk)) in
  let after := snd (fst (run_gets keys this clk)) in
  length results = length keys
  /\ (hitCount after + missCount after
      = hitCount this + missCount this + length keys)%nat
  /\ (hitCount after
      = hitCount this + length (List.filter (fun r => bool_decide (is_Some r))
                                            results))%nat
  /\ (length (cache after) <= length (cache this))%nat.
Proof.
  cbv zeta. revert this clk.
  induction keys as [|k keys IH]; intros this clk.
  - simpl. repeat split; lia.
  - rewrite run_gets_cons. simpl.
    destruct (get_counts this k clk) as (Hsum & Hhit & Hlen & _).
    cbv zeta in Hsum, Hhit, Hlen.
    destruct (IH (snd (fst (get this k clk))) (snd (get this k clk)))
      as (IHl & IHsum & IHhit & IHlen).
    repeat split; try lia.
    rewrite IHhit, Hhit.
    destruct (fst (fst (get this k clk))); simpl; lia.
Qed.

End CacheExtras.

Lemma tagged_cache_wf : JsMap.wf (cache tagged_cache).
Proof.
  unfold JsMap.wf. simpl. repeat constructor; simpl; intuition discriminate.
Qed.

Lemma invalidateByTag_removes_exactly_tagged_witness :
  cache (snd (invalidateByTag tagged_cache "x"))
    = [("c", tagged_entry 3 ["y"])]
  /\ fst (invalidateByTag tagged_cache "x") = 2%nat.
Proof.
  destruct (invalidateByTag_removes_exactly_tagged tagged_cache "x"
              tagged_cache_wf) as (Hcache & Hcount & _).
  split; [exact Hcache | exact Hcount].
Defined.

Lemma invalidate_removes_one_key_witness :
  JsMap.get "b" (cache (snd (invalidate tagged_cache "b"))) = None
  /\ JsMap.get "c" (cache (snd (invalidate tagged_cache "b")))
     = JsMap.get "c" (cache tagged_cache).
Proof.
  destruct (invalidate_removes_one_key tagged_cache "b" tagged_cache_wf)
    as (_ & Hgone & Hother & _).
  split; [exact Hgone | apply Hother; discriminate].
Defined.

Lemma aged_cache_wf (capacity : Z) : JsMap.wf (cache (aged_cache capacity)).
Proof.
  unfold JsMap.wf. simpl. repeat constructor; simpl; intuition discriminate.
Qed.

(** A sweep at time 500 of five entries, two of them expired, in a
    cache with room for all: the two are removed, the three others
    stay in their order. *)
Lemma cleanup_removes_all_expired_witness :
  (expired 500 (aged_entry 2 0 1000 20) = false
   /\ In ("b", aged_entry 2 0 1000 20) (cache (aged_cache 1000)))
  /\ cache (fst (cleanup (aged_cache 1000) (frozen 500)))
     = [("b", aged_entry 2 0 1000 20); ("c", aged_entry 3 0 1000 10);
        ("e", aged_entry 5 0 1000 40)].
Proof.
  destruct (cleanup_removes_all_expired (aged_cache 1000) (frozen 500))
    as [Hin H].
  split.
  - apply (Hin ("b", aged_entry 2 0 1000 20)). simpl. now left.
  - apply H; [apply aged_cache_wf | right; unfold JsMap.size; simpl; lia].
Defined.

(** The same sweep in a cache for two entries: of the three entries
    that are not expired the one accessed first, [c], is evicted, and
    [b], which is kept, was accessed later. *)
Lemma cleanup_evicts_oldest_access_witness :
  lastAccessed (aged_entry 3 0 1000 10) <= lastAccessed (aged_entry 2 0 1000 20)
  /\ JsMap.size (cache (fst (cleanup (aged_cache 2) (frozen 500)))) = Z.min 3 2
  /\ cache (fst (cleanup (aged_cache 2) (frozen 500)))
     = [("b", aged_entry 2 0 1000 20); ("e", aged_entry 5 0 1000 40)].
Proof.
  destruct (cleanup_evicts_oldest_access (aged_cache 2) (frozen 500)
              (aged_cache_wf 2)) as [Hold Hsize].
  split; [|split].
  - apply (Hold ("c", aged_entry 3 0 1000 10) ("b", aged_entry 2 0 1000 20)).
    + simpl. tauto.
    + reflexivity.
    + simpl. intros [E|[E|[]]]; discriminate E.
    + simpl. now left.
  - apply Hsize; [reflexivity | simpl; lia].
  - reflexivity.
Defined.

Lemma get_after_set_returns_new_value_witness :
  fst (fst (get (fst (set tagged_cache "a" 9%nat (Some 100) [] (frozen 0)))
                "a" (frozen 100))) = Some 9%nat.
Proof.
  destruct (get_after_set_returns_new_value tagged_cache "a" 9%nat (Some 100)
              [] (frozen 0) (frozen 100)) as [_ H].
  apply H; [unfold JsMap.size; simpl; lia | unfold frozen; simpl; lia].
Defined.

End CacheExtras.

(** ** The retry executor: recovery, fatal errors, the bound on calls *)

Module RetryExtras.
Import Retry.
Section RetryExtras.
Context {Err T W : Type}.
Implicit Types (config : RetryConfig Err) (h : Hook W)
  (operation : Operation Err T W).

Lemma recovers_from config classify operation operationId (r : T) :
  retryCondition config = Some classify ->
  forall (k : nat) h fuel,
    Z.of_nat (default 0%nat (retryAttemptsRef h !! operationId)) + Z.of_nat k
      <= maxRetries config ->
    (forall i, (i < k)%nat ->
       exists e, fst (operation (world_after operation i (world h))) = inl e
                 /\ classify e = true) ->
    fst (operation (world_after operation k (world h))) = inr r ->
    (k < fuel)%nat ->
    exists h',
      retryWithBackoff fuel config true operation operationId h
        = Some (inr r, h') /\
      trace h' = trace h ++
        flat_map (retry_round config)
          (seq (default 0%nat (retryAttemptsRef h !! operationId)) k)
        ++ [Invoked] /\
      retryAttemptsRef h' = delete operationId (retryAttemptsRef h) /\
      world h' = world_after operation (S k) (world h).
Proof.
  intros Hcond k.
  induction k as [|k IH]; intros h fuel Hleft Hfails Hok Hfuel.
  - destruct fuel as [|fuel]; [lia|]. simpl in *.
    destruct (operation (world h)) as [outcome w'] eqn:Eop.
    simpl in Hok. subst outcome.
    eexists. split; [reflexivity|]. simpl. repeat split.
  - destruct fuel as [|fuel]; [lia|]. simpl.
    destruct (Hfails 0%nat ltac:(lia)) as [e [He Hc]]. simpl in He.
    destruct (operation (world h)) as [outcome w'] eqn:Eop.
    simpl in He. subst outcome.
    destruct (Z.ltb_spec
                (Z.of_nat (default 0%nat (retryAttemptsRef h !! operationId)))
                (maxRetries config)) as [_|Hge]; [|lia].
    unfold retryable. rewrite Hcond, Hc. simpl.
    set (attempts := default 0%nat (retryAttemptsRef h !! operationId)) in *.
    match goal with |- context [retryWithBackoff fuel _ _ _ _ ?x] =>
      set (h1 := x) end.
    assert (Hat : default 0%nat (retryAttemptsRef h1 !! operationId)
                  = S attempts).
    { unfold h1. simpl. now rewrite lookup_insert_eq. }
    destruct (IH h1 fuel) as [h' [Hrun [Htr [Hmap Hw]]]].
    + rewrite Hat. lia.
    + intros i Hi. specialize (Hfails (S i) ltac:(lia)).
      simpl in Hfails. rewrite Eop in Hfails. exact Hfails.
    + simpl in Hok. rewrite Eop in Hok. exact Hok.
    + lia.
    + exists h'. split; [exact Hrun|].
      rewrite Htr, Hmap, Hw, Hat. unfold h1. simpl. rewrite ?Eop. simpl.
      repeat split.
      * unfold retry_round. simpl. rewrite <- !app_assoc. reflexivity.
      * apply delete_insert_eq.
Qed.

Lemma count_invoked_rounds config start k :
  count_invoked (flat_map (retry_round config) (seq start k)) = k.
Proof.
  revert start. induction k as [|k IH]; intros start; [reflexivity|].
  cbn [seq flat_map]. rewrite RetryFacts.count_invoked_app, IH. reflexivity.
Qed.

Lemma slept_rounds config start k :
  slept (flat_map (retry_round config) (seq start k))
  = map (backoffDelay config) (seq start k).
Proof.
  revert start. induction k as [|k IH]; intros start; [reflexivity|].
  cbn [seq flat_map map]. rewrite RetryFacts.slept_app, IH. reflexivity.
Qed.

(** X7. An operation that fails [k] times with retryable errors,
    [k <= maxRetries], and then succeeds is called [k + 1] times while
    online; the executor waits the first [k] backoff delays, returns the
    result of the last call and drops the attempt counter of the
    operation id. *)
Theorem retry_recovers_after_failures config (classify : Err -> bool)
    operation (operationId : string) h (k fuel : nat) (r : T) :
  retryCondition config = Some classify ->
  retryAttemptsRef h !! operationId = None ->
  Z.of_nat k <= maxRetries config ->
  (forall i, (i < k)%nat ->
     exists e, fst (operation (world_after operation i (world h))) = inl e
               /\ classify e = true) ->
  fst (operation (world_after operation k (world h))) = inr r ->
  (k < fuel)%nat ->
  exists h',
    retryWithBackoff fuel config true operation operationId h
      = Some (inr r, h') /\
    invocations h' = (invocations h + k + 1)%nat /\
    delays h' = delays h ++ map (backoffDelay config) (seq 0 k) /\
    retryAttemptsRef h' !! operationId = None.
Proof.
  intros Hcond Hfresh Hk Hfails Hok Hfuel.
  destruct (recovers_from config classify operation operationId r Hcond
              k h fuel) as [h' [Hrun [Htr [Hmap _]]]]; auto.
  - rewrite Hfresh. simpl. lia.
  - exists h'. split; [exact Hrun|]. rewrite Hfresh in Htr. simpl in Htr.
    unfold invocations, delays. rewrite Htr, Hmap.
    rewrite !RetryFacts.count_invoked_app, !RetryFacts.slept_app.
    rewrite count_invoked_rounds, slept_rounds.
    change (count_invoked [Invoked]) with 1%nat.
    change (slept [Invoked]) with (@nil Z).
    rewrite app_nil_r. split; [lia|]. split; [reflexivity|].
    apply lookup_delete_eq.
Qed.

(** X8. A failure that is not retryable, or any failure while offline,
    is surfaced at once: the operation is called once, nothing is
    waited for, and the attempt counter of the operation id is dropped. *)
Theorem retry_surfaces_fatal_errors_at_once config (isOnline : bool)
    operation (operationId : string) h (fuel : nat) (e : Err) :
  fst (operation (world h)) = inl e ->
  retryable config e = false \/ isOnline = false ->
  (1 <= fuel)%nat ->
  retryWithBackoff fuel config isOnline operation operationId h
  = Some (inl e,
          {| retryAttemptsRef := delete operationId (retryAttemptsRef h);
             world := snd (operation (world h));
             trace := trace h ++ [Invoked] |}).
Proof.
  intros He Hfatal Hfuel. destruct fuel as [|fuel]; [lia|]. simpl.
  destruct (operation (world h)) as [outcome w']. simpl in *. subst outcome.
  destruct Hfatal as [-> | ->].
  - now rewrite andb_false_r.
  - now rewrite andb_false_r.
Qed.

(** The executor returns after this one call. *)
Ltac single_call :=
  eexists _, _, [Invoked]; split; [reflexivity|];
  change (count_invoked [Invoked]) with 1%nat;
  change (slept [Invoked]) with (@nil Z);
  cbn [trace retryAttemptsRef length];
  repeat split; try lia; constructor.

Lemma returns_within config (isOnline : bool) operation operationId :
  forall (n : nat) h fuel,
    (Z.to_nat (maxRetries config
               - Z.of_nat (default 0%nat (retryAttemptsRef h !! operationId)))
     <= n)%nat ->
    (n < fuel)%nat ->
    exists outcome h' tr,
      retryWithBackoff fuel config isOnline operation operationId h
        = Some (outcome, h') /\
      trace h' = trace h ++ tr /\
      (1 <= count_invoked tr <= n + 1)%nat /\
      S (length (slept tr)) = count_invoked tr /\
      Forall (fun d => d <= maxDelay config) (slept tr) /\
      retryAttemptsRef h' = delete operationId (retryAttemptsRef h).
Proof.
  induction n as [|n IH]; intros h fuel Hleft Hfuel;
    (destruct fuel as [|fuel]; [lia|]); simpl;
    destruct (operation (world h)) as [[e|r] w'] eqn:Eop.
  - destruct (Z.ltb_spec
                (Z.of_nat (default 0%nat (retryAttemptsRef h !! operationId)))
                (maxRetries config)) as [Hlt|_]; [lia|].
    simpl. single_call.
  - single_call.
  - destruct ((Z.of_nat (default 0%nat (retryAttemptsRef h !! operationId))
               <? maxRetries config) && retryable config e && isOnline)
      eqn:Eretry.
    + apply andb_prop in Eretry as [Eretry _].
      apply andb_prop in Eretry as [Hlt _]. apply Z.ltb_lt in Hlt.
      set (attempts := default 0%nat (retryAttemptsRef h !! operationId)) in *.
      match goal with |- context [retryWithBackoff fuel _ _ _ _ ?x] =>
        set (h1 := x) end.
      assert (Hat : default 0%nat (retryAttemptsRef h1 !! operationId)
                    = S attempts).
      { unfold h1. simpl. now rewrite lookup_insert_eq. }
      destruct (IH h1 fuel)
        as (outcome & h' & tr & Hrun & Htr & Hcount & Hlen & Hcap & Hmap).
      * rewrite Hat. lia.
      * lia.
      * exists outcome, h',
          ([Invoked; Slept (backoffDelay config attempts)] ++ tr).
        split; [exact Hrun|]. split.
        { rewrite Htr. unfold h1. simpl. now rewrite <- !app_assoc. }
        rewrite RetryFacts.count_invoked_app, RetryFacts.slept_app.
        change (count_invoked [Invoked; Slept (backoffDelay config attempts)])
          with 1%nat.
        change (slept [Invoked; Slept (backoffDelay config attempts)])
          with [backoffDelay config attempts].
        cbn [app length]. repeat split; try lia.
        -- constructor; [unfold backoffDelay; lia | exact Hcap].
        -- rewrite Hmap. unfold h1. simpl. apply delete_insert_eq.
    + single_call.
  - single_call.
Qed.

(** X9. Whatever the operation does, and online or not, the executor
    returns: it calls the operation at least once and at most
    [maxRetries + 1] times, waits once between two calls and never
    longer than [maxDelay], and leaves no attempt counter for the
    operation id. *)
Theorem retry_calls_at_most_maxRetries_plus_one config (isOnline : bool)
    operation (operationId : string) h (fuel : nat) :
  retryAttemptsRef h !! operationId = None ->
  (Z.to_nat (maxRetries config) < fuel)%nat ->
  exists outcome h',
    retryWithBackoff fuel config isOnline operation operationId h
      = Some (outcome, h') /\
    (invocations h + 1 <= invocations h'
     <= invocations h + Z.to_nat (maxRetries config) + 1)%nat /\
    (length (delays h') + invocations h + 1
     = length (delays h) + invocations h')%nat /\
    (exists waited, delays h' = delays h ++ waited /\
                    Forall (fun d => d <= maxDelay config) waited) /\
    retryAttemptsRef h' !! operationId = None.
Proof.
  intros Hfresh Hfuel.
  destruct (returns_within config isOnline operation operationId
              (Z.to_nat (maxRetries config)) h fuel)
    as (outcome & h' & tr & Hrun & Htr & Hcount & Hlen & Hcap & Hmap).
  - rewrite Hfresh. simpl. lia.
  - exact Hfuel.
  - exists outcome, h'. split; [exact Hrun|].
    unfold invocations, delays.
    rewrite Htr, RetryFacts.count_invoked_app, RetryFacts.slept_app, length_app.
    repeat split; try lia.
    + exists (slept tr). split; [reflexivity | exact Hcap].
    + rewrite Hmap. apply lookup_delete_eq.
Qed.

End RetryExtras.

Lemma retry_recovers_after_failures_witness :
  exists h',
    retryWithBackoff 3 (DEFAULT_RETRY_CONFIG retry_everything) true flaky_op
      "fetch-markets" (fresh 0%nat) = Some (inr 2%nat, h') /\
    invocations h' = (invocations (fresh 0%nat) + 2 + 1)%nat /\
    delays h' = delays (fresh 0%nat)
                ++ map (backoffDelay (DEFAULT_RETRY_CONFIG retry_everything))
                       (seq 0 2) /\
    retryAttemptsRef h' !! "fetch-markets" = None.
Proof.
  apply (retry_recovers_after_failures
           (DEFAULT_RETRY_CONFIG retry_everything) retry_everything flaky_op
           "fetch-markets" (fresh 0%nat) 2 3 2%nat).
  - reflexivity.
  - reflexivity.
  - simpl. lia.
  - intros i Hi. exists "network timeout".
    destruct i as [|[|i]]; [split; reflexivity | split; reflexivity | lia].
  - reflexivity.
  - lia.
Defined.

Lemma retry_surfaces_fatal_errors_at_once_witness :
  retryWithBackoff 1 (DEFAULT_RETRY_CONFIG retry_everything) false failing_op
    "fetch-markets" (fresh 0%nat)
  = Some (inl "network timeout",
          {| retryAttemptsRef := delete "fetch-markets"
                                   (retryAttemptsRef (fresh 0%nat));
             world := snd (failing_op (world (fresh 0%nat)));
             trace := trace (fresh 0%nat) ++ [Invoked] |}).
Proof.
  apply (retry_surfaces_fatal_errors_at_once
           (DEFAULT_RETRY_CONFIG retry_everything) false failing_op
           "fetch-markets" (fresh 0%nat) 1 "network timeout").
  - reflexivity.
  - right. reflexivity.
  - lia.
Defined.

Lemma retry_calls_at_most_maxRetries_plus_one_witness :
  exists outcome h',
    retryWithBackoff 4 (DEFAULT_RETRY_CONFIG retry_everything) true flaky_op
      "fetch-markets" (fresh 0%nat) = Some (outcome, h') /\
    (invocations (fresh 0%nat) + 1 <= invocations h'
     <= invocations (fresh 0%nat)
        + Z.to_nat (maxRetries (DEFAULT_RETRY_CONFIG retry_everything)) + 1)%nat /\
    (length (delays h') + invocations (fresh 0%nat) + 1
     = length (delays (fresh 0%nat)) + invocations h')%nat /\
    (exists waited,
        delays h' = delays (fresh 0%nat) ++ waited /\
        Forall (fun d => d <= maxDelay (DEFAULT_RETRY_CONFIG retry_everything))
               waited) /\
    retryAttemptsRef h' !! "fetch-markets" = None.
Proof.
  apply (retry_calls_at_most_maxRetries_plus_one
           (DEFAULT_RETRY_CONFIG retry_everything) true flaky_op
           "fetch-markets" (fresh 0%nat) 4).
  - reflexivity.
  - simpl. lia.
Defined.

End RetryExtras.

(** ** The rate limiter: the window and the reset time *)

Module RateLimitExtras.
Import RateLimit.

(** X10. At one and the same time [isRateLimited] answers true exactly
    when [getRemainingRequests] answers 0. *)
Theorem limited_iff_none_remaining (l : Limiter) (clk : Clock) :
  fst (fst (isRateLimited l clk)) = true
  <-> fst (getRemainingRequests l clk) = 0.
Proof.
  unfold isRateLimited, getRemainingRequests, bind, Date_now, ret. simpl.
  set (n := Z.of_nat (length _)).
  destruct (Z.geb_spec n (maxRequests l)); split; intros;
    try lia; try discriminate.
Qed.

Lemma trackRequests_spec (n : nat) (l : Limiter) (clk : Clock) :
  requestsRef (fst (trackRequests n l clk)) = requestsRef l ++ map clk (seq 0 n)
  /\ maxRequests (fst (trackRequests n l clk)) = maxRequests l
  /\ windowMs (fst (trackRequests n l clk)) = windowMs l
  /\ snd (trackRequests n l clk) 0%nat = clk n.
Proof.
  revert l clk. induction n as [|n IH]; intros l clk.
  - simpl. rewrite app_nil_r. repeat split.
  - cbn [trackRequests]. unfold bind at 1.
    unfold trackRequest at 1, bind, Date_now, ret.
    match goal with |- context [trackRequests n ?l' ?c'] =>
      destruct (IH l' c') as (Hr & Hm & Hw & Hc) end.
    simpl in *. rewrite Hr, Hm, Hw, Hc, <- app_assoc. simpl.
    rewrite <- seq_shift, map_map. repeat split.
Qed.

Lemma filter_all {A} (P : A -> bool) (l : list A) :
  (forall x, In x l -> P x = true) -> List.filter P l = l.
Proof.
  induction l as [|x l IH]; simpl; intros H; [reflexivity|].
  rewrite (H x) by now left. f_equal. apply IH. intros y Hy. apply H. now right.
Qed.

Lemma filter_none {A} (P : A -> bool) (l : list A) :
  (forall x, In x l -> P x = false) -> List.filter P l = [].
Proof.
  induction l as [|x l IH]; simpl; intros H; [reflexivity|].
  rewrite (H x) by now left. apply IH. intros y Hy. apply H. now right.
Qed.

(** X11. After [n] calls of [trackRequest] on a new limiter the
    recorded times are the [n] clock readings in order.  Checked at a
    time [now] at which all of them are less than [windowMs] old, the
    limiter answers "limited" exactly when [n >= maxRequests] and
    forgets nothing; checked when all of them are at least [windowMs]
    old, it forgets them all and, for a positive [maxRequests], is not
    limited. *)
Theorem rate_limit_counts_the_window (maxR w : Z) (n : nat) (clk : Clock) :
  let tracked := trackRequests n (useRateLimit (Some maxR) (Some w)) clk in
  let now := clk n in
  let check := fst (isRateLimited (fst tracked) (snd tracked)) in
  requestsRef (fst tracked) = map clk (seq 0 n)
  /\ ((forall i, (i < n)%nat -> now - w < clk i) ->
      fst check = (Z.of_nat n >=? maxR)
      /\ requestsRef (snd check) = map clk (seq 0 n))
  /\ ((forall i, (i < n)%nat -> clk i <= now - w) ->
      requestsRef (snd check) = []
      /\ (0 < maxR -> fst check = false)).
Proof.
  cbv zeta.
  destruct (trackRequests_spec n (useRateLimit (Some maxR) (Some w)) clk)
    as (Hr & Hm & Hw & Hc).
  simpl in Hr, Hm, Hw.
  split; [exact Hr|].
  unfold isRateLimited, bind, Date_now, ret. simpl.
  rewrite Hr, Hm, Hw, Hc. split.
  - intros Hin. rewrite filter_all.
    + rewrite length_map, length_seq. split; reflexivity.
    + intros t Ht. apply in_map_iff in Ht as [i [<- Hi]].
      apply in_seq in Hi. unfold in_window.
      specialize (Hin i ltac:(lia)).
      destruct (Z.gtb_spec (clk i) (clk n - w)); [reflexivity | lia].
  - intros Hout. rewrite filter_none.
    + split; [reflexivity|]. simpl. intros Hpos.
      change (Z.of_nat 0) with 0.
      destruct (Z.geb_spec 0 maxR); [lia | reflexivity].
    + intros t Ht. apply in_map_iff in Ht as [i [<- Hi]].
      apply in_seq in Hi. unfold in_window.
      specialize (Hout i ltac:(lia)).
      destruct (Z.gtb_spec (clk i) (clk n - w)); [lia | reflexivity].
Qed.

Lemma rate_limit_counts_the_window_witness :
  fst (fst (isRateLimited
              (fst (trackRequests 5 (useRateLimit (Some 5) (Some 60000))
                      (fun i => Z.of_nat i)))
              (snd (trackRequests 5 (useRateLimit (Some 5) (Some 60000))
                      (fun i => Z.of_nat i)))))
    = (Z.of_nat 5 >=? 5)
  /\ requestsRef
       (snd (fst (isRateLimited
                    (fst (trackRequests 2 (useRateLimit (Some 5) (Some 1))
                            (fun i => Z.of_nat i)))
                    (snd (trackRequests 2 (useRateLimit (Some 5) (Some 1))
                            (fun i => Z.of_nat i)))))) = [].
Proof.
  split.
  - destruct (rate_limit_counts_the_window 5 60000 5 (fun i => Z.of_nat i))
      as (_ & H & _).
    apply H. intros i Hi. lia.
  - destruct (rate_limit_counts_the_window 5 1 2 (fun i => Z.of_nat i))
      as (_ & _ & H).
    apply H. intros i Hi. lia.
Defined.

Lemma filter_id_iff {A} (P : A -> bool) (l : list A) :
  List.filter P l = l <-> forall x, In x l -> P x = true.
Proof.
  split; [|apply filter_all].
  intros E x Hx. rewrite <- E in Hx. now apply filter_In in Hx as [_ H].
Qed.

(** X12. [getResetTime] is the moment the window starts to move past
    the recorded requests: a check at a time before [getResetTime]
    keeps every recorded request, and a check at [getResetTime] or
    later drops at least the oldest one. *)
Theorem reset_time_is_when_the_oldest_leaves (l : Limiter) (clk : Clock) :
  requestsRef l <> [] ->
  requestsRef (snd (fst (isRateLimited l clk))) = requestsRef l
  <-> clk 0%nat < getResetTime l.
Proof.
  intros Hne. unfold isRateLimited, bind, Date_now, ret, getResetTime. simpl.
  destruct (requestsRef l) as [|t ts] eqn:E; [contradiction|].
  destruct (RateLimitClaims.Math_min_least t ts) as [Hin Hle].
  rewrite filter_id_iff. unfold in_window. split.
  - intros H. specialize (H _ Hin).
    destruct (Z.gtb_spec (Math_min t ts) (clk 0%nat - windowMs l)); [lia|discriminate].
  - intros H x Hx. specialize (Hle x Hx).
    destruct (Z.gtb_spec x (clk 0%nat - windowMs l)); [reflexivity | lia].
Qed.

Lemma reset_time_is_when_the_oldest_leaves_witness :
  requestsRef
    (snd (fst (isRateLimited
                 {| maxRequests := 5; windowMs := 60000;
                    requestsRef := [5000; 3000; 9000] |} (frozen 63000))))
  = [5000; 3000; 9000]
  <-> frozen 63000 0%nat
      < getResetTime {| maxRequests := 5; windowMs := 60000;
                        requestsRef := [5000; 3000; 9000] |}.
Proof.
  apply (reset_time_is_when_the_oldest_leaves
           {| maxRequests := 5; windowMs := 60000;
              requestsRef := [5000; 3000; 9000] |} (frozen 63000)).
  discriminate.
Defined.

End RateLimitExtras.

(** ** handleApiError: which errors ask for a retry *)

Module ApiErrorExtras.
Import ApiError.

(** X13. For an error with a response, [shouldRetry] is set exactly for
    status 429 and for statuses of 500 and above.  Without a response
    it is set exactly when the message contains "network", "fetch" or
    "timeout". *)
Theorem handleApiError_retry_classes (error : Error) :
  (forall status, response error = Some status ->
     (shouldRetry (handleApiError error) = true
      <-> status = 429 \/ 500 <= status))
  /\ (response error = None ->
      (shouldRetry (handleApiError error) = true
       <-> exists msg, message error = Some msg /\
                       (includes "network" msg = true
                        \/ includes "fetch" msg = true
                        \/ includes "timeout" msg = true))).
Proof.
  unfold handleApiError. split.
  - intros status ->.
    repeat match goal with
           | |- context [?a =? ?b] => destruct (Z.eqb_spec a b); simpl
           end;
      try (split; [discriminate | lia]); try (split; [lia | reflexivity]);
      try (split; [intros _; lia | reflexivity]).
    destruct (Z.geb_spec status 500); split; intros; try lia;
      try discriminate; reflexivity.
  - intros ->. destruct (message error) as [msg|].
    + destruct (String.eqb_spec msg "") as [->|Hne].
      * split; [discriminate|]. intros [m [[= <-] H]]. simpl in H.
        intuition discriminate.
      * destruct (includes "network" msg) eqn:E1; simpl.
        { split; [|reflexivity]. intros _. exists msg. auto. }
        destruct (includes "fetch" msg) eqn:E2; simpl.
        { split; [|reflexivity]. intros _. exists msg. auto. }
        destruct (includes "timeout" msg) eqn:E3; simpl.
        { split; [|reflexivity]. intros _. exists msg. auto. }
        split; [discriminate|]. intros [m [[= <-] H]].
        rewrite E1, E2, E3 in H. intuition discriminate.
    + split; [discriminate|]. intros [m [[=] _]].
Qed.

Lemma handleApiError_retry_classes_witness :
  (shouldRetry (handleApiError {| response := Some 503; message := None |})
     = true <-> 503 = 429 \/ 500 <= 503)
  /\ (shouldRetry (handleApiError
                     {| response := None;
                        message := Some "Failed to fetch" |}) = true
      <-> exists msg, Some "Failed to fetch" = Some msg /\
                      (includes "network" msg = true
                       \/ includes "fetch" msg = true
                       \/ includes "timeout" msg = true)).
Proof.
  split.
  - apply (handleApiError_retry_classes
             {| response := Some 503; message := None |}). reflexivity.
  - apply (handleApiError_retry_classes
             {| response := None; message := Some "Failed to fetch" |}).
    reflexivity.
Defined.

(** X14. The message shown to the user is never empty. *)
Theorem handleApiError_message_not_empty (error : Error) :
  userMessage (handleApiError error) <> "".
Proof.
  unfold handleApiError.
  destruct (response error) as [status|].
  - repeat match goal with
           | |- context [if ?b then _ else _] => destruct b
           end; simpl; discriminate.
  - destruct (message error) as [msg|]; [|discriminate].
    destruct (String.eqb_spec msg ""); [discriminate|].
    repeat match goal with
           | |- context [if ?b then _ else _] => destruct b
           end; simpl; try discriminate. assumption.
Qed.

End ApiErrorExtras.

(** ** The streaming hook: messages, close and reconnect, the heartbeat timer *)

Module WSExtras.
Import WS.

(** X15. The latency published on a pong is the time since the last
    ping: after [sendPing] on an open socket at time [t1], which sends
    one ping frame, a pong handled at time [t2] sets [latency] to
    [t2 - t1] and changes nothing else of the state. *)
Theorem pong_measures_time_since_ping (h : Hook) (d : Parsed)
    (clk clk' : Clock) :
  is_open h = true ->
  p_method d = Some "pong" ->
  let pinged := fst (sendPing h clk) in
  let ponged := fst (handleMessage (Some d) pinged clk') in
  sent_frames pinged = sent_frames h ++ [PingFrame]
  /\ state ponged = with_latency (clk' 0%nat - clk 0%nat) (state h)
  /\ onMessageCalls ponged = onMessageCalls h.
Proof.
  intros Hopen Hpong. cbv zeta.
  unfold sendPing. rewrite Hopen.
  unfold bind, Date_now, ret, sendMessage, sent_frames. simpl.
  unfold is_open in Hopen.
  destruct (wsRef h) as [[[] sent]|]; try discriminate. simpl.
  unfold handleMessage. rewrite Hpong. simpl.
  repeat split.
Qed.

Lemma pong_measures_time_since_ping_witness :
  state (fst (handleMessage
                (Some {| p_method := Some "pong"; p_channel := None;
                         p_data := None |})
                (fst (sendPing (connected DEFAULT_CONFIG) (frozen 1000)))
                (frozen 1040)))
  = with_latency (frozen 1040 0%nat - frozen 1000 0%nat)
                 (state (connected DEFAULT_CONFIG)).
Proof.
  apply (pong_measures_time_since_ping (connected DEFAULT_CONFIG)
           {| p_method := Some "pong"; p_channel := None; p_data := None |}
           (frozen 1000) (frozen 1040)); reflexivity.
Defined.

(** X16. No incoming frame touches the connection: whatever arrives,
    also a frame that does not parse, [handleMessage] leaves the
    connection flags, the reconnect counter, the socket, the timers and
    their refs as they are and reports no error to [onError].
    [onMessage] is called once for a frame that parses and is not a
    pong, and not at all otherwise; a frame that does not parse only
    sets [error]. *)
Theorem handleMessage_leaves_connection_alone (event : option Parsed)
    (h : Hook) (clk : Clock) :
  let h' := fst (handleMessage event h clk) in
  isConnected (state h') = isConnected (state h)
  /\ isConnecting (state h') = isConnecting (state h)
  /\ reconnectCount (state h') = reconnectCount (state h)
  /\ wsRef h' = wsRef h
  /\ timers h' = timers h
  /\ reconnectTimeoutRef h' = reconnectTimeoutRef h
  /\ heartbeatTimeoutRef h' = heartbeatTimeoutRef h
  /\ onErrorCalls h' = onErrorCalls h
  /\ onMessageCalls h' =
       onMessageCalls h ++
       match event with
       | Some d =>
           if bool_decide (p_method d = Some "pong") then []
           else [{| channel := p_channel d; payload := p_data d;
                    received := clk 0%nat |}]
       | None => []
       end
  /\ (event = None ->
      state h' = with_error (Some ParseFailed) (state h)).
Proof.
  cbv zeta. unfold handleMessage.
  destruct event as [d|]; [destruct (bool_decide _)|];
    unfold bind, Date_now, ret; simpl; rewrite ?app_nil_r;
    repeat split; discriminate.
Qed.

(** A frame that does not parse, on a connected hook: only [error] is
    set. *)
Lemma handleMessage_leaves_connection_alone_witness :
  state (fst (handleMessage None (connected DEFAULT_CONFIG) (frozen 1040)))
  = with_error (Some ParseFailed) (state (connected DEFAULT_CONFIG)).
Proof.
  apply (handleMessage_leaves_connection_alone None
           (connected DEFAULT_CONFIG) (frozen 1040)).
  reflexivity.
Defined.

(** Two lists of different lengths are not equal. *)
Ltac lengths_differ :=
  let E := fresh in
  intros E; apply (f_equal (@length _)) in E;
  rewrite ?length_app in E; simpl in E; lia.

Lemma clear_timer_pending id h :
  reconnect_pending h = false -> reconnect_pending (clear_timer id h) = false.
Proof.
  unfold reconnect_pending, clear_timer. simpl.
  induction (timers h) as [|t l IH]; simpl; [reflexivity|].
  intros H. apply orb_false_iff in H as [Ht Hl].
  destruct (negb (timer_id t =? id)%nat); simpl; [rewrite Ht|]; now apply IH.
Qed.

Lemma pending_app l1 l2 :
  existsb (fun t => bool_decide (callback t = cb_connect)) (l1 ++ l2)
  = existsb (fun t => bool_decide (callback t = cb_connect)) l1
    || existsb (fun t => bool_decide (callback t = cb_connect)) l2.
Proof. apply existsb_app. Qed.

(** X17. [handleClose] schedules a reconnection exactly when the close
    code is not 1000 and the reconnect count it sees is below
    [reconnectAttempts]; it reports exhaustion to [onError] exactly
    when the count it sees has reached [reconnectAttempts], whatever
    the close code.  (The hook is taken with no reconnection pending.) *)
Theorem handleClose_reconnects_only_after_unexpected_close
    (config : WebSocketConfig) (seen : nat) (code : Z) (h : Hook) :
  reconnect_pending h = false ->
  let h' := handleClose config seen code h in
  (reconnect_pending h' = true
   <-> code <> 1000 /\ Z.of_nat seen < reconnectAttempts config)
  /\ (onErrorCalls h' = onErrorCalls h ++ [ReconnectExhausted]
      <-> reconnectAttempts config <= Z.of_nat seen)
  /\ (onErrorCalls h' = onErrorCalls h
      <-> Z.of_nat seen < reconnectAttempts config)
  /\ isConnected (state h') = false.
Proof.
  intros Hquiet. cbv zeta. unfold handleClose.
  set (h2 := match heartbeatTimeoutRef _ with Some _ => _ | None => _ end).
  assert (Hq2 : reconnect_pending h2 = false).
  { unfold h2. simpl. destruct (heartbeatTimeoutRef h); simpl.
    - exact (clear_timer_pending _ _ Hquiet).
    - exact Hquiet. }
  assert (He2 : onErrorCalls h2 = onErrorCalls h).
  { unfold h2. simpl. now destruct (heartbeatTimeoutRef h). }
  assert (Hc2 : isConnected (state h2) = false).
  { unfold h2. simpl. now destruct (heartbeatTimeoutRef h). }
  destruct (Z.eqb_spec code 1000) as [Hcode|Hcode];
    destruct (Z.ltb_spec (Z.of_nat seen) (reconnectAttempts config))
      as [Hlt|Hge]; simpl.
  - destruct (Z.geb_spec (Z.of_nat seen) (reconnectAttempts config)); [lia|].
    rewrite Hq2, He2, Hc2.
    repeat split; try lia; try discriminate; try tauto; lengths_differ.
  - destruct (Z.geb_spec (Z.of_nat seen) (reconnectAttempts config)); [|lia].
    simpl. rewrite He2, Hc2.
    change (reconnect_pending (onError _ (setState _ h2)))
      with (reconnect_pending h2). rewrite Hq2.
    repeat split; try lia; try discriminate; try tauto; lengths_differ.
  - unfold reconnect_pending in *. simpl. rewrite pending_app, Hq2. simpl.
    rewrite He2, Hc2.
    repeat split; try lia; try discriminate; try tauto; lengths_differ.
  - destruct (Z.geb_spec (Z.of_nat seen) (reconnectAttempts config)); [|lia].
    simpl. rewrite He2, Hc2.
    change (reconnect_pending (onError _ (setState _ h2)))
      with (reconnect_pending h2). rewrite Hq2.
    repeat split; try lia; try discriminate; try tauto; lengths_differ.
Qed.


Lemma handleClose_reconnects_only_after_unexpected_close_witness :
  (reconnect_pending (handleClose DEFAULT_CONFIG 0 1006
                        (connected DEFAULT_CONFIG)) = true
   <-> 1006 <> 1000 /\ Z.of_nat 0 < reconnectAttempts DEFAULT_CONFIG)
  /\ (onErrorCalls (handleClose DEFAULT_CONFIG 5 1000
                      (connected DEFAULT_CONFIG))
      = onErrorCalls (connected DEFAULT_CONFIG) ++ [ReconnectExhausted]
      <-> reconnectAttempts DEFAULT_CONFIG <= Z.of_nat 5).
Proof.
  split.
  - apply (handleClose_reconnects_only_after_unexpected_close
             DEFAULT_CONFIG 0 1006 (connected DEFAULT_CONFIG)). reflexivity.
  - apply (handleClose_reconnects_only_after_unexpected_close
             DEFAULT_CONFIG 5 1000 (connected DEFAULT_CONFIG)). reflexivity.
Defined.



Lemma disconnect_refs (x : Hook) :
  reconnectTimeoutRef (disconnect x) = None
  /\ heartbeatTimeoutRef (disconnect x) = None.
Proof.
  unfold disconnect.
  destruct (reconnectTimeoutRef x) as [r|] eqn:Er; simpl;
    destruct (heartbeatTimeoutRef x) as [b|] eqn:Eb; simpl; auto.
Qed.




Lemma filter_repeating_none (l : list Timer) :
  (forall t, In t l -> repeating t = false) -> List.filter repeating l = [].
Proof.
  induction l as [|t l IH]; simpl; intros H; [reflexivity|].
  rewrite (H t) by now left. apply IH. intros t' Ht'. apply H. now right.
Qed.

Lemma filter_repeating_cleared id (l : list Timer) :
  (forall t, In t l -> repeating t = true -> timer_id t = id) ->
  List.filter repeating
    (List.filter (fun t => negb (timer_id t =? id)%nat) l) = [].
Proof.
  intros H. apply filter_repeating_none. intros t Ht.
  apply filter_In in Ht as [Ht Hid].
  destruct (repeating t) eqn:E; [|reflexivity].
  rewrite (H t Ht E), Nat.eqb_refl in Hid. discriminate.
Qed.

Lemma one_heartbeat_cleared (h : Hook) :
  one_heartbeat h ->
  List.filter repeating
    (timers match heartbeatTimeoutRef h with
            | Some id => clear_timer id h
            | None => h
            end) = [].
Proof.
  unfold one_heartbeat.
  destruct (heartbeatTimeoutRef h) as [id|]; simpl; intros H.
  - now apply filter_repeating_cleared.
  - now apply filter_repeating_none.
Qed.

Lemma one_heartbeat_sub (h x : Hook) :
  one_heartbeat h ->
  heartbeatTimeoutRef x = heartbeatTimeoutRef h ->
  (forall t, In t (timers x) -> In t (timers h)) ->
  one_heartbeat x.
Proof.
  unfold one_heartbeat. intros Hone -> Hsub.
  destruct (heartbeatTimeoutRef h); intros t Ht; apply Hone; auto.
Qed.

Lemma handleClose_heartbeat config seen code (h : Hook) :
  one_heartbeat h ->
  List.filter repeating (timers (handleClose config seen code h)) = []
  /\ heartbeatTimeoutRef (handleClose config seen code h) = None.
Proof.
  intros Hone. pose proof (one_heartbeat_cleared h Hone) as Hclear.
  unfold handleClose.
  set (h2 := match heartbeatTimeoutRef _ with Some _ => _ | None => _ end).
  assert (Hr2 : List.filter repeating (timers h2) = []).
  { unfold h2. simpl. destruct (heartbeatTimeoutRef h); exact Hclear. }
  assert (Hb2 : heartbeatTimeoutRef h2 = None).
  { unfold h2. simpl.
    destruct (heartbeatTimeoutRef h) eqn:E; simpl; [reflexivity | exact E]. }
  destruct (negb (code =? 1000) && _).
  - simpl. rewrite List.filter_app, Hr2, Hb2. split; reflexivity.
  - destruct (Z.of_nat seen >=? reconnectAttempts config); simpl;
      rewrite ?Hr2, ?Hb2; split; reflexivity || assumption.
Qed.

(** X19. The hook never runs more than one heartbeat: from a state in
    which the heartbeat ref names the only interval timer, [handleOpen]
    leaves exactly one interval timer, the new one that sends a ping
    every [heartbeatInterval], and [handleClose] and [disconnect] leave
    none. *)
Theorem at_most_one_heartbeat_timer (config : WebSocketConfig) (seen : nat)
    (code : Z) (h : Hook) :
  one_heartbeat h ->
  List.filter repeating (timers (handleOpen config h))
    = [{| timer_id := (nextTimer h + length (subscriptions config))%nat;
          repeating := true; delay := heartbeatInterval config;
          callback := cb_sendPing |}]
  /\ heartbeatTimeoutRef (handleOpen config h)
     = Some (nextTimer h + length (subscriptions config))%nat
  /\ List.filter repeating (timers (handleClose config seen code h)) = []
  /\ heartbeatTimeoutRef (handleClose config seen code h) = None
  /\ List.filter repeating (timers (disconnect h)) = []
  /\ heartbeatTimeoutRef (disconnect h) = None.
Proof.
  intros Hone. split; [|split; [|split; [|split; [|split]]]].
  - unfold handleOpen.
    set (h1 := setState _ h).
    destruct (WSFacts.schedule_subscriptions_spec (subscriptions config) h1)
      as (Ht & Hn & _ & Hb & _).
    set (h2 := schedule_subscriptions (subscriptions config) h1) in *.
    change (timers h1) with (timers h) in Ht.
    change (nextTimer h1) with (nextTimer h) in Ht, Hn.
    change (heartbeatTimeoutRef h1) with (heartbeatTimeoutRef h) in Hb.
    assert (Hone2 : one_heartbeat h2).
    { unfold one_heartbeat in *. rewrite Hb, Ht.
      destruct (heartbeatTimeoutRef h) as [id|]; intros t Hin;
        apply in_app_or in Hin as [Hin|Hin]; auto.
      - apply WSFacts.subscription_timers_ids in Hin as [_ ->]. discriminate.
      - now apply WSFacts.subscription_timers_ids in Hin as [_ ->]. }
    pose proof (one_heartbeat_cleared h2 Hone2) as Hclear.
    destruct (heartbeatTimeoutRef h2); simpl in *;
      rewrite List.filter_app, Hclear, Hn; reflexivity.
  - unfold handleOpen.
    set (h1 := setState _ h).
    destruct (WSFacts.schedule_subscriptions_spec (subscriptions config) h1)
      as (_ & Hn & _ & _ & _).
    set (h2 := schedule_subscriptions (subscriptions config) h1) in *.
    change (nextTimer h1) with (nextTimer h) in Hn.
    destruct (heartbeatTimeoutRef h2); simpl; now rewrite Hn.
  - destruct (handleClose_heartbeat config seen code h Hone) as [H _].
    exact H.
  - destruct (handleClose_heartbeat config seen code h Hone) as [_ H].
    exact H.
  - set (h1 := match reconnectTimeoutRef h with
               | Some id => set_reconnectTimeoutRef None (clear_timer id h)
               | None => h
               end).
    assert (Hone1 : one_heartbeat h1).
    { apply (one_heartbeat_sub h); [exact Hone | |];
        unfold h1; destruct (reconnectTimeoutRef h); simpl; auto.
      intros t Ht. now apply filter_In in Ht as [Ht _]. }
    pose proof (one_heartbeat_cleared h1 Hone1) as Hclear.
    change (timers (disconnect h))
      with (timers match heartbeatTimeoutRef h1 with
                   | Some id => set_heartbeatTimeoutRef None (clear_timer id h1)
                   | None => h1
                   end).
    destruct (heartbeatTimeoutRef h1); exact Hclear.
  - apply disconnect_refs.
Qed.

Lemma connected_one_heartbeat : one_heartbeat (connected DEFAULT_CONFIG).
Proof. intros t [<-|[]] _. reflexivity. Qed.

(** A hook whose heartbeat is running, with timer 1: a second open
    replaces it by timer 2, and a close or a [disconnect] stops it. *)
Lemma at_most_one_heartbeat_timer_witness :
  List.filter repeating (timers (connected DEFAULT_CONFIG))
    = [{| timer_id := 1; repeating := true; delay := 30000;
          callback := cb_sendPing |}]
  /\ List.filter repeating
       (timers (handleOpen DEFAULT_CONFIG (connected DEFAULT_CONFIG)))
     = [{| timer_id := 2; repeating := true; delay := 30000;
           callback := cb_sendPing |}]
  /\ List.filter repeating
       (timers (handleClose DEFAULT_CONFIG 0 1006 (connected DEFAULT_CONFIG)))
     = []
  /\ List.filter repeating (timers (disconnect (connected DEFAULT_CONFIG)))
     = [].
Proof.
  destruct (at_most_one_heartbeat_timer DEFAULT_CONFIG 0 1006
              (connected DEFAULT_CONFIG) connected_one_heartbeat)
    as (Hopen & _ & Hclose & _ & Hdisconnect & _).
  split; [reflexivity|]. split; [exact Hopen|].
  split; [exact Hclose | exact Hdisconnect].
Defined.

End WSExtras.

(** ** useVirtualScroll: the rendered window *)

Module VirtualScrollExtras.
Import VirtualScroll.

Section Window.
Context {T : Type}.
Variable items : list T.
Variable options : VirtualScrollOptions.
Variable scrollTop : Z.

Lemma startIndex_nonneg : 0 <= startIndex options scrollTop.
Proof. unfold startIndex. lia. Qed.

Lemma slice_lookup (start stop : Z) (j : nat) (y : T) :
  0 <= start ->
  slice items start stop !! j = Some y ->
  items !! (Z.to_nat start + j)%nat = Some y
  /\ start < Z.of_nat (length items).
Proof.
  intros Hstart. unfold slice.
  destruct (Z.ltb_spec start 0) as [|_]; [lia|].
  intros Hj. apply lookup_take_Some in Hj as [Hj _].
  rewrite lookup_drop in Hj.
  pose proof (lookup_lt_Some _ _ _ Hj) as Hlt.
  assert (start < Z.of_nat (length items)) by lia.
  split; [|assumption].
  replace (Z.min start (Z.of_nat (length items))) with start in Hj by lia.
  exact Hj.
Qed.

(** X20. Every row the hook hands out carries its own position: if
    [(item, index)] is among [visibleItems] then [items[index]] is
    [item].  This holds for every list, scroll position and options. *)
Theorem visible_items_carry_their_index (item : T) (index : Z) :
  In (item, index) (visibleItems items options scrollTop) ->
  0 <= index < itemCount items
  /\ items !! Z.to_nat index = Some item.
Proof.
  intros Hin. apply list_elem_of_In, elem_of_lookup_imap in Hin
    as (j & y & Heq & Hj).
  injection Heq as -> ->.
  pose proof startIndex_nonneg as Hs.
  apply slice_lookup in Hj as [Hj Hlen]; [|exact Hs].
  pose proof (lookup_lt_Some _ _ _ Hj) as Hlt.
  unfold itemCount. split; [lia|].
  replace (Z.to_nat (startIndex options scrollTop + Z.of_nat j))
    with (Z.to_nat (startIndex options scrollTop) + j)%nat by lia.
  exact Hj.
Qed.

Hypothesis height_positive : 0 < itemHeight options.
Hypothesis container_nonneg : 0 <= containerHeight options.
Hypothesis overscan_nonneg : 0 <= overscan_of options.

Lemma container_fits :
  containerHeight options <= visibleCount options * itemHeight options
  /\ 0 <= visibleCount options.
Proof.
  unfold visibleCount, ceil_div.
  pose proof (Z.div_mod (- containerHeight options) (itemHeight options)
                ltac:(lia)) as Hdm.
  pose proof (Z.mod_pos_bound (- containerHeight options) (itemHeight options)
                height_positive) as Hmod.
  split; nia.
Qed.

Lemma endIndex_bounds :
  -1 <= endIndex items options scrollTop <= itemCount items - 1.
Proof.
  pose proof container_fits as [_ Hv]. pose proof startIndex_nonneg.
  unfold endIndex, itemCount. lia.
Qed.



(** X22. The hook never renders more than the viewport needs: under the
    same conditions [visibleItems] holds at most
    [visibleCount + 2 * overscan + 1] items, however long the list. *)
Theorem visible_items_are_bounded :
  Z.of_nat (length (visibleItems items options scrollTop))
  <= visibleCount options + 2 * overscan_of options + 1.
Proof.
  pose proof container_fits as [_ Hv]. pose proof startIndex_nonneg as Hs.
  pose proof endIndex_bounds as He.
  unfold visibleItems. rewrite length_imap. unfold slice.
  destruct (Z.ltb_spec (startIndex options scrollTop) 0) as [|_]; [lia|].
  destruct (Z.ltb_spec (endIndex items options scrollTop + 1) 0) as [|_];
    [lia|].
  rewrite length_take, length_drop.
  unfold endIndex, itemCount in *. lia.
Qed.

End Window.

Lemma visible_items_carry_their_index_witness :
  0 <= 3 < itemCount ten_rows /\ ten_rows !! Z.to_nat 3 = Some 3%nat.
Proof.
  apply (visible_items_carry_their_index ten_rows small_viewport 60 3%nat 3).
  vm_compute. tauto.
Defined.


Lemma visible_items_are_bounded_witness :
  Z.of_nat (length (visibleItems ten_rows small_viewport 60))
  <= visibleCount small_viewport + 2 * overscan_of small_viewport + 1.
Proof.
  apply (visible_items_are_bounded ten_rows small_viewport 60); simpl;
    unfold overscan_of; simpl; lia.
Defined.


Lemma fold_heights_shift (f : nat -> Z) (l : list nat) (a : Z) :
  fold_left (fun offset i => offset + f i) l a
  = a + fold_left (fun offset i => offset + f i) l 0.
Proof.
  revert a. induction l as [|x l IH]; intros a; simpl; [lia|].
  rewrite IH, (IH (0 + f x)). lia.
Qed.

Lemma fold_heights_map (f : nat -> Z) (l : list nat) :
  fold_left Z.add (map f l) 0 = fold_left (fun offset i => offset + f i) l 0.
Proof.
  generalize 0. induction l as [|x l IH]; intros a; simpl; [reflexivity|].
  apply IH.
Qed.

Lemma fold_heights_const (f : nat -> Z) (c : Z) (n : nat) :
  (forall i, (i < n)%nat -> f i = c) ->
  fold_left (fun offset i => offset + f i) (seq 0 n) 0 = Z.of_nat n * c.
Proof.
  induction n as [|n IH]; intros H; [reflexivity|].
  rewrite seq_S, fold_left_app. simpl.
  rewrite IH by (intros i Hi; apply H; lia).
  rewrite (H n) by lia. lia.
Qed.

(** X23. With dynamic heights the offset of an item is the sum of the
    heights of the items before it: [offset(i + 1) = offset(i) +
    height(i)], and the total height is the offset of the end of the
    list.  Where no height has been recorded the dynamic layout is the
    fixed one: the offset of [index] is [index * itemHeight], and with
    nothing recorded at all [totalHeight] is the same in both modes
    and so is [offsetY], for an [itemHeight] other than 0. *)
Theorem dynamic_offsets_sum_the_heights {T} (items : list T)
    (options : VirtualScrollOptions) (scrollTop : Z) (itemHeights : gmap Z Z) :
  (forall i, 0 <= i ->
     sum_heights options itemHeights (i + 1)
     = sum_heights options itemHeights i
       + getDynamicHeight options itemHeights i)
  /\ (dynamic options = true ->
      returned_totalHeight items options itemHeights
      = getDynamicOffset options itemHeights (itemCount items))
  /\ (forall index, 0 <= index ->
        (forall i, 0 <= i < index -> itemHeights !! i = None) ->
        getDynamicOffset options itemHeights index
        = index * itemHeight options)
  /\ (itemHeights = ∅ ->
      returned_totalHeight items options itemHeights
        = totalHeight items options
      /\ (itemHeight options <> 0 ->
          returned_offsetY options scrollTop itemHeights
          = offsetY options scrollTop)).
Proof.
  assert (Hflat : forall index, 0 <= index ->
            (forall i, 0 <= i < index -> itemHeights !! i = None) ->
            sum_heights options itemHeights index
            = index * itemHeight options).
  { intros index Hindex Hnone. unfold sum_heights.
    rewrite (fold_heights_const _ (itemHeight options));
      [now rewrite Z2Nat.id by lia|].
    intros i Hi. unfold getDynamicHeight. rewrite Hnone by lia. reflexivity. }
  split; [|split; [|split]].
  - intros i Hi. unfold sum_heights.
    replace (Z.to_nat (i + 1)) with (S (Z.to_nat i)) by lia.
    rewrite seq_S, fold_left_app. simpl.
    now rewrite Z2Nat.id by lia.
  - intros Hdyn. unfold returned_totalHeight, getDynamicOffset, sum_heights.
    rewrite Hdyn. simpl. apply fold_heights_map.
  - intros index Hindex Hnone. unfold getDynamicOffset.
    destruct (dynamic options); simpl; [now apply Hflat | reflexivity].
  - intros ->.
    unfold returned_totalHeight, returned_offsetY, getDynamicOffset,
      totalHeight, offsetY.
    destruct (dynamic options); simpl; [|split; [|intros _]; reflexivity].
    split.
    + rewrite fold_heights_map.
      change (fold_left _ (seq 0 (Z.to_nat (itemCount items))) 0)
        with (sum_heights options ∅ (itemCount items)).
      apply Hflat; [unfold itemCount; lia | intros; apply lookup_empty].
    + intros _. apply Hflat; [unfold startIndex; lia | intros; apply lookup_empty].
Qed.

(** Ten rows of 20 pixels with dynamic heights on and nothing recorded,
    scrolled to 60: the rendered block starts at row 2, 40 pixels down,
    as with fixed heights, and the list is 200 pixels high. *)
Lemma dynamic_offsets_sum_the_heights_witness :
  returned_totalHeight ten_rows dynamic_viewport ∅ = 200
  /\ returned_offsetY dynamic_viewport 60 ∅ = 40
  /\ offsetY dynamic_viewport 60 = 40
  /\ getDynamicOffset dynamic_viewport (<[7 := 35]> ∅) 5 = 100.
Proof.
  destruct (dynamic_offsets_sum_the_heights ten_rows dynamic_viewport 60 ∅)
    as (_ & _ & _ & H).
  destruct (H eq_refl) as [Htotal Hoffset].
  split; [exact Htotal|]. split; [apply Hoffset; discriminate|].
  split; [reflexivity|].
  destruct (dynamic_offsets_sum_the_heights ten_rows dynamic_viewport 60
              (<[7 := 35]> ∅)) as (_ & _ & Hflat & _).
  apply (Hflat 5); [lia|].
  intros i Hi. rewrite lookup_insert_ne by lia. apply lookup_empty.
Defined.

(** X24. A height recorded with [setItemHeight] is the height used for
    that item from then on, and for that item only, when dynamic
    heights are enabled; a recorded height of 0 counts as not recorded.
    When dynamic heights are off, [setItemHeight] records nothing. *)
Theorem recorded_height_is_used (options : VirtualScrollOptions)
    (itemHeights : gmap Z Z) (index height : Z) :
  (dynamic options = true ->
   getDynamicHeight options
     (setItemHeight options itemHeights index height) index
   = (if height =? 0 then itemHeight options else height)
   /\ forall j, j <> index ->
        getDynamicHeight options
          (setItemHeight options itemHeights index height) j
        = getDynamicHeight options itemHeights j)
  /\ (dynamic options = false ->
      setItemHeight options itemHeights index height = itemHeights).
Proof.
  unfold setItemHeight, getDynamicHeight. split; intros ->; [|reflexivity].
  split.
  - now rewrite lookup_insert_eq.
  - intros j Hj. now rewrite lookup_insert_ne by congruence.
Qed.

Lemma recorded_height_is_used_witness :
  getDynamicHeight
    {| itemHeight := 20; containerHeight := 100; overscan := None;
       enableDynamicHeight := Some true |}
    (setItemHeight
       {| itemHeight := 20; containerHeight := 100; overscan := None;
          enableDynamicHeight := Some true |} ∅ 3 35) 3
  = (if 35 =? 0 then 20 else 35).
Proof.
  destruct (recorded_height_is_used
              {| itemHeight := 20; containerHeight := 100; overscan := None;
                 enableDynamicHeight := Some true |} ∅ 3 35) as [H _].
  destruct (H eq_refl) as [Hown _]. exact Hown.
Defined.

End VirtualScrollExtras.

(** ** useHyperliquidRealTime: what is sent on open, and reconnection *)

Module RealTimeExtras.
Import RealTime.




Lemma callbacks_idle {A} (l : list A) (x : Hook) :
  current_is_closed x = false ->
  fold_left (fun acc _ => reconnect_callback acc) l x = x.
Proof.
  intros Hx. induction l as [|a l IH]; simpl; [reflexivity|].
  unfold reconnect_callback at 2. rewrite Hx. exact IH.
Qed.

Lemma connect_not_closed (x : Hook) : current_is_closed (connect x) = false.
Proof.
  unfold current_is_closed, connect. simpl.
  rewrite lookup_app_r by lia. now rewrite Nat.sub_diag.
Qed.

Lemma set_readyState_lookup id r (l : list Socket) (sock : Socket) :
  l !! id = Some sock ->
  set_readyState id r l !! id = Some {| readyState := r; outbox := outbox sock |}
  /\ length (set_readyState id r l) = length l.
Proof.
  intros H. unfold set_readyState. rewrite H.
  rewrite length_insert. split; [|reflexivity].
  apply list_lookup_insert_eq. now apply lookup_lt_Some in H.
Qed.

Lemma set_readyState_length id r (l : list Socket) :
  length (set_readyState id r l) = length l.
Proof.
  unfold set_readyState. destruct (l !! id); [apply length_insert | reflexivity].
Qed.

(** One reconnection: the current socket closes, [onclose] sets a timer
    of 5000 ms, and when the timers have fired a new socket is the
    current one. *)
Lemma reconnect_round (h : Hook) (id : nat) :
  wsRef h = Some id -> (id < length (sockets h))%nat ->
  let h' := run_timers (socket_closed id h) in
  sockets h'
  = set_readyState id WS.CLOSED (sockets h)
    ++ [{| readyState := WS.CONNECTING; outbox := [] |}]
  /\ wsRef h' = Some (length (sockets h))
  /\ timers (socket_closed id h)
     = timers h ++ [{| timer_id := nextTimer h; delay := 5000 |}]
  /\ timers h' = []
  /\ nextTimer h' = S (nextTimer h).
Proof.
  intros Href Hid. cbv zeta.
  destruct (lookup_lt_is_Some_2 (sockets h) id Hid) as [sock Hsock].
  destruct (set_readyState_lookup id WS.CLOSED _ _ Hsock) as [Hl Hlen].
  unfold run_timers, socket_closed, onclose, with_sockets. simpl.
  rewrite fold_left_app. simpl.
  match goal with
  | |- context [fold_left _ (timers h) ?x] =>
      assert (Hclosed : current_is_closed x = true)
        by (unfold current_is_closed; simpl; now rewrite Href, Hl);
      assert (Hfold : fold_left (fun acc _ => reconnect_callback acc)
                        (timers h) x = x \/
                      fold_left (fun acc _ => reconnect_callback acc)
                        (timers h) x = connect x)
  end.
  { destruct (timers h) as [|t l]; [now left|]. right. simpl.
    unfold reconnect_callback at 2. rewrite Hclosed.
    apply callbacks_idle, connect_not_closed. }
  destruct Hfold as [-> | ->].
  - unfold reconnect_callback. rewrite Hclosed. simpl.
    rewrite Hlen. repeat split.
  - unfold reconnect_callback. rewrite connect_not_closed. simpl.
    rewrite Hlen. repeat split.
Qed.

Lemma reconnections_spec (n : nat) (h : Hook) (id : nat) :
  wsRef h = Some id -> (id < length (sockets h))%nat ->
  exists idn,
    wsRef (reconnections n h) = Some idn
    /\ (idn < length (sockets (reconnections n h)))%nat
    /\ length (sockets (reconnections n h)) = (length (sockets h) + n)%nat
    /\ nextTimer (reconnections n h) = (nextTimer h + n)%nat.
Proof.
  revert h id. induction n as [|n IH]; intros h id Href Hid.
  - exists id. simpl. rewrite !Nat.add_0_r. repeat split; assumption.
  - cbn [reconnections]. unfold close_current. rewrite Href.
    destruct (reconnect_round h id Href Hid) as (Hs & Hw & _ & _ & Hn).
    assert (Hlen : length (sockets (run_timers (socket_closed id h)))
                   = S (length (sockets h))).
    { rewrite Hs, length_app, set_readyState_length. simpl. lia. }
    destruct (IH _ (length (sockets h)) Hw ltac:(lia))
      as (idn & Hwn & Hidn & Hlenn & Hnn).
    exists idn. rewrite Hlen in Hlenn. rewrite Hn in Hnn.
    repeat split; [exact Hwn | exact Hidn | lia | lia].
Qed.

(** X26. When the socket the hook is using closes, [onclose] sets a
    timer of 5000 ms, and once it has fired the hook has connected
    again: a new socket in [CONNECTING] is the current one.  This is so
    after any number [n] of earlier reconnections: the next close is
    again followed by a timer of 5000 ms and a new socket, so there is
    no limit on the number of reconnections and the delay does not
    grow.  After [disconnect()] the close of the socket and the timers
    lead to no new socket. *)
Theorem realtime_reconnects_unless_disconnected (h : Hook) (id n : nat) :
  (wsRef h = Some id -> (id < length (sockets h))%nat ->
   let hn := reconnections n h in
   let h' := run_timers (close_current hn) in
   length (sockets hn) = (length (sockets h) + n)%nat
   /\ timers (close_current hn)
      = timers hn ++ [{| timer_id := (nextTimer h + n)%nat; delay := 5000 |}]
   /\ length (sockets h') = S (length (sockets hn))
   /\ wsRef h' = Some (length (sockets hn))
   /\ sockets h' !! length (sockets hn)
      = Some {| readyState := WS.CONNECTING; outbox := [] |})
  /\ (let h' := run_timers (socket_closed id (disconnect h)) in
      length (sockets h') = length (sockets h)
      /\ wsRef h' = None
      /\ isConnected h' = false).
Proof.
  split.
  - intros Href Hid. cbv zeta.
    destruct (reconnections_spec n h id Href Hid)
      as (idn & Hwn & Hidn & Hlenn & Hnn).
    destruct (reconnect_round _ idn Hwn Hidn) as (Hs & Hw & Ht & _ & _).
    unfold close_current. rewrite Hwn.
    split; [exact Hlenn|]. split; [now rewrite Ht, Hnn|].
    split; [|split; [exact Hw|]].
    + rewrite Hs, length_app, set_readyState_length. simpl. lia.
    + rewrite Hs. rewrite lookup_app_r by (rewrite set_readyState_length; lia).
      rewrite set_readyState_length, Nat.sub_diag. reflexivity.
  - cbv zeta. unfold run_timers, socket_closed, onclose, with_sockets.
    simpl. rewrite callbacks_idle by reflexivity. simpl.
    rewrite set_readyState_length.
    split; [|split; reflexivity].
    destruct (wsRef h) as [cur|]; [|reflexivity].
    unfold close.
    destruct (sockets h !! cur) as [[[] ?]|];
      try reflexivity; apply set_readyState_length.
Qed.

(** The hook has connected and reconnected three times: the fourth
    close sets timer 4, again of 5000 ms, and leads to a fifth socket;
    after [disconnect()] a close leads to none. *)
Lemma realtime_reconnects_unless_disconnected_witness :
  timers (close_current (reconnections 3 (connect initial)))
    = [{| timer_id := 4; delay := 5000 |}]
  /\ wsRef (run_timers (close_current (reconnections 3 (connect initial))))
     = Some 4%nat
  /\ wsRef (run_timers (socket_closed 0 (disconnect (connect initial)))) = None.
Proof.
  destruct (realtime_reconnects_unless_disconnected (connect initial) 0 3)
    as [Hre Hdis].
  split; [|split].
  - destruct (Hre eq_refl) as (_ & H & _); [simpl; lia | exact H].
  - destruct (Hre eq_refl) as (_ & _ & _ & H & _); [simpl; lia | exact H].
  - destruct Hdis as (_ & H & _). exact H.
Defined.

End RealTimeExtras.

(** ** OrderExecutionService: validation *)

Module OrdersExtras.
Import Orders.

Lemma not_positive_iff (p : option Q) :
  missing_or_not_positive p = false <-> exists x, p = Some x /\ Qlt (inject_Z 0) x.
Proof.
  unfold missing_or_not_positive. destruct p as [x|].
  - rewrite orb_false_iff. split.
    + intros [_ Hle]. exists x. split; [reflexivity|].
      apply Qnot_le_lt. intros H. apply Qle_bool_iff in H. congruence.
    + intros [y [[= <-] Hpos]]. split.
      * apply not_true_iff_false. intros H. apply Qeq_bool_iff in H.
        rewrite H in Hpos. now apply Qlt_irrefl in Hpos.
      * apply not_true_iff_false. intros H. apply Qle_bool_iff in H.
        now apply Qlt_not_le in Hpos.
  - split; [discriminate | intros [x [[=] _]]].
Qed.

(** X27. [validateOrder] accepts exactly the orders with an asset that
    is not blank, a size above 0, a price above 0 if the order is a
    limit order and a stop price above 0 if it is a stop or stop-limit
    order; it gives an error text exactly when it rejects. *)
Theorem validateOrder_accepts_exactly (blank : string -> bool)
    (order : OrderRequest) :
  (valid (validateOrder blank order) = true <->
   blank (asset order) = false
   /\ Qlt (inject_Z 0) (size order)
   /\ (orderType order = limit ->
       exists p, price order = Some p /\ Qlt (inject_Z 0) p)
   /\ (orderType order = stop \/ orderType order = stopLimit ->
       exists p, stopPrice order = Some p /\ Qlt (inject_Z 0) p))
  /\ (valid (validateOrder blank order) = true
      <-> error (validateOrder blank order) = None).
Proof.
  unfold validateOrder.
  destruct (blank (asset order)); simpl.
  { split; split; try discriminate. intros [H _]. discriminate. }
  destruct (Qle_bool (size order) (inject_Z 0)) eqn:Esize; simpl.
  { split; split; try discriminate. intros (_ & Hpos & _).
    apply Qle_bool_iff in Esize. now apply Qlt_not_le in Hpos. }
  assert (Hsize : Qlt (inject_Z 0) (size order)).
  { apply Qnot_le_lt. intros H. apply Qle_bool_iff in H. congruence. }
  destruct (orderType order) eqn:Etype; simpl.
  - (* market *)
    split; [|split; intros; reflexivity].
    split; [|reflexivity]. intros _.
    repeat split; [exact Hsize | discriminate | intros [|]; discriminate].
  - (* limit *)
    destruct (missing_or_not_positive (price order)) eqn:Eprice; simpl.
    + split; [|split; discriminate].
      split; [discriminate|]. intros (_ & _ & Hlimit & _).
      specialize (Hlimit eq_refl). apply not_positive_iff in Hlimit.
      congruence.
    + split; [|split; intros; reflexivity].
      split; [|reflexivity]. intros _.
      repeat split; [exact Hsize | | intros [|]; discriminate].
      intros _. now apply not_positive_iff.
  - (* stop *)
    destruct (missing_or_not_positive (stopPrice order)) eqn:Estop; simpl.
    + split; [|split; discriminate].
      split; [discriminate|]. intros (_ & _ & _ & Hstop).
      specialize (Hstop (or_introl eq_refl)).
      apply not_positive_iff in Hstop. congruence.
    + split; [|split; intros; reflexivity].
      split; [|reflexivity]. intros _.
      repeat split; [exact Hsize | discriminate |].
      intros _. now apply not_positive_iff.
  - (* stopLimit *)
    destruct (missing_or_not_positive (stopPrice order)) eqn:Estop; simpl.
    + split; [|split; discriminate].
      split; [discriminate|]. intros (_ & _ & _ & Hstop).
      specialize (Hstop (or_intror eq_refl)).
      apply not_positive_iff in Hstop. congruence.
    + split; [|split; intros; reflexivity].
      split; [|reflexivity]. intros _.
      repeat split; [exact Hsize | discriminate |].
      intros _. now apply not_positive_iff.
Qed.

Section Batch.
Context {W : Type}.
Variable blank : string -> bool.
Variable place : OrderRequest -> W -> OrderExecutionResult * W.

Lemma execute_in_sequence_length (orders : list OrderRequest) (w : W) :
  length (fst (execute_in_sequence blank place orders w)) = length orders.
Proof.
  revert w. induction orders as [|o orders IH]; intros w; [reflexivity|].
  simpl. destruct (executeOrder blank place o w) as [r w1].
  specialize (IH w1).
  destruct (execute_in_sequence blank place orders w1). simpl in *.
  now rewrite IH.
Qed.

(** X28. [executeBatchOrders] gives one result per order.  It checks
    every order before it places any: if one order of the batch is
    invalid, nothing is placed and every result is a failure.  An order
    that [executeOrder] finds invalid is not placed either. *)
Theorem batch_checks_all_orders_first (orders : list OrderRequest) (w : W) :
  length (fst (executeBatchOrders blank place orders w)) = length orders
  /\ (forall bad, In bad orders ->
        valid (validateOrder blank bad) = false ->
        snd (executeBatchOrders blank place orders w) = w
        /\ Forall (fun r => success r = false)
                  (fst (executeBatchOrders blank place orders w)))
  /\ (forall order, valid (validateOrder blank order) = false ->
        snd (executeOrder blank place order w) = w
        /\ success (fst (executeOrder blank place order w)) = false).
Proof.
  unfold executeBatchOrders. split; [|split].
  - destruct (find _ orders); simpl.
    + apply length_map.
    + apply execute_in_sequence_length.
  - intros bad Hin Hbad.
    destruct (find (fun o => negb (valid (validateOrder blank o))) orders)
      as [first|] eqn:E.
    + simpl. split; [reflexivity|].
      apply List.Forall_forall. intros r Hr.
      apply in_map_iff in Hr as [o [<- _]]. reflexivity.
    + exfalso. apply (find_none _ _ E) in Hin. now rewrite Hbad in Hin.
  - intros order Hbad. unfold executeOrder. rewrite Hbad. simpl.
    split; reflexivity.
Qed.

End Batch.

Lemma validateOrder_accepts_exactly_witness :
  valid (validateOrder only_empty_is_blank (market_buy "BTC" (inject_Z 2)))
  = true.
Proof.
  destruct (validateOrder_accepts_exactly only_empty_is_blank
              (market_buy "BTC" (inject_Z 2))) as [[_ H] _].
  apply H. split; [reflexivity|]. split; [reflexivity|].
  split; [discriminate | intros [|]; discriminate].
Defined.

Lemma batch_checks_all_orders_first_witness :
  snd (executeBatchOrders only_empty_is_blank accept_all
         [market_buy "BTC" (inject_Z 2); market_buy "ETH" (inject_Z 0)] 0%nat)
  = 0%nat.
Proof.
  destruct (batch_checks_all_orders_first only_empty_is_blank accept_all
              [market_buy "BTC" (inject_Z 2); market_buy "ETH" (inject_Z 0)]
              0%nat) as (_ & H & _).
  destruct (H (market_buy "ETH" (inject_Z 0))) as [Hw _];
    [right; now left | reflexivity | exact Hw].
Defined.

End OrdersExtras.
